(** * Runestone: the reconciliation pipeline, embedded and checked

    A shallow embedding of the Go sources of the reconciliation pipeline
    (expression evaluation and resource expansion of package [config],
    the drift detector of package [drift], the dependency graph of
    package [executor], the policy engine of package [policy] and the
    controllers of package [cmd]), followed by the properties the
    specification states about them.

    Conventions of the embedding.
    - Go [string] is [string] (a sequence of bytes); [map[string]T] is
      [gmap string T]; a nil map that is only read is the empty map.
    - A Go function returning [(T, error)] returns [result T].
    - A loop the source does not bound takes a [fuel] argument; running
      out of it is the outcome [OutOfFuel], distinct from every Go outcome.
    - Provider calls act on an abstract [World] and are logged in a trace.
    - Where the source ranges over a Go map and the order can be observed
      (which error comes first, the order of appended lists), the model
      ranges in one fixed order.
    - The goroutines of one execution level take effect one after the
      other, in an order given by a [schedule] that may be any
      permutation of the level. *)

From Stdlib Require Import ZArith String Ascii List Lia.
From stdpp Require Import base option gmap strings list fin_maps pretty sorting.

#[local] Set Warnings "-register-all".
#[local] Open Scope string_scope.

(** ** Dynamic values

    The values the program holds in an [interface{}], each with its
    dynamic type: what a decoded YAML document and the expression engine
    produce (nil, bool, int, string, [[]interface{}] and
    [map[string]interface{}]) and what the AWS adapter stores in a live
    state besides these (int32, for the allocated storage and the backup
    retention of a database and for the timeout and the memory size of a
    function).  [VInt] is a Go [int]; [VSized] is a value of one of the
    other integer types.  A slice or a map is either nil ([VNilList],
    [VNilMap]) or allocated ([VList], [VMap], possibly empty).  Other
    dynamic types (floats, timestamps, structs) are outside the model. *)

Inductive IntType : Type :=
| Int8 | Int16 | Int32 | Int64 | Uint | Uint8 | Uint16 | Uint32 | Uint64.

#[global] Instance IntType_eq_dec : EqDecision IntType.
Proof. solve_decision. Defined.

Inductive Value : Type :=
| VNil
| VBool (b : bool)
| VInt (n : Z)
| VSized (t : IntType) (n : Z)
| VStr (s : string)
| VNilList
| VList (l : list Value)
| VNilMap
| VMap (m : gmap string Value).

(** [reflect.DeepEqual] on dynamic values.  Values of distinct dynamic
    types are never deeply equal: an int32 is not equal to an int of the
    same number.  Slices are equal when both are nil or both are not,
    they have the same length and their elements are pairwise deeply
    equal; maps when both are nil or both are not, they have the same
    size and hold deeply equal values under every key. *)
Fixpoint DeepEqual (x y : Value) : bool :=
  match x, y with
  | VNil, VNil => true
  | VBool a, VBool b => bool_decide (a = b)
  | VInt a, VInt b => bool_decide (a = b)
  | VSized t a, VSized u b => bool_decide (t = u) && bool_decide (a = b)
  | VStr a, VStr b => bool_decide (a = b)
  | VNilList, VNilList => true
  | VList l1, VList l2 =>
      (fix all2 (l1 l2 : list Value) : bool :=
         match l1, l2 with
         | [], [] => true
         | a :: l1', b :: l2' => DeepEqual a b && all2 l1' l2'
         | _, _ => false
         end) l1 l2
  | VNilMap, VNilMap => true
  | VMap m1, VMap m2 =>
      bool_decide (size m1 = size m2) &&
      map_fold (fun k a acc =>
                  acc && match m2 !! k with
                         | Some b => DeepEqual a b
                         | None => false
                         end) true m1
  | _, _ => false
  end.

(** ** Errors and results *)

Inductive error : Type :=
| errUnclosedExpression (input : string)
| errEvaluatingExpression (exprStr : string) (cause : error)
| errProcessingResourceName (cause : error)
| errResolvingCount (cause : error)
| errResolvingForEach (cause : error)
| errExpandingResource (name : string) (cause : error)
| errAtoi (s : string)
| errCountExpressionNotInteger
| errCountNotIntegerOrExpression
| errForEachExpressionNotArray
| errForEachNotArrayOrExpression
| errProviderNotFoundFor (provider resource : string)
| errProviderNotFound (provider : string)
| errGetCurrentState (resource : string) (cause : error)
| errDetectDrift (resource : string) (cause : error)
| errNodeNotFound (node : string)
| errDependencyNotFound (dependency resource : string)
| errCircularDependency (resource : string)
| errUnsupportedProvider (provider : string)
| errInitializeProvider (provider : string) (cause : error)
| errProviderNotAvailable (provider : string)
| errExpandResources (cause : error)
| errValidationFailed (resource : string) (cause : error)
| errConfigurationValidation (cause : error)
| errPolicyRuleNameEmpty
| errPolicyRuleConditionEmpty
| errInvalidSeverity (severity : string)
| errEvaluatingRule (rule : string) (cause : error)
| errAddBuiltinRule (rule : string) (cause : error)
| errLoadBuiltinPolicies (cause : error)
| errEvaluatePolicies (resource : string) (cause : error)
| errPolicyViolations
| errModuleNameRequired
| errModuleSourceRequired
| errModuleNameEmpty
| errUnsupportedModuleSource (source : string)
| errInvalidModule (name : string) (cause : error)
| errLoadModule (name : string) (cause : error)
| errRegisterModule (name : string) (cause : error)
| errFormatOutput (cause : error)
| errParseConfiguration (cause : error)
| errDetectDriftFailed (cause : error)
| errCreateDAG (cause : error)
| errDetectExisting (cause : error)
| errExternal (msg : string).

Inductive result (A : Type) : Type :=
| Ok (a : A)
| Err (e : error)
| Panic
| OutOfFuel.
Arguments Ok {A} a.
Arguments Err {A} e.
Arguments Panic {A}.
Arguments OutOfFuel {A}.

Definition bindR {A B} (r : result A) (k : A -> result B) : result B :=
  match r with
  | Ok a => k a
  | Err e => Err e
  | Panic => Panic
  | OutOfFuel => OutOfFuel
  end.

(** [wrapErr w r]: [if err != nil { return ..., fmt.Errorf("...: %w", err) }]. *)
Definition wrapErr {A} (w : error -> error) (r : result A) : result A :=
  match r with
  | Err e => Err (w e)
  | _ => r
  end.

#[global] Instance result_ret : MRet result := fun _ a => Ok a.
#[global] Instance result_bind : MBind result := fun _ _ k r => bindR r k.
#[global] Instance result_fmap : FMap result :=
  fun _ _ f r => bindR r (fun a => Ok (f a)).

(** ** Package [strings] (the functions the sources use) *)

Module gostrings.

Definition HasPrefix (s prefix : string) : bool := String.prefix prefix s.

(** [strings.Index(s, substr)]: first byte offset of [substr] in [s]. *)
Fixpoint Index (s substr : string) : option nat :=
  if HasPrefix s substr then Some 0
  else match s with
       | EmptyString => None
       | String _ s' => S <$> Index s' substr
       end.

Definition Contains (s substr : string) : bool :=
  match Index s substr with Some _ => true | None => false end.

Fixpoint HasSuffix (s suffix : string) : bool :=
  if bool_decide (s = suffix) then true
  else match s with
       | EmptyString => false
       | String _ s' => HasSuffix s' suffix
       end.

(** [s[n:]] and [s[:n]] (for [n <= len(s)]). *)
Fixpoint drop (n : nat) (s : string) : string :=
  match n, s with
  | S n', String _ s' => drop n' s'
  | _, _ => s
  end.

Fixpoint take (n : nat) (s : string) : string :=
  match n, s with
  | S n', String c s' => String c (take n' s')
  | _, _ => EmptyString
  end.

(** [s[i:j]]. *)
Definition slice (i j : nat) (s : string) : string := take (j - i) (drop i s).

(** [strings.Count(s, "${")]: non-overlapping occurrences of the
    two-byte separator. *)
Fixpoint CountOpen (s : string) : nat :=
  match s with
  | EmptyString => 0
  | String c s' =>
      match s' with
      | EmptyString => 0
      | String c' s'' =>
          if bool_decide (c = "$"%char) && bool_decide (c' = "{"%char)
          then S (CountOpen s'')
          else CountOpen s'
      end
  end.

Fixpoint memAscii (c : ascii) (chars : string) : bool :=
  match chars with
  | EmptyString => false
  | String d chars' => bool_decide (c = d) || memAscii c chars'
  end.

(** [strings.ContainsAny(s, chars)]. *)
Fixpoint ContainsAny (s chars : string) : bool :=
  match s with
  | EmptyString => false
  | String c s' => memAscii c chars || ContainsAny s' chars
  end.

(** [strings.Split(s, ":")], for the one-byte separator the sources use. *)
Fixpoint SplitColon (s : string) : list string :=
  match s with
  | EmptyString => [EmptyString]
  | String c s' =>
      if bool_decide (c = ":"%char) then EmptyString :: SplitColon s'
      else match SplitColon s' with
           | part :: parts => String c part :: parts
           | [] => [String c EmptyString]
           end
  end.

End gostrings.

(** ** Package [config]: the data model (types.go) *)

Module config.

Record DriftPolicy : Type := {
  AutoHeal : bool;
  NotifyOnly : bool;
}.

(** [Count] and [ForEach] are [interface{}] fields: [None] is the nil
    interface (field absent from the document). *)
Record Resource : Type := {
  Kind : string;
  Name : string;
  Count : option Value;
  ForEach : option Value;
  Properties : gmap string Value;
  DriftPolicy_ : option DriftPolicy;
  DependsOn : list string;
}.

Record ResourceInstance : Type := {
  iID : string;
  iKind : string;
  iName : string;
  iProperties : gmap string Value;
  iDriftPolicy : option DriftPolicy;
  iDependsOn : list string;
}.

Record Provider : Type := {
  Region : string;
  Profile : string;
}.

Record Module : Type := {
  Source : string;
  Version : string;
  Inputs : gmap string Value;
}.

(** [Providers] and [Modules] are Go maps that the commands only range
    over: they are kept as the list of their entries in the order of
    that range (keys pairwise distinct). *)
Record Config : Type := {
  Project : string;
  Environment : string;
  Variables : gmap string Value;
  Providers : list (string * Provider);
  Modules : list (string * Module);
  Resources : list Resource;
}.

Inductive ChangeType : Type := ChangeTypeCreate | ChangeTypeUpdate | ChangeTypeDelete.

Record Change : Type := {
  Type_ : ChangeType;
  ResourceID : string;
  ResourceKind : string;
  ResourceName : string;
}.

Record ExecutionResult : Type := {
  Success : bool;
  Changes : list Change;
  Errors : list error;
}.

End config.

(** ** Package [providers]: the provider contract (provider.go) *)

Module providers.
Import config.

Inductive DriftType : Type := DriftTypeAdded | DriftTypeRemoved | DriftTypeModified.

Record DriftDifference : Type := {
  Property : string;
  CurrentValue : Value;
  DesiredValue : Value;
  DriftType_ : DriftType;
}.

(** [CurrentState = None] is the nil map a provider returns for a
    resource that does not exist.  The human-readable [Changes] are
    left out. *)
Record DriftResult : Type := {
  HasDrift : bool;
  Differences : gmap string DriftDifference;
  CurrentState : option (gmap string Value);
  DesiredState : gmap string Value;
}.

(** The [Provider] interface.  Every method that talks to the cloud
    takes the world it acts on and returns the world it leaves;
    [None] is a nil error. *)
Record Provider (World : Type) : Type := {
  Initialize : gmap string Value -> World -> option error * World;
  Create : ResourceInstance -> World -> option error * World;
  Update : ResourceInstance -> gmap string Value -> World -> option error * World;
  Delete : ResourceInstance -> World -> option error * World;
  GetCurrentState :
    ResourceInstance -> World -> result (option (gmap string Value)) * World;
  ValidateResource : ResourceInstance -> option error;
}.
Arguments Initialize {World}.
Arguments Create {World}.
Arguments Update {World}.
Arguments Delete {World}.
Arguments GetCurrentState {World}.
Arguments ValidateResource {World}.

(** One entry of the trace of provider calls. *)
Inductive Call : Type :=
| CallInitialize (provider : string)
| CallValidateResource (instance : ResourceInstance)
| CallGetCurrentState (instance : ResourceInstance)
| CallCreate (instance : ResourceInstance)
| CallUpdate (instance : ResourceInstance) (currentState : gmap string Value)
| CallDelete (instance : ResourceInstance).

(** A call that changes the cloud. *)
Definition isMutation (c : Call) : bool :=
  match c with
  | CallCreate _ | CallUpdate _ _ | CallDelete _ => true
  | _ => false
  end.

Definition callInstance (c : Call) : option ResourceInstance :=
  match c with
  | CallInitialize _ => None
  | CallValidateResource i | CallGetCurrentState i | CallCreate i
  | CallUpdate i _ | CallDelete i => Some i
  end.

End providers.

(** ** Provider calls on the cloud

    The cloud is the world the providers act on together with the trace of
    the calls issued so far (oldest first). *)

Module cloud.
Import config providers.

Section calls.
Context {World : Type}.

Record Cloud : Type := {
  world : World;
  calls : list Call;
}.

Definition logged (c : Cloud) (w : World) (ev : Call) : Cloud :=
  {| world := w; calls := calls c ++ [ev] |}.

Definition doInitialize (name : string) (p : Provider World)
    (cfg : gmap string Value) (c : Cloud) : option error * Cloud :=
  let '(e, w) := Initialize p cfg (world c) in
  (e, logged c w (CallInitialize name)).

Definition doCreate (p : Provider World) (i : ResourceInstance)
    (c : Cloud) : option error * Cloud :=
  let '(e, w) := Create p i (world c) in (e, logged c w (CallCreate i)).

Definition doUpdate (p : Provider World) (i : ResourceInstance)
    (cur : gmap string Value) (c : Cloud) : option error * Cloud :=
  let '(e, w) := Update p i cur (world c) in (e, logged c w (CallUpdate i cur)).

Definition doDelete (p : Provider World) (i : ResourceInstance)
    (c : Cloud) : option error * Cloud :=
  let '(e, w) := Delete p i (world c) in (e, logged c w (CallDelete i)).

Definition doGetCurrentState (p : Provider World) (i : ResourceInstance)
    (c : Cloud) : result (option (gmap string Value)) * Cloud :=
  let '(r, w) := GetCurrentState p i (world c) in
  (r, logged c w (CallGetCurrentState i)).

Definition doValidateResource (p : Provider World) (i : ResourceInstance)
    (c : Cloud) : option error * Cloud :=
  (ValidateResource p i, logged c (world c) (CallValidateResource i)).

(** Sequencing of steps that may fail and act on the cloud. *)
Definition bindC {A B} (m : result A * Cloud)
    (k : A -> Cloud -> result B * Cloud) : result B * Cloud :=
  match m with
  | (Ok a, c) => k a c
  | (Err e, c) => (Err e, c)
  | (Panic, c) => (Panic, c)
  | (OutOfFuel, c) => (OutOfFuel, c)
  end.

Definition wrapC {A} (w : error -> error) (m : result A * Cloud)
    : result A * Cloud :=
  (wrapErr w m.1, m.2).

End calls.
Arguments Cloud World : clear implicits.

End cloud.

(** ** Package [drift]: the drift detector (detector.go) *)

Module drift.
Import gostrings config providers cloud.

(** [extractProviderName]: the part of the kind before the first colon. *)
Definition extractProviderName (kind : string) : string :=
  match SplitColon kind with
  | part :: _ => part
  | [] => ""
  end.

(** [isMetadataField]: membership in the closed list of the source. *)
Definition metadataFields : list string :=
  [ "arn"; "id"; "creation_date"; "last_modified"; "status"; "state";
    "availability_zone"; "instance_id"; "vpc_id"; "subnet_id" ].

Fixpoint inFields (fieldName : string) (fields : list string) : bool :=
  match fields with
  | [] => false
  | field :: rest =>
      if bool_decide (fieldName = field) then true else inFields fieldName rest
  end.

Definition isMetadataField (fieldName : string) : bool :=
  inFields fieldName metadataFields.

(** [valuesEqual]: the nil cases, then [reflect.DeepEqual].  Only the
    nil interface is [nil] here: a nil slice or map held in the interface
    is not. *)
Definition valuesEqual (current desired : Value) : bool :=
  match current, desired with
  | VNil, VNil => true
  | VNil, _ | _, VNil => false
  | _, _ => DeepEqual current desired
  end.

(** First loop of [compareStates], one iteration. *)
Definition compareDesired (current : gmap string Value) (key : string)
    (desiredValue : Value) (differences : gmap string DriftDifference)
    : gmap string DriftDifference :=
  match current !! key with
  | None =>
      <[key := {| Property := key; CurrentValue := VNil;
                  DesiredValue := desiredValue;
                  DriftType_ := DriftTypeAdded |}]> differences
  | Some currentValue =>
      if negb (valuesEqual currentValue desiredValue) then
        <[key := {| Property := key; CurrentValue := currentValue;
                    DesiredValue := desiredValue;
                    DriftType_ := DriftTypeModified |}]> differences
      else differences
  end.

(** Second loop of [compareStates], one iteration. *)
Definition compareCurrent (desired : gmap string Value) (key : string)
    (currentValue : Value) (differences : gmap string DriftDifference)
    : gmap string DriftDifference :=
  match desired !! key with
  | Some _ => differences
  | None =>
      if isMetadataField key then differences
      else
        <[key := {| Property := key; CurrentValue := currentValue;
                    DesiredValue := VNil;
                    DriftType_ := DriftTypeRemoved |}]> differences
  end.

Definition compareStates (current desired : gmap string Value)
    : gmap string DriftDifference :=
  let differences := map_fold (compareDesired current) ∅ desired in
  map_fold (compareCurrent desired) differences current.

Section detector.
Context {World : Type}.

Record Detector : Type := {
  providers_ : gmap string (Provider World);
}.

Definition DetectDrift (d : Detector) (instance : ResourceInstance)
    (c : Cloud World) : result DriftResult * Cloud World :=
  let providerName := extractProviderName (iKind instance) in
  match providers_ d !! providerName with
  | None => (Err (errProviderNotFoundFor providerName (iID instance)), c)
  | Some provider =>
      match doGetCurrentState provider instance c with
      | (Ok None, c') =>
          (Ok {| HasDrift := true;
                 Differences := ∅;
                 CurrentState := None;
                 DesiredState := iProperties instance |}, c')
      | (Ok (Some currentState), c') =>
          let differences := compareStates currentState (iProperties instance) in
          (Ok {| HasDrift := bool_decide (0 < size differences);
                 Differences := differences;
                 CurrentState := Some currentState;
                 DesiredState := iProperties instance |}, c')
      | (Err e, c') => (Err (errGetCurrentState (iID instance) e), c')
      | (Panic, c') => (Panic, c')
      | (OutOfFuel, c') => (OutOfFuel, c')
      end
  end.

Fixpoint detectLoop (d : Detector) (instances : list ResourceInstance)
    (results : gmap string DriftResult) (c : Cloud World)
    : result (gmap string DriftResult) * Cloud World :=
  match instances with
  | [] => (Ok results, c)
  | instance :: rest =>
      match DetectDrift d instance c with
      | (Ok r, c') => detectLoop d rest (<[iID instance := r]> results) c'
      | (Err e, c') => (Err (errDetectDrift (iID instance) e), c')
      | (Panic, c') => (Panic, c')
      | (OutOfFuel, c') => (OutOfFuel, c')
      end
  end.

Definition DetectDriftBatch (d : Detector) (instances : list ResourceInstance)
    (c : Cloud World) : result (gmap string DriftResult) * Cloud World :=
  detectLoop d instances ∅ c.

Definition AutoHeal (d : Detector) (instance : ResourceInstance)
    (driftResult : DriftResult) (c : Cloud World) : option error * Cloud World :=
  match iDriftPolicy instance with
  | None => (None, c)
  | Some policy =>
      if negb (AutoHeal policy) then (None, c)
      else
        let providerName := extractProviderName (iKind instance) in
        match providers_ d !! providerName with
        | None => (Some (errProviderNotFoundFor providerName (iID instance)), c)
        | Some provider =>
            match CurrentState driftResult with
            | None => doCreate provider instance c
            | Some currentState =>
                if HasDrift driftResult
                then doUpdate provider instance currentState c
                else (None, c)
            end
        end
  end.

End detector.
Arguments Detector World : clear implicits.

(** [DriftSummary] and [GenerateDriftSummary]. *)
Record DriftSummary : Type := {
  TotalResources : nat;
  ResourcesWithDrift : nat;
  DriftResults : gmap string DriftResult;
}.

Definition GenerateDriftSummary (results : gmap string DriftResult) : DriftSummary :=
  map_fold (fun _ result summary =>
              if HasDrift result
              then {| TotalResources := TotalResources summary;
                      ResourcesWithDrift := S (ResourcesWithDrift summary);
                      DriftResults := DriftResults summary |}
              else summary)
           {| TotalResources := size results; ResourcesWithDrift := 0;
              DriftResults := results |}
           results.

End drift.

(** ** Package [executor]: the dependency graph (dag.go) *)

Module executor.
Import config.

Inductive NodeStatus : Type :=
| StatusPending | StatusReady | StatusRunning | StatusCompleted | StatusFailed.

Record DAGNode : Type := {
  ID : string;
  Instance : ResourceInstance;
  Dependencies : list string;
  Dependents : list string;
  Status : NodeStatus;
  Error : option error;
}.

Record DAG : Type := {
  nodes : gmap string DAGNode;
}.

(** [node.Dependencies = append(node.Dependencies, depID)] together with
    [depNode.Dependents = append(depNode.Dependents, node.ID)]. *)
Definition addDependency (ns : gmap string DAGNode) (nodeID depID : string)
    : gmap string DAGNode :=
  let ns :=
    alter (fun node =>
             {| ID := ID node; Instance := Instance node;
                Dependencies := Dependencies node ++ [depID];
                Dependents := Dependents node;
                Status := Status node; Error := Error node |}) nodeID ns in
  alter (fun depNode =>
           {| ID := ID depNode; Instance := Instance depNode;
              Dependencies := Dependencies depNode;
              Dependents := Dependents depNode ++ [nodeID];
              Status := Status depNode; Error := Error depNode |}) depID ns.

(** The loop of [NewDAG] over [node.Instance.DependsOn]. *)
Fixpoint explicitDependencies (ns : gmap string DAGNode) (nodeID : string)
    (dependsOn : list string) : result (gmap string DAGNode) :=
  match dependsOn with
  | [] => Ok ns
  | depID :: rest =>
      match ns !! depID with
      | Some _ => explicitDependencies (addDependency ns nodeID depID) nodeID rest
      | None => Err (errDependencyNotFound depID nodeID)
      end
  end.

(** [strings.TrimPrefix]. *)
Definition TrimPrefix (s prefix : string) : string :=
  if gostrings.HasPrefix s prefix
  then gostrings.drop (String.length prefix) s
  else s.

(** [shouldDependOn]. *)
Definition shouldDependOn (dependent dependency : DAGNode) : bool :=
  if gostrings.HasPrefix (iKind (Instance dependency)) "module:"
  then gostrings.Contains (iName (Instance dependent))
         (TrimPrefix (iKind (Instance dependency)) "module:")
  else false.

(** [inferDependencies]: the other nodes are visited in the order
    [others]. *)
Definition inferDependencies (ns : gmap string DAGNode) (node : DAGNode)
    (others : list DAGNode) : gmap string DAGNode :=
  if gostrings.HasPrefix (iKind (Instance node)) "module:" then ns
  else
    foldl (fun ns otherNode =>
             if bool_decide (ID otherNode = ID node) then ns
             else if gostrings.HasPrefix (iKind (Instance otherNode)) "module:"
                     && shouldDependOn node otherNode
             then addDependency ns (ID node) (ID otherNode)
             else ns) ns others.

(** The loop of [NewDAG] that builds the dependency relationships. *)
Fixpoint buildDependencies (ns : gmap string DAGNode) (order : list DAGNode)
    (todo : list DAGNode) : result (gmap string DAGNode) :=
  match todo with
  | [] => Ok ns
  | node :: rest =>
      ns ← explicitDependencies ns (ID node) (iDependsOn (Instance node));
      buildDependencies (inferDependencies ns node order) order rest
  end.

(** [hasCycle]: the depth-first search with its visited set and
    recursion stack.  Every call marks a node not visited before, so a
    fuel above the number of nodes is never exhausted. *)
Fixpoint hasCycle (fuel : nat) (ns : gmap string DAGNode) (nodeID : string)
    (visited recStack : gset string) : option (bool * gset string * gset string) :=
  match fuel with
  | 0 => None
  | S fuel' =>
      let visited := {[nodeID]} ∪ visited in
      let recStack := {[nodeID]} ∪ recStack in
      (fix each (deps : list string) (visited recStack : gset string)
         : option (bool * gset string * gset string) :=
         match deps with
         | [] => Some (false, visited, recStack ∖ {[nodeID]})
         | depID :: rest =>
             if bool_decide (depID ∈ visited) then
               if bool_decide (depID ∈ recStack)
               then Some (true, visited, recStack)
               else each rest visited recStack
             else
               '(found, visited', recStack') ←
                 hasCycle fuel' ns depID visited recStack;
               if found : bool then Some (true, visited', recStack')
               else each rest visited' recStack'
         end)
        (from_option Dependencies [] (ns !! nodeID)) visited recStack
  end.

(** [validateAcyclic]: the nodes are tried in the order [order]. *)
Fixpoint validateAcyclic (ns : gmap string DAGNode) (order : list string)
    (visited recStack : gset string) : result unit :=
  match order with
  | [] => Ok ()
  | nodeID :: rest =>
      if bool_decide (nodeID ∈ visited) then validateAcyclic ns rest visited recStack
      else
        match hasCycle (S (size ns)) ns nodeID visited recStack with
        | Some (true, _, _) => Err (errCircularDependency nodeID)
        | Some (false, visited', recStack') =>
            validateAcyclic ns rest visited' recStack'
        | None => OutOfFuel
        end
  end.

(** [NewDAG].  Where the source ranges over the node map, the model
    ranges over its entries in the order [map_to_list] gives. *)
Definition NewDAG (instances : list ResourceInstance) : result DAG :=
  let ns : gmap string DAGNode :=
    foldl (fun ns instance =>
             <[iID instance :=
                 {| ID := iID instance; Instance := instance;
                    Dependencies := []; Dependents := [];
                    Status := StatusPending; Error := None |}]> ns)
          ∅ instances in
  let order := (map_to_list ns).*2 in
  ns ← buildDependencies ns order order;
  _ ← validateAcyclic ns (ID <$> order) ∅ ∅;
  Ok {| nodes := ns |}.

(** [sort.Strings]: ascending byte-wise lexicographic order. *)
Definition SortStrings (l : list string) : list string :=
  merge_sort String.le l.

(** The inner loop over [node.Dependencies]: every dependency is marked
    in [processed]. *)
Definition canExecute (processed : gset string) (node : DAGNode) : bool :=
  forallb (fun depID => bool_decide (depID ∈ processed)) (Dependencies node).

(** The loop over [d.nodes] that collects [currentLevel] (in the order
    the map happens to be ranged over). *)
Definition collectLevel (d : DAG) (processed : gset string) : list string :=
  List.filter
    (fun nodeID =>
       negb (bool_decide (nodeID ∈ processed)) &&
       match nodes d !! nodeID with
       | Some node => canExecute processed node
       | None => false
       end)
    (map_to_list (nodes d)).*1.

(** The outer [for len(processed) < len(d.nodes)] loop.  Each round
    either stops or marks at least one more node, so [fuel] above the
    number of nodes is never exhausted (see [levelLoop_total]). *)
Fixpoint levelLoop (fuel : nat) (d : DAG) (processed : gset string)
    : option (list (list string)) :=
  if bool_decide (size processed < size (nodes d)) then
    match collectLevel d processed with
    | [] => Some []
    | currentLevel =>
        match fuel with
        | 0 => None
        | S fuel' =>
            let sorted := SortStrings currentLevel in
            levels ← levelLoop fuel' d (list_to_set sorted ∪ processed);
            Some (sorted :: levels)
        end
    end
  else Some [].

Definition GetExecutionOrder (d : DAG) : list (list string) :=
  default [] (levelLoop (size (nodes d)) d ∅).

(** [GetNode]. *)
Definition GetNode (d : DAG) (nodeID : string) : option DAGNode :=
  nodes d !! nodeID.

(** [SetNodeStatus]: no effect on an unknown node. *)
Definition SetNodeStatus (d : DAG) (nodeID : string) (status : NodeStatus)
    (err : option error) : DAG :=
  {| nodes :=
       alter (fun node =>
                {| ID := ID node; Instance := Instance node;
                   Dependencies := Dependencies node;
                   Dependents := Dependents node;
                   Status := status; Error := err |})
             nodeID (nodes d) |}.

#[global] Instance NodeStatus_eq_dec : EqDecision NodeStatus.
Proof. solve_decision. Defined.

(** The inner loop of [GetReadyNodes] over [node.Dependencies]:
    [d.nodes[depID]] of an unknown dependency is a nil pointer, and
    reading its [Status] panics. *)
Fixpoint dependenciesCompleted (d : DAG) (deps : list string) : result bool :=
  match deps with
  | [] => Ok true
  | depID :: rest =>
      match nodes d !! depID with
      | None => Panic
      | Some depNode =>
          if bool_decide (Status depNode = StatusCompleted)
          then dependenciesCompleted d rest
          else Ok false
      end
  end.

Fixpoint readyLoop (d : DAG) (entries : list DAGNode) : result (list DAGNode) :=
  match entries with
  | [] => Ok []
  | node :: rest =>
      if bool_decide (Status node = StatusPending) then
        canExecute ← dependenciesCompleted d (Dependencies node);
        ready ← readyLoop d rest;
        Ok (if canExecute : bool then node :: ready else ready)
      else readyLoop d rest
  end.

(** [GetReadyNodes], in the order the node map is ranged over. *)
Definition GetReadyNodes (d : DAG) : result (list DAGNode) :=
  readyLoop d (map_to_list (nodes d)).*2.

(** [IsComplete]. *)
Definition IsComplete (d : DAG) : bool :=
  forallb (fun node =>
             negb (negb (bool_decide (Status node = StatusCompleted))
                   && negb (bool_decide (Status node = StatusFailed))))
          (map_to_list (nodes d)).*2.

(** [HasFailures]. *)
Definition HasFailures (d : DAG) : bool :=
  existsb (fun node => bool_decide (Status node = StatusFailed))
          (map_to_list (nodes d)).*2.

(** [GetFailedNodes], in the order the node map is ranged over. *)
Definition GetFailedNodes (d : DAG) : list DAGNode :=
  List.filter (fun node => bool_decide (Status node = StatusFailed))
              (map_to_list (nodes d)).*2.

End executor.

(** ** Package [fmt] and [strconv] (the functions the sources use) *)

Module gofmt.

Definition keyLe (a b : string * string) : Prop := String.le a.1 b.1.

#[global] Instance keyLe_dec : RelDecision keyLe.
Proof. intros a b; unfold keyLe; apply _. Defined.

Fixpoint joinSpace (parts : list string) : string :=
  match parts with
  | [] => ""
  | [part] => part
  | part :: rest => part +:+ " " +:+ joinSpace rest
  end.

(** [fmt.Sprintf("%v", v)]: maps print their keys in sorted order. *)
Fixpoint Sprint (v : Value) : string :=
  match v with
  | VNil => "<nil>"
  | VBool true => "true"
  | VBool false => "false"
  | VInt n => pretty n
  | VSized _ n => pretty n
  | VStr s => s
  | VNilList => "[]"
  | VList l => "[" +:+ joinSpace (map Sprint l) +:+ "]"
  | VNilMap => "map[]"
  | VMap m =>
      "map[" +:+
      joinSpace ((fun kv => kv.1 +:+ ":" +:+ kv.2) <$>
                 merge_sort keyLe (map_to_list (Sprint <$> m))) +:+
      "]"
  end.

Definition digitOf (c : ascii) : option Z :=
  let n := Z.of_N (N_of_ascii c) in
  if bool_decide (48 ≤ n ≤ 57)%Z then Some (n - 48)%Z else None.

Fixpoint digits (acc : Z) (s : string) : option Z :=
  match s with
  | EmptyString => Some acc
  | String c s' => d ← digitOf c; digits (10 * acc + d)%Z s'
  end.

(** [strconv.Atoi] on a 64-bit platform: an optional sign, at least one
    decimal digit, and a value that fits [int]. *)
Definition Atoi (s : string) : result Z :=
  let parsed :=
    match s with
    | String "-" (String _ _ as s') => Z.opp <$> digits 0 s'
    | String "+" (String _ _ as s') => digits 0 s'
    | String _ _ => digits 0 s
    | EmptyString => None
    end in
  match parsed with
  | Some n =>
      if bool_decide (- 2 ^ 63 ≤ n < 2 ^ 63)%Z then Ok n else Err (errAtoi s)
  | None => Err (errAtoi s)
  end.

End gofmt.

(** ** Package [config]: expressions and expansion (parser.go) *)

Module parser.
Import gostrings gofmt config.

Record Parser : Type := {
  variables : gmap string Value;
}.

(** [isSimpleVariable]. *)
Definition isSimpleVariable (expr : string) : bool :=
  negb (ContainsAny expr " +-*/()[]{}=<>!&|?:").

(** What the traversal of [processValueReflectWithVisited] sees of a
    [reflect.Value]: its kind, whether it can be set, the address
    [Pointer()] reports for pointers, maps, slices and addressable
    structs, and its parts.  A value held in an [interface{}] is a
    dynamic [Value]. *)
Inductive rvalue : Type :=
| RPtr (target : option (N * rvalue))
| RInterface (dynamic : Value)
| RString (canSet : bool) (str : string)
| RMap (m : option (N * gmap string Value))
| RSlice (s : option (N * list rvalue))
| RStruct (addr : option N) (fields : list (bool * rvalue))
| RBool (b : bool).
(* [RPtr None], [RMap None], [RSlice None]: nil.  [RInterface VNil]: the
   nil interface.  [RStruct addr fields]: [addr] is the address of an
   addressable struct; each field comes with whether it is exported, and
   can be set when it is exported and the struct is addressable. *)

(** Where the parts of a [Resource] copy live. *)
Record Layout : Type := {
  addrResource : N;
  addrProperties : N;
  addrDriftPolicy : N;
  addrDependsOn : N;
}.

Section expressions.
(** The expression engine (package [expr], not part of the
    repository): [expr.Compile] followed by [expr.Run] on the
    variables; [None] when either fails. *)
Context (exprRun : string -> gmap string Value -> option Value).
Context (layout : Layout).

(** [evaluateExpr]: every path returns a nil error. *)
Definition evaluateExpr (p : Parser) (exprStr : string) : result Value :=
  match variables p !! exprStr with
  | Some val => Ok val
  | None =>
      if isSimpleVariable exprStr then Ok (VStr ("${" +:+ exprStr +:+ "}"))
      else match exprRun exprStr (variables p) with
           | None => Ok (VStr ("${" +:+ exprStr +:+ "}"))
           | Some res => Ok res
           end
  end.

(** The [for] loop of [evaluateExpression] over mixed content. *)
Fixpoint substituteLoop (fuel : nat) (p : Parser) (input res : string)
    : result Value :=
  match Index res "${" with
  | None => Ok (VStr res)
  | Some start =>
      match Index (drop start res) "}" with
      | None => Err (errUnclosedExpression input)
      | Some offset =>
          match fuel with
          | 0 => OutOfFuel
          | S fuel' =>
              let end_ := offset + start in
              let exprStr := slice (start + 2) end_ res in
              match evaluateExpr p exprStr with
              | Ok value =>
                  substituteLoop fuel' p input
                    (take start res +:+ Sprint value +:+ drop (end_ + 1) res)
              | Err e => Err (errEvaluatingExpression exprStr e)
              | Panic => Panic
              | OutOfFuel => OutOfFuel
              end
          end
      end
  end.

(** [evaluateExpression]. *)
Definition evaluateExpression (fuel : nat) (p : Parser) (input : string)
    : result Value :=
  if negb (Contains input "${") then Ok (VStr input)
  else if HasPrefix input "${" && HasSuffix input "}"
          && bool_decide (CountOpen input = 1)
  then evaluateExpr p (slice 2 (String.length input - 1) input)
  else substituteLoop fuel p input input.

(** One entry of the [reflect.Map] case: a string entry is evaluated
    and replaced when the result differs ([SetMapIndex] with the zero
    [reflect.Value] of a nil result deletes the key); any other entry
    is traversed and stored back. *)
Definition setEntry (key str : string) (processed : Value)
    (m : gmap string Value) : gmap string Value :=
  match processed with
  | VStr s => if bool_decide (s = str) then m else <[key := processed]> m
  | VNil => delete key m
  | _ => <[key := processed]> m
  end.

(** The traversal of a value reached through an interface: the element
    of an interface cannot be set, so a string is left alone; map
    entries and slice elements are visited.  Dynamic values are trees,
    so the visited-pointer test cannot fire on them. *)
Fixpoint processDynamic (fuel : nat) (p : Parser) (v : Value) : result Value :=
  match v with
  | VMap m =>
      VMap <$>
      map_fold (fun key x acc =>
                  m' ← acc;
                  match x with
                  | VStr str =>
                      processed ← evaluateExpression fuel p str;
                      Ok (setEntry key str processed m')
                  | _ =>
                      x' ← processDynamic fuel p x;
                      Ok (<[key := x']> m')
                  end) (Ok m) m
  | VList l =>
      VList <$>
      (fix elems (l : list Value) : result (list Value) :=
         match l with
         | [] => Ok []
         | x :: l' =>
             x' ← processDynamic fuel p x;
             l'' ← elems l';
             Ok (x' :: l'')
         end) l
  | _ => Ok v
  end.

(** The [reflect.Map] case on a [map[string]interface{}]. *)
Definition processMap (fuel : nat) (p : Parser) (m : gmap string Value)
    : result (gmap string Value) :=
  r ← processDynamic fuel p (VMap m);
  match r with
  | VMap m' => Ok m'
  | _ => Ok m
  end.

(** [processValueReflectWithVisited]; the result carries the value as
    the in-place updates leave it, and the visited addresses. *)
Fixpoint processValueReflectWithVisited (fuel : nat) (p : Parser)
    (val : rvalue) (visited : gset N) : result (rvalue * gset N) :=
  match val with
  | RPtr None => Ok (val, visited)
  | RPtr (Some (ptr, elem)) =>
      if bool_decide (ptr ∈ visited) then Ok (val, visited)
      else
        '(elem', visited') ←
          processValueReflectWithVisited fuel p elem ({[ptr]} ∪ visited);
        Ok (RPtr (Some (ptr, elem')), visited')
  | RInterface dynamic =>
      dynamic' ← processDynamic fuel p dynamic;
      Ok (RInterface dynamic', visited)
  | RString canSet str =>
      if canSet then
        processed ← evaluateExpression fuel p str;
        match processed with
        | VStr processedStr => Ok (RString canSet processedStr, visited)
        | _ => Panic
        end
      else Ok (val, visited)
  | RMap None => Ok (val, visited)
  | RMap (Some (ptr, m)) =>
      if bool_decide (ptr ∈ visited) then Ok (val, visited)
      else
        m' ← processMap fuel p m;
        Ok (RMap (Some (ptr, m')), {[ptr]} ∪ visited)
  | RSlice None => Ok (val, visited)
  | RSlice (Some (ptr, elems)) =>
      if bool_decide (ptr ∈ visited) then Ok (val, visited)
      else
        '(elems', visited') ←
          (fix each (elems : list rvalue) (visited : gset N)
             : result (list rvalue * gset N) :=
             match elems with
             | [] => Ok ([], visited)
             | elem :: rest =>
                 '(elem', visited') ←
                   processValueReflectWithVisited fuel p elem visited;
                 '(rest', visited'') ← each rest visited';
                 Ok (elem' :: rest', visited'')
             end) elems ({[ptr]} ∪ visited);
        Ok (RSlice (Some (ptr, elems')), visited')
  | RStruct addr fields =>
      if match addr with
         | Some ptr => bool_decide (ptr ∈ visited)
         | None => false
         end
      then Ok (val, visited)
      else
        '(fields', visited') ←
          (fix each (fields : list (bool * rvalue)) (visited : gset N)
             : result (list (bool * rvalue) * gset N) :=
             match fields with
             | [] => Ok ([], visited)
             | (exported, field) :: rest =>
                 '(field', visited') ←
                   (if exported && bool_decide (is_Some addr)
                    then processValueReflectWithVisited fuel p field visited
                    else Ok (field, visited));
                 '(rest', visited'') ← each rest visited';
                 Ok ((exported, field') :: rest', visited'')
             end) fields (match addr with
                           | Some ptr => {[ptr]} ∪ visited
                           | None => visited
                           end);
        Ok (RStruct addr fields', visited')
  | RBool _ => Ok (val, visited)
  end.

(** [processValue]: a fresh visited set. *)
Definition processValue (fuel : nat) (p : Parser) (v : rvalue) : result rvalue :=
  fst <$> processValueReflectWithVisited fuel p v ∅.

(** The view of [&resourceCopy]: a pointer to an addressable struct.
    The pointer and the struct it points to report the same address. *)
Definition reflectDriftPolicy (dp : option DriftPolicy) : rvalue :=
  RPtr ((fun policy =>
           (addrDriftPolicy layout,
            RStruct (Some (addrDriftPolicy layout))
              [(true, RBool (AutoHeal policy));
               (true, RBool (NotifyOnly policy))])) <$> dp).

Definition reflectResource (r : Resource) : rvalue :=
  RPtr (Some (addrResource layout,
    RStruct (Some (addrResource layout))
      [(true, RString true (Kind r));
       (true, RString true (Name r));
       (true, RInterface (default VNil (Count r)));
       (true, RInterface (default VNil (ForEach r)));
       (true, RMap (Some (addrProperties layout, Properties r)));
       (true, reflectDriftPolicy (DriftPolicy_ r));
       (true, RSlice (Some (addrDependsOn layout,
                            RString true <$> DependsOn r)))])).

Definition stringsOf (elems : list rvalue) : list string :=
  omap (fun e => match e with RString _ s => Some s | _ => None end) elems.

(** The resource copy as the traversal left it. *)
Definition readResource (view : rvalue) (r : Resource) : Resource :=
  match view with
  | RPtr (Some (_, RStruct _
      [(_, RString _ kind); (_, RString _ name); _; _;
       (_, RMap (Some (_, properties))); _;
       (_, RSlice (Some (_, dependsOn)))])) =>
      {| Kind := kind; Name := name; Count := Count r; ForEach := ForEach r;
         Properties := properties; DriftPolicy_ := DriftPolicy_ r;
         DependsOn := stringsOf dependsOn |}
  | _ => r
  end.

Definition withName (r : Resource) (name : string) : Resource :=
  {| Kind := Kind r; Name := name; Count := Count r; ForEach := ForEach r;
     Properties := Properties r; DriftPolicy_ := DriftPolicy_ r;
     DependsOn := DependsOn r |}.

(** [createInstance].  [vars] overrides the parser's variables. *)
Definition createInstance (fuel : nat) (p : Parser) (resource : Resource)
    (vars : gmap string Value) : result ResourceInstance :=
  let instanceVars := vars ∪ variables p in
  let tempParser := {| variables := instanceVars |} in
  name ←
    (if Contains (Name resource) "${" then
       match evaluateExpression fuel tempParser (Name resource) with
       | Ok (VStr processedStr) => Ok processedStr
       | Ok _ => Ok (Name resource)
       | Err e => Err (errProcessingResourceName e)
       | Panic => Panic
       | OutOfFuel => OutOfFuel
       end
     else Ok (Name resource));
  let resourceCopy := withName resource name in
  view ← processValue fuel tempParser (reflectResource resourceCopy);
  let resourceCopy := readResource view resourceCopy in
  Ok {| iID := Kind resourceCopy +:+ "." +:+ Name resourceCopy;
        iKind := Kind resourceCopy;
        iName := Name resourceCopy;
        iProperties := Properties resourceCopy;
        iDriftPolicy := DriftPolicy_ resourceCopy;
        iDependsOn := DependsOn resourceCopy |}.

(** [resolveCount]. *)
Definition resolveCount (p : Parser) (count : Value) : result Z :=
  match count with
  | VInt v => Ok v
  | VStr v =>
      res ← evaluateExpr p v;
      match res with
      | VInt intVal => Ok intVal
      | VStr strVal => Atoi strVal
      | _ => Err errCountExpressionNotInteger
      end
  | _ => Err errCountNotIntegerOrExpression
  end.

(** [resolveForEach]. *)
Definition resolveForEach (p : Parser) (forEach : Value) : result (list Value) :=
  match forEach with
  | VNilList => Ok []
  | VList v => Ok v
  | VStr v =>
      if HasPrefix v "${" && HasSuffix v "}" then
        res ← evaluateExpr p (slice 2 (String.length v - 1) v);
        match res with
        | VNilList => Ok []
        | VList slice => Ok slice
        | _ => Err errForEachExpressionNotArray
        end
      else Ok [VStr v]
  | _ => Err errForEachNotArrayOrExpression
  end.

(** The [switch v := item.(type)] of the for_each loop. *)
Definition forEachVars (item : Value) : gmap string Value :=
  match item with
  | VStr v => {["region" := VStr v]}
  | v => {["item" := v]}
  end.

(** A [for] loop that appends one instance per element and returns at
    the first error. *)
Fixpoint instancesFor {A} (create : A -> result ResourceInstance)
    (xs : list A) : result (list ResourceInstance) :=
  match xs with
  | [] => Ok []
  | x :: xs' =>
      instance ← create x;
      instances ← instancesFor create xs';
      Ok (instance :: instances)
  end.

(** [expandResource].  [for i := 0; i < count; i++] runs
    [Z.to_nat count] times, that is not at all for [count <= 0]. *)
Definition expandResource (fuel : nat) (p : Parser) (resource : Resource)
    : result (list ResourceInstance) :=
  match Count resource with
  | Some count =>
      count ← wrapErr errResolvingCount (resolveCount p count);
      instancesFor
        (fun i => createInstance fuel p resource {["index" := VInt (Z.of_nat i)]})
        (seq 0 (Z.to_nat count))
  | None =>
      match ForEach resource with
      | Some forEach =>
          items ← wrapErr errResolvingForEach (resolveForEach p forEach);
          instancesFor
            (fun item => createInstance fuel p resource (forEachVars item))
            items
      | None =>
          instance ← createInstance fuel p resource ∅;
          Ok [instance]
      end
  end.

(** [ExpandResources]. *)
Fixpoint ExpandResources (fuel : nat) (p : Parser) (resources : list Resource)
    : result (list ResourceInstance) :=
  match resources with
  | [] => Ok []
  | resource :: rest =>
      expanded ←
        wrapErr (errExpandingResource (Name resource))
                (expandResource fuel p resource);
      instances ← ExpandResources fuel p rest;
      Ok (expanded ++ instances)%list
  end.


End expressions.

End parser.

(** ** Package [policy]: the policy engine (engine.go) *)

Module policy.
Import gostrings config.

Record PolicyRule : Type := {
  rName : string;
  rDescription : string;
  rSeverity : string;
  rCondition : string;
  rMessage : string;
  rMetadata : gmap string Value;
}.

Record PolicyViolation : Type := {
  vRule : PolicyRule;
  vResourceID : string;
  vResourceKind : string;
  vMessage : string;
  vSeverity : string;
  vMetadata : gmap string Value;
}.

Record PolicyEngine : Type := {
  rules : list PolicyRule;
}.

Definition NewPolicyEngine : PolicyEngine := {| rules := [] |}.

Definition withSeverity (rule : PolicyRule) (severity : string) : PolicyRule :=
  {| rName := rName rule; rDescription := rDescription rule;
     rSeverity := severity; rCondition := rCondition rule;
     rMessage := rMessage rule; rMetadata := rMetadata rule |}.

(** [AddRule]. *)
Definition AddRule (e : PolicyEngine) (rule : PolicyRule) : result PolicyEngine :=
  if bool_decide (rName rule = "") then Err errPolicyRuleNameEmpty
  else if bool_decide (rCondition rule = "") then Err errPolicyRuleConditionEmpty
  else
    let rule :=
      if bool_decide (rSeverity rule = "") then withSeverity rule "warning"
      else rule in
    if existsb (fun severity => bool_decide (rSeverity rule = severity))
               ["error"; "warning"; "info"]
    then Ok {| rules := rules e ++ [rule] |}
    else Err (errInvalidSeverity (rSeverity rule)).

(** [strings.ReplaceAll(s, old, new)] for a non-empty [old]: [skip]
    counts the bytes of a match still to be passed over. *)
Fixpoint replaceFrom (skip : nat) (old new s : string) : string :=
  match s with
  | EmptyString => EmptyString
  | String c s' =>
      match skip with
      | S skip' => replaceFrom skip' old new s'
      | 0 =>
          if HasPrefix s old
          then new +:+ replaceFrom (String.length old - 1) old new s'
          else String c (replaceFrom 0 old new s')
      end
  end.

Definition ReplaceAll (s old new : string) : string := replaceFrom 0 old new s.

(** [evaluateRule]: the first matching [case] decides; every path
    returns a nil error. *)
Definition evaluateRule (rule : PolicyRule) (instance : ResourceInstance)
    : result bool :=
  let condition := rCondition rule in
  let condition := ReplaceAll condition "${resource.kind}" (iKind instance) in
  let condition := ReplaceAll condition "${resource.name}" (iName instance) in
  if Contains condition
       "resource.kind == 'aws:s3:bucket' && !properties.versioning"
  then
    if bool_decide (iKind instance = "aws:s3:bucket") then
      match iProperties instance !! "versioning" with
      | Some (VBool true) => Ok false
      | _ => Ok true
      end
    else Ok false
  else if Contains condition
       "resource.kind == 'aws:ec2:instance' && properties.instance_type == 't3.large'"
  then
    if bool_decide (iKind instance = "aws:ec2:instance") then
      match iProperties instance !! "instance_type" with
      | Some (VStr instanceType) => Ok (bool_decide (instanceType = "t3.large"))
      | _ => Ok false
      end
    else Ok false
  else if Contains condition "!tags.Environment"
  then
    match iProperties instance !! "tags" with
    | Some (VMap tags) =>
        match tags !! "Environment" with
        | Some _ => Ok false
        | None => Ok true
        end
    | _ => Ok true
    end
  else Ok false.

(** [EvaluateResource]. *)
Fixpoint evaluateRules (rs : list PolicyRule) (instance : ResourceInstance)
    : result (list PolicyViolation) :=
  match rs with
  | [] => Ok []
  | rule :: rest =>
      violated ← wrapErr (errEvaluatingRule (rName rule)) (evaluateRule rule instance);
      violations ← evaluateRules rest instance;
      Ok (if violated : bool
          then {| vRule := rule; vResourceID := iID instance;
                  vResourceKind := iKind instance; vMessage := rMessage rule;
                  vSeverity := rSeverity rule; vMetadata := rMetadata rule |}
               :: violations
          else violations)
  end.

Definition EvaluateResource (e : PolicyEngine) (instance : ResourceInstance)
    : result (list PolicyViolation) :=
  evaluateRules (rules e) instance.

(** [HasErrors]. *)
Fixpoint HasErrors (violations : list PolicyViolation) : bool :=
  match violations with
  | [] => false
  | violation :: rest =>
      if bool_decide (vSeverity violation = "error") then true else HasErrors rest
  end.

Definition builtinRules : list PolicyRule :=
  [ {| rName := "s3-versioning-enabled";
       rDescription := "S3 buckets should have versioning enabled";
       rSeverity := "warning";
       rCondition := "resource.kind == 'aws:s3:bucket' && !properties.versioning";
       rMessage := "S3 bucket should have versioning enabled for data protection";
       rMetadata := {["category" := VStr "security"; "cis" := VStr "2.1.1"]} |};
    {| rName := "no-large-instances-in-dev";
       rDescription := "Large instances should not be used in development environments";
       rSeverity := "error";
       rCondition := "resource.kind == 'aws:ec2:instance' && properties.instance_type == 't3.large'";
       rMessage := "Large instances are not allowed in development environments";
       rMetadata := {["category" := VStr "cost-optimization"]} |};
    {| rName := "resources-must-have-environment-tag";
       rDescription := "All resources must have an Environment tag";
       rSeverity := "warning";
       rCondition := "!tags.Environment";
       rMessage := "Resource must have an Environment tag for proper resource management";
       rMetadata := {["category" := VStr "governance"]} |} ].

(** [LoadBuiltinPolicies]. *)
Fixpoint addRules (e : PolicyEngine) (rs : list PolicyRule) : result PolicyEngine :=
  match rs with
  | [] => Ok e
  | rule :: rest =>
      e' ← wrapErr (errAddBuiltinRule (rName rule)) (AddRule e rule);
      addRules e' rest
  end.

Definition LoadBuiltinPolicies (e : PolicyEngine) : result PolicyEngine :=
  addRules e builtinRules.

(** The loop shared by [GetViolationsByResource] and
    [GetViolationsBySeverity]: [result[key] = append(result[key], violation)]. *)
Definition groupBy (key : PolicyViolation -> string)
    (violations : list PolicyViolation) : gmap string (list PolicyViolation) :=
  foldl (fun (result : gmap string (list PolicyViolation)) violation =>
           <[key violation :=
               (default [] (result !! key violation) ++ [violation])%list]> result)
        ∅ violations.

Definition GetViolationsByResource (violations : list PolicyViolation)
    : gmap string (list PolicyViolation) :=
  groupBy vResourceID violations.

Definition GetViolationsBySeverity (violations : list PolicyViolation)
    : gmap string (list PolicyViolation) :=
  groupBy vSeverity violations.

End policy.

(** ** Package [modules] (module.go) *)

Module modules.
Import gostrings.

Record Module : Type := {
  mName : string;
  mSource : string;
  mVersion : string;
  mInputs : gmap string Value;
}.

Definition Validate (m : Module) : option error :=
  if bool_decide (mName m = "") then Some errModuleNameRequired
  else if bool_decide (mSource m = "") then Some errModuleSourceRequired
  else None.

(** [Load]; [loadLocalModule] asks the file system, which is the
    parameter [statLocal]. *)
Definition Load (statLocal : string -> option error) (m : Module) : option error :=
  if HasPrefix (mSource m) "./" || HasPrefix (mSource m) "/"
  then statLocal (mSource m)
  else Some (errUnsupportedModuleSource (mSource m)).

(** [RegisterModule]: the error, and the registry it leaves. *)
Definition RegisterModule (registry : gmap string Module) (m : Module)
    : option error * gmap string Module :=
  if bool_decide (mName m = "") then (Some errModuleNameEmpty, registry)
  else (None, <[mName m := m]> registry).

End modules.

(** ** Package [output]: the result of a bootstrap (types.go) *)

Module output.

Record BootstrapResult : Type := {
  Success : bool;
  ProvidersInstalled : list string;
  ResourceCount : nat;
  ModulesLoaded : nat;
  PolicyViolations : list policy.PolicyViolation;
  Error : option error;
}.

End output.

(** ** Package [cmd]: the controllers (commit.go, align.go, bootstrap.go) *)

Module cmd.
Import gostrings config providers cloud executor.

Definition extractProviderName : string -> string := drift.extractProviderName.

(** What one goroutine of a level sends on the result channel. *)
Record nodeResult : Type := {
  nodeID : string;
  change : option Change;
  err : option error;
}.

Record AlignCounts : Type := {
  driftCount : nat;
  healedCount : nat;
  errorCount : nat;
}.

Section commands.
Context {World : Type}.
(** Collaborators outside the pipeline: the expression engine, the
    addresses of a resource copy, the decoder with its document-level
    pass ([Parser.ParseFile]), the AWS adapter ([aws.NewProvider]),
    the file system probed by [Module.Load], and the formatter. *)
Context (exprRun : string -> gmap string Value -> option Value).
Context (layout : parser.Layout).
Context (ParseFile : string -> result (Config * parser.Parser)).
Context (awsProvider : providers.Provider World).
Context (statLocal : string -> option error).
Context (FormatBootstrapResult : output.BootstrapResult -> option error).
(** The order in which the goroutines of one level take effect: any
    permutation of the level. *)
Context (schedule : list string -> list string).
Context (fuel : nat).

Abbreviation Registry := (gmap string (providers.Provider World)).

(** The "Initialize providers" loop shared by the commands; the list
    is the names registered so far. *)
Fixpoint initializeProviders (ps : list (string * config.Provider))
    (registry : Registry) (installed : list string) (c : Cloud World)
    : result Registry * list string * Cloud World :=
  match ps with
  | [] => (Ok registry, installed, c)
  | (providerName, providerConfig) :: rest =>
      if bool_decide (providerName = "aws") then
        let providerConfigMap : gmap string Value :=
          <["profile" := VStr (Profile providerConfig)]>
            {["region" := VStr (Region providerConfig)]} in
        match doInitialize providerName awsProvider providerConfigMap c with
        | (Some e, c') =>
            (Err (errInitializeProvider providerName e), installed, c')
        | (None, c') =>
            initializeProviders rest (<[providerName := awsProvider]> registry)
              (installed ++ [providerName]) c'
        end
      else (Err (errUnsupportedProvider providerName), installed, c)
  end.

(** *** commit *)

(** The body of the goroutine started for [nodeID]. *)
Definition executeNode (registry : Registry)
    (driftResults : gmap string DriftResult) (nodeID : string)
    (dag : DAG) (c : Cloud World) : nodeResult * DAG * Cloud World :=
  match GetNode dag nodeID with
  | None =>
      ({| nodeID := nodeID; change := None;
          err := Some (errNodeNotFound nodeID) |}, dag, c)
  | Some node =>
      match driftResults !! nodeID with
      | None => ({| nodeID := nodeID; change := None; err := None |}, dag, c)
      | Some driftResult =>
          let dag := SetNodeStatus dag nodeID StatusRunning None in
          let providerName := extractProviderName (iKind (Instance node)) in
          match registry !! providerName with
          | None =>
              let e := errProviderNotFound providerName in
              ({| nodeID := nodeID; change := None; err := Some e |},
               SetNodeStatus dag nodeID StatusFailed (Some e), c)
          | Some provider =>
              let made (t : ChangeType) :=
                {| Type_ := t; ResourceID := nodeID;
                   ResourceKind := iKind (Instance node);
                   ResourceName := iName (Instance node) |} in
              let '(e, ch, c') :=
                match CurrentState driftResult with
                | None =>
                    let '(e, c') := doCreate provider (Instance node) c in
                    (e, if e is None then Some (made ChangeTypeCreate) else None, c')
                | Some currentState =>
                    if HasDrift driftResult then
                      let '(e, c') :=
                        doUpdate provider (Instance node) currentState c in
                      (e, if e is None then Some (made ChangeTypeUpdate) else None, c')
                    else (None, None, c)
                end in
              let dag :=
                match e with
                | Some e' => SetNodeStatus dag nodeID StatusFailed (Some e')
                | None => SetNodeStatus dag nodeID StatusCompleted None
                end in
              ({| nodeID := nodeID; change := ch; err := e |}, dag, c')
          end
      end
  end.

(** The receiving loop: one result of the level. *)
Definition collect (result : ExecutionResult) (res : nodeResult) : ExecutionResult :=
  let result :=
    match err res with
    | Some e => {| Success := false; Changes := Changes result;
                   Errors := Errors result ++ [e] |}
    | None => result
    end in
  match change res with
  | Some ch => {| Success := Success result; Changes := Changes result ++ [ch];
                  Errors := Errors result |}
  | None => result
  end.

(** One level: its goroutines in the order they take effect. *)
Fixpoint runLevel (registry : Registry) (driftResults : gmap string DriftResult)
    (order : list string) (result : ExecutionResult) (dag : DAG)
    (c : Cloud World) : ExecutionResult * DAG * Cloud World :=
  match order with
  | [] => (result, dag, c)
  | nodeID :: rest =>
      let '(res, dag', c') := executeNode registry driftResults nodeID dag c in
      runLevel registry driftResults rest (collect result res) dag' c'
  end.

Fixpoint runLevels (registry : Registry) (driftResults : gmap string DriftResult)
    (executionOrder : list (list string)) (result : ExecutionResult)
    (dag : DAG) (c : Cloud World) : ExecutionResult * DAG * Cloud World :=
  match executionOrder with
  | [] => (result, dag, c)
  | level :: rest =>
      let '(result', dag', c') :=
        runLevel registry driftResults (schedule level) result dag c in
      runLevels registry driftResults rest result' dag' c'
  end.

(** [executeChanges]; its error result is always nil. *)
Definition executeChanges (dag : DAG) (registry : Registry)
    (driftResults : gmap string DriftResult) (c : Cloud World)
    : ExecutionResult * DAG * Cloud World :=
  runLevels registry driftResults (GetExecutionOrder dag)
    {| Success := true; Changes := []; Errors := [] |} dag c.

(** [runCommit]: [Ok None] is the cancelled run, [Ok (Some result)] a
    run that executed; the command returns a nil error in both cases,
    whether or not [result] is a success.  [response] is what the user
    types at the prompt. *)
Definition runCommit (configFile : string) (autoApprove : bool)
    (response : string) (c : Cloud World)
    : result (option ExecutionResult) * Cloud World :=
  bindC (wrapErr errParseConfiguration (ParseFile configFile), c)
    (fun '(cfg, p) c =>
  let '(registry, _, c) := initializeProviders (Providers cfg) ∅ [] c in
  bindC (registry, c)
    (fun registry c =>
  bindC (wrapErr errExpandResources
           (parser.ExpandResources exprRun layout fuel p (Resources cfg)), c)
    (fun instances c =>
  let detector := {| drift.providers_ := registry |} in
  bindC (wrapC errDetectDriftFailed (drift.DetectDriftBatch detector instances c))
    (fun driftResults c =>
  if negb autoApprove
     && negb (bool_decide (response = "yes") || bool_decide (response = "y"))
  then (Ok None, c)
  else
    bindC (wrapErr errCreateDAG (NewDAG instances), c)
      (fun dag c =>
         let '(result, _, c) := executeChanges dag registry driftResults c in
         (Ok (Some result), c)))))).

(** *** align *)

(** One iteration of the loop over the instances in [runAlignmentOnce]. *)
Definition alignInstance (detector : drift.Detector World)
    (driftResults : gmap string DriftResult) (instance : ResourceInstance)
    (counts : AlignCounts) (c : Cloud World) : AlignCounts * Cloud World :=
  match driftResults !! iID instance with
  | None => (counts, c)
  | Some driftResult =>
      if negb (HasDrift driftResult) then (counts, c)
      else
        let counts := {| driftCount := S (driftCount counts);
                         healedCount := healedCount counts;
                         errorCount := errorCount counts |} in
        match iDriftPolicy instance with
        | None => (counts, c)
        | Some policy =>
            if NotifyOnly policy then (counts, c)
            else if AutoHeal policy then
              match drift.AutoHeal detector instance driftResult c with
              | (Some _, c') =>
                  ({| driftCount := driftCount counts;
                      healedCount := healedCount counts;
                      errorCount := S (errorCount counts) |}, c')
              | (None, c') =>
                  ({| driftCount := driftCount counts;
                      healedCount := S (healedCount counts);
                      errorCount := errorCount counts |}, c')
              end
            else (counts, c)
        end
  end.

Fixpoint alignLoop (detector : drift.Detector World)
    (driftResults : gmap string DriftResult) (instances : list ResourceInstance)
    (counts : AlignCounts) (c : Cloud World) : AlignCounts * Cloud World :=
  match instances with
  | [] => (counts, c)
  | instance :: rest =>
      let '(counts', c') := alignInstance detector driftResults instance counts c in
      alignLoop detector driftResults rest counts' c'
  end.

Definition noCounts : AlignCounts :=
  {| driftCount := 0; healedCount := 0; errorCount := 0 |}.

(** [runAlignmentOnce]: [Ok] is a nil error. *)
Definition runAlignmentOnce (configFile : string) (c : Cloud World)
    : result AlignCounts * Cloud World :=
  bindC (wrapErr errParseConfiguration (ParseFile configFile), c)
    (fun '(cfg, p) c =>
  let '(registry, _, c) := initializeProviders (Providers cfg) ∅ [] c in
  bindC (registry, c)
    (fun registry c =>
  bindC (wrapErr errExpandResources
           (parser.ExpandResources exprRun layout fuel p (Resources cfg)), c)
    (fun instances c =>
  let detector := {| drift.providers_ := registry |} in
  bindC (wrapC errDetectDriftFailed (drift.DetectDriftBatch detector instances c))
    (fun driftResults c =>
  let '(counts, c) := alignLoop detector driftResults instances noCounts c in
  (Ok counts, c))))).

(** *** dismantle *)

(** The body of the loop over one deletion level, for [nodeID]. *)
Definition deleteNode (registry : Registry) (force : bool) (nodeID : string)
    (result : ExecutionResult) (dag : DAG) (c : Cloud World)
    : ExecutionResult * DAG * Cloud World :=
  match GetNode dag nodeID with
  | None => (result, dag, c)
  | Some node =>
      let dag := SetNodeStatus dag nodeID StatusRunning None in
      let providerName := extractProviderName (iKind (Instance node)) in
      match registry !! providerName with
      | None =>
          let e := errProviderNotFound providerName in
          ({| Success := false; Changes := Changes result;
              Errors := Errors result ++ [e] |},
           SetNodeStatus dag nodeID StatusFailed (Some e), c)
      | Some provider =>
          match doDelete provider (Instance node) c with
          | (Some e, c') =>
              ({| Success := if negb force then false else Success result;
                  Changes := Changes result;
                  Errors := Errors result ++ [e] |},
               SetNodeStatus dag nodeID StatusFailed (Some e), c')
          | (None, c') =>
              ({| Success := Success result;
                  Changes := Changes result ++
                    [{| Type_ := ChangeTypeDelete; ResourceID := nodeID;
                        ResourceKind := iKind (Instance node);
                        ResourceName := iName (Instance node) |}];
                  Errors := Errors result |},
               SetNodeStatus dag nodeID StatusCompleted None, c')
          end
      end
  end.

Fixpoint deleteLevel (registry : Registry) (force : bool) (level : list string)
    (result : ExecutionResult) (dag : DAG) (c : Cloud World)
    : ExecutionResult * DAG * Cloud World :=
  match level with
  | [] => (result, dag, c)
  | nodeID :: rest =>
      let '(result', dag', c') := deleteNode registry force nodeID result dag c in
      deleteLevel registry force rest result' dag' c'
  end.

(** The levels in the order the loop visits them. *)
Fixpoint deleteLevels (registry : Registry) (force : bool)
    (levels : list (list string)) (result : ExecutionResult) (dag : DAG)
    (c : Cloud World) : ExecutionResult * DAG * Cloud World :=
  match levels with
  | [] => (result, dag, c)
  | level :: rest =>
      let '(result', dag', c') := deleteLevel registry force level result dag c in
      deleteLevels registry force rest result' dag' c'
  end.

(** [executeDeletions]: [for i := len(executionOrder) - 1; i >= 0; i--];
    its error result is always nil. *)
Definition executeDeletions (dag : DAG) (registry : Registry) (force : bool)
    (c : Cloud World) : ExecutionResult * DAG * Cloud World :=
  deleteLevels registry force (rev (GetExecutionOrder dag))
    {| Success := true; Changes := []; Errors := [] |} dag c.

(** The "Filter to only existing resources" loop of [runDismantle]. *)
Definition existingInstances (driftResults : gmap string DriftResult)
    (instances : list ResourceInstance) : list ResourceInstance :=
  List.filter
    (fun instance =>
       match driftResults !! iID instance with
       | Some driftResult => bool_decide (is_Some (CurrentState driftResult))
       | None => false
       end)
    instances.

(** [runDismantle]: [Ok None] is a run that deleted nothing (nothing to
    dismantle, or cancelled at the prompt), [Ok (Some result)] a run that
    executed; the command returns a nil error in all three cases. *)
Definition runDismantle (configFile : string) (autoApprove force : bool)
    (response : string) (c : Cloud World)
    : result (option ExecutionResult) * Cloud World :=
  bindC (wrapErr errParseConfiguration (ParseFile configFile), c)
    (fun '(cfg, p) c =>
  let '(registry, _, c) := initializeProviders (Providers cfg) ∅ [] c in
  bindC (registry, c)
    (fun registry c =>
  bindC (wrapErr errExpandResources
           (parser.ExpandResources exprRun layout fuel p (Resources cfg)), c)
    (fun instances c =>
  let detector := {| drift.providers_ := registry |} in
  bindC (wrapC errDetectExisting (drift.DetectDriftBatch detector instances c))
    (fun driftResults c =>
  let existing := existingInstances driftResults instances in
  if bool_decide (length existing = 0) then (Ok None, c)
  else if negb autoApprove
          && negb (bool_decide (response = "yes") || bool_decide (response = "y"))
  then (Ok None, c)
  else
    bindC (wrapErr errCreateDAG (NewDAG existing), c)
      (fun dag c =>
         let '(result, _, c) := executeDeletions dag registry force c in
         (Ok (Some result), c)))))).

(** *** bootstrap *)

Import output.

Definition failWith (r : BootstrapResult) (e : error)
    : BootstrapResult * option error :=
  ({| Success := Success r; ProvidersInstalled := ProvidersInstalled r;
      ResourceCount := ResourceCount r; ModulesLoaded := ModulesLoaded r;
      PolicyViolations := PolicyViolations r; Error := Some e |}, Some e).

(** The loop over the instances in [validateConfiguration]. *)
Fixpoint validateInstances (registry : Registry)
    (instances : list ResourceInstance) (c : Cloud World)
    : option error * Cloud World :=
  match instances with
  | [] => (None, c)
  | instance :: rest =>
      let providerName := extractProviderName (iKind instance) in
      match registry !! providerName with
      | None => (Some (errProviderNotFoundFor providerName (iID instance)), c)
      | Some provider =>
          match doValidateResource provider instance c with
          | (Some e, c') => (Some (errValidationFailed (iID instance) e), c')
          | (None, c') => validateInstances registry rest c'
          end
      end
  end.

(** [validateConfiguration]. *)
Definition validateConfiguration (cfg : Config) (registry : Registry)
    (p : parser.Parser) (c : Cloud World) : result unit * Cloud World :=
  match List.find (fun entry => bool_decide (registry !! entry.1 = None))
                  (Providers cfg) with
  | Some entry => (Err (errProviderNotAvailable entry.1), c)
  | None =>
      bindC (wrapErr errExpandResources
               (parser.ExpandResources exprRun layout fuel p (Resources cfg)), c)
        (fun instances c =>
           match validateInstances registry instances c with
           | (Some e, c') => (Err e, c')
           | (None, c') => (Ok (), c')
           end)
  end.

(** The loop that evaluates the policies of every instance. *)
Fixpoint evaluateAll (engine : policy.PolicyEngine)
    (instances : list ResourceInstance) : result (list policy.PolicyViolation) :=
  match instances with
  | [] => Ok []
  | instance :: rest =>
      violations ←
        wrapErr (errEvaluatePolicies (iID instance))
                (policy.EvaluateResource engine instance);
      allViolations ← evaluateAll engine rest;
      Ok (violations ++ allViolations)%list
  end.

(** The loop over [cfg.Modules]: validate, load, register, count. *)
Fixpoint loadModules (ms : list (string * config.Module))
    (moduleRegistry : gmap string modules.Module) (loaded : nat)
    : option error * nat :=
  match ms with
  | [] => (None, loaded)
  | (moduleName, moduleConfig) :: rest =>
      let module :=
        {| modules.mName := moduleName;
           modules.mSource := Source moduleConfig;
           modules.mVersion := Version moduleConfig;
           modules.mInputs := Inputs moduleConfig |} in
      match modules.Validate module with
      | Some e => (Some (errInvalidModule moduleName e), loaded)
      | None =>
          match modules.Load statLocal module with
          | Some e => (Some (errLoadModule moduleName e), loaded)
          | None =>
              match modules.RegisterModule moduleRegistry module with
              | (None, moduleRegistry') =>
                  loadModules rest moduleRegistry' (S loaded)
              | (Some e, _) => (Some (errRegisterModule moduleName e), loaded)
              end
          end
      end
  end.

(** [runBootstrap] after the policy gate: the modules, then success. *)
Definition finishBootstrap (cfg : Config) (r : BootstrapResult)
    : BootstrapResult * option error :=
  let '(failure, loaded) := loadModules (Modules cfg) ∅ 0 in
  let r :=
    {| Success := Success r; ProvidersInstalled := ProvidersInstalled r;
       ResourceCount := ResourceCount r; ModulesLoaded := loaded;
       PolicyViolations := PolicyViolations r; Error := Error r |} in
  match failure with
  | Some e => failWith r e
  | None =>
      let r :=
        {| Success := true; ProvidersInstalled := ProvidersInstalled r;
           ResourceCount := ResourceCount r; ModulesLoaded := ModulesLoaded r;
           PolicyViolations := PolicyViolations r; Error := Error r |} in
      match FormatBootstrapResult r with
      | Some e => (r, Some (errFormatOutput e))
      | None => (r, None)
      end
  end.

(** [runBootstrap] from the policy evaluation on: [HasErrors] is the
    gate. *)
Definition policyGate (cfg : Config) (r : BootstrapResult)
    (instances : list ResourceInstance) : result (BootstrapResult * option error) :=
  match policy.LoadBuiltinPolicies policy.NewPolicyEngine with
  | Ok policyEngine =>
      match evaluateAll policyEngine instances with
      | Ok allViolations =>
          let r :=
            {| Success := Success r; ProvidersInstalled := ProvidersInstalled r;
               ResourceCount := ResourceCount r; ModulesLoaded := ModulesLoaded r;
               PolicyViolations := allViolations; Error := Error r |} in
          if policy.HasErrors allViolations
          then Ok (failWith r errPolicyViolations)
          else Ok (finishBootstrap cfg r)
      | Err e => Ok (failWith r e)
      | Panic => Panic
      | OutOfFuel => OutOfFuel
      end
  | Err e => Ok (failWith r (errLoadBuiltinPolicies e))
  | Panic => Panic
  | OutOfFuel => OutOfFuel
  end.

(** [runBootstrap]: the result that is printed and the error that is
    returned. *)
Definition runBootstrap (configFile : string) (c : Cloud World)
    : result (BootstrapResult * option error) * Cloud World :=
  let r := {| Success := false; ProvidersInstalled := []; ResourceCount := 0;
              ModulesLoaded := 0; PolicyViolations := []; Error := None |} in
  match ParseFile configFile with
  | Ok (cfg, p) =>
      let '(registry, installed, c) := initializeProviders (Providers cfg) ∅ [] c in
      let r := {| Success := false; ProvidersInstalled := installed;
                  ResourceCount := 0; ModulesLoaded := 0;
                  PolicyViolations := []; Error := None |} in
      match registry with
      | Ok registry =>
          match validateConfiguration cfg registry p c with
          | (Ok _, c) =>
              match parser.ExpandResources exprRun layout fuel p (Resources cfg) with
              | Ok instances =>
                  let r := {| Success := false; ProvidersInstalled := installed;
                              ResourceCount := length instances;
                              ModulesLoaded := 0; PolicyViolations := [];
                              Error := None |} in
                  (policyGate cfg r instances, c)
              | Err e => (Ok (failWith r (errExpandResources e)), c)
              | Panic => (Panic, c)
              | OutOfFuel => (OutOfFuel, c)
              end
          | (Err e, c) => (Ok (failWith r (errConfigurationValidation e)), c)
          | (Panic, c) => (Panic, c)
          | (OutOfFuel, c) => (OutOfFuel, c)
          end
      | Err e => (Ok (failWith r e), c)
      | Panic => (Panic, c)
      | OutOfFuel => (OutOfFuel, c)
      end
  | Err e => (Ok (failWith r (errParseConfiguration e)), c)
  | Panic => (Panic, c)
  | OutOfFuel => (OutOfFuel, c)
  end.

End commands.

End cmd.

(** ** Sample inputs

    Concrete inputs on which the definitions are run: an in-memory cloud,
    the scenarios of the specification, and small configurations. *)

Module samples.
Import config providers cloud executor.

(** An in-memory cloud: the live state of every resource by instance
    ID.  [Create] fails on the instances named in [failing]. *)
Definition Memory : Type := gmap string (gmap string Value).

Definition memProvider (failing : list string) : providers.Provider Memory :=
  {| Initialize := fun _ w => (None, w);
     Create := fun i w =>
       if bool_decide (iName i ∈ failing)
       then (Some (errExternal "create failed"), w)
       else (None, <[iID i := iProperties i]> w);
     Update := fun i _ w => (None, <[iID i := iProperties i]> w);
     Delete := fun i w => (None, delete (iID i) w);
     GetCurrentState := fun i w => (Ok (w !! iID i), w);
     ValidateResource := fun _ => None |}.

Definition emptyCloud : Cloud Memory := {| world := ∅; calls := [] |}.

Definition instanceOf (kind name : string) (properties : gmap string Value)
    (policy : option DriftPolicy) (dependsOn : list string) : ResourceInstance :=
  {| iID := kind +:+ "." +:+ name; iKind := kind; iName := name;
     iProperties := properties; iDriftPolicy := policy;
     iDependsOn := dependsOn |}.

(** Scenario S5 of the specification. *)
Definition s5Desired : gmap string Value :=
  {[ "versioning" := VBool true; "tags" := VMap {[ "Env" := VStr "prod" ]} ]}.
Definition s5Current : gmap string Value :=
  {[ "versioning" := VBool false; "tags" := VMap {[ "Env" := VStr "prod" ]};
     "arn" := VStr "arn:aws:s3:::b" ]}.
Definition s5Bucket : ResourceInstance :=
  instanceOf "aws:s3:bucket" "b" s5Desired None [].
Definition s5Cloud : Cloud Memory :=
  {| world := {[ iID s5Bucket := s5Current ]}; calls := [] |}.
Definition s5Detector : drift.Detector Memory :=
  {| drift.providers_ := {[ "aws" := memProvider [] ]} |}.

(** Scenario S3 of the specification: a diamond. *)
Definition nodeOf (i : ResourceInstance) (dependents : list string) : DAGNode :=
  {| ID := iID i; Instance := i; Dependencies := iDependsOn i;
     Dependents := dependents; Status := StatusPending; Error := None |}.
Definition dagOf (ns : list DAGNode) : DAG :=
  {| nodes := list_to_map ((fun n => (ID n, n)) <$> ns) |}.

Definition s3A := instanceOf "module:vpc" "network" ∅ None [].
Definition s3B1 := instanceOf "aws:ec2:instance" "web1" ∅ None [iID s3A].
Definition s3B2 := instanceOf "aws:ec2:instance" "web2" ∅ None [iID s3A].
Definition s3C :=
  instanceOf "aws:elb:loadbalancer" "lb" ∅ None [iID s3B1; iID s3B2].
Definition s3Dag : DAG :=
  dagOf [ nodeOf s3A [iID s3B1; iID s3B2]; nodeOf s3B1 [iID s3C];
          nodeOf s3B2 [iID s3C]; nodeOf s3C [] ].

(** An expression engine on which every compilation fails, and a layout
    with pairwise distinct addresses. *)
Definition noExpr : string → gmap string Value → option Value := fun _ _ => None.
Definition layout : parser.Layout :=
  {| parser.addrResource := 4096; parser.addrProperties := 8192;
     parser.addrDriftPolicy := 12288; parser.addrDependsOn := 16384 |}.

Definition declaration (kind name : string) (count forEach : option Value)
    : Resource :=
  {| Kind := kind; Name := name; Count := count; ForEach := forEach;
     Properties := {[ "versioning" := VBool true ]}; DriftPolicy_ := None;
     DependsOn := [] |}.

Definition noVariables : parser.Parser := {| parser.variables := ∅ |}.

(** Scenario S2 of the specification, with the list written in place. *)
Definition s2Logs : Resource :=
  declaration "aws:s3:bucket" "logs-${region}" None
    (Some (VList [VStr "us-east-1"; VStr "us-west-2"])).

(** A declaration whose count comes from a variable holding "-2". *)
Definition negativeCount : parser.Parser :=
  {| parser.variables := {[ "replicas" := VStr "-2" ]} |}.
Definition replicated : Resource :=
  declaration "aws:ec2:instance" "web" (Some (VStr "replicas")) None.

Definition bucket : Resource := declaration "aws:s3:bucket" "b" None None.

(** A chain: bucket b depends on bucket a; neither exists yet, and the
    provider fails to create a. *)
Definition chainA := instanceOf "aws:s3:bucket" "a" ∅ None [].
Definition chainB := instanceOf "aws:s3:bucket" "b" ∅ None [iID chainA].
Definition chainDag : DAG := dagOf [ nodeOf chainA [iID chainB]; nodeOf chainB [] ].
Definition chainRegistry : gmap string (providers.Provider Memory) :=
  {[ "aws" := memProvider ["a"] ]}.
Definition absent (i : ResourceInstance) : DriftResult :=
  {| HasDrift := true; Differences := ∅; CurrentState := None;
     DesiredState := iProperties i |}.
Definition chainDrift : gmap string DriftResult :=
  {[ iID chainA := absent chainA; iID chainB := absent chainB ]}.

(** Scenario S6 of the specification: a bucket without versioning, and
    a large instance. *)
Definition s6Bucket : Resource :=
  {| Kind := "aws:s3:bucket"; Name := "b"; Count := None; ForEach := None;
     Properties := {[ "versioning" := VBool false ]}; DriftPolicy_ := None;
     DependsOn := [] |}.
Definition s6Large : Resource :=
  {| Kind := "aws:ec2:instance"; Name := "big"; Count := None; ForEach := None;
     Properties := {[ "instance_type" := VStr "t3.large" ]};
     DriftPolicy_ := None; DependsOn := [] |}.
Definition s6Config (resources : list Resource) : Config :=
  {| Project := "demo"; Environment := "dev"; Variables := ∅;
     Providers := [("aws", {| Region := "us-east-1"; Profile := "" |})];
     Modules := []; Resources := resources |}.
Definition s6Parse (resources : list Resource) (configFile : string)
    : result (Config * parser.Parser) :=
  Ok (s6Config resources,
      {| parser.variables :=
           {[ "environment" := VStr "dev"; "project" := VStr "demo" ]} |}).

(** The configuration of that chain. *)
Definition chainConfig : Config :=
  {| Project := "demo"; Environment := "dev"; Variables := ∅;
     Providers := [("aws", {| Region := "us-east-1"; Profile := "" |})];
     Modules := [];
     Resources :=
       [ {| Kind := "aws:s3:bucket"; Name := "a"; Count := None; ForEach := None;
            Properties := ∅; DriftPolicy_ := None; DependsOn := [] |};
         {| Kind := "aws:s3:bucket"; Name := "b"; Count := None; ForEach := None;
            Properties := ∅; DriftPolicy_ := None;
            DependsOn := ["aws:s3:bucket.a"] |} ] |}.

(** A drifted bucket whose policy sets both autoHeal and notifyOnly. *)
Definition notified : ResourceInstance :=
  instanceOf "aws:s3:bucket" "b" s5Desired
    (Some {| AutoHeal := true; NotifyOnly := true |}) [].
Definition notifiedDrift : gmap string DriftResult :=
  {[ iID notified :=
       {| HasDrift := true; Differences := ∅; CurrentState := None;
          DesiredState := s5Desired |} ]}.

(** The bucket of scenario S5 once it is aligned: the live state holds
    the desired properties and one metadata field. *)
Definition alignedCloud : Cloud Memory :=
  {| world := {[ iID s5Bucket := <["arn" := VStr "arn:aws:s3:::b"]> s5Desired ]};
     calls := [] |}.

(** The drift results of the chain when both buckets exist and are aligned. *)
Definition present (i : ResourceInstance) : DriftResult :=
  {| HasDrift := false; Differences := ∅; CurrentState := Some (iProperties i);
     DesiredState := iProperties i |}.
Definition chainPresent : gmap string DriftResult :=
  {[ iID chainA := present chainA; iID chainB := present chainB ]}.

End samples.

(** * Properties *)

(** ** The drift detector *)

Module drift_spec.
Import gostrings config providers cloud drift.

Definition added (key : string) (d : Value) : DriftDifference :=
  {| Property := key; CurrentValue := VNil; DesiredValue := d;
     DriftType_ := DriftTypeAdded |}.
Definition modified (key : string) (c d : Value) : DriftDifference :=
  {| Property := key; CurrentValue := c; DesiredValue := d;
     DriftType_ := DriftTypeModified |}.
Definition removed (key : string) (c : Value) : DriftDifference :=
  {| Property := key; CurrentValue := c; DesiredValue := VNil;
     DriftType_ := DriftTypeRemoved |}.

(** What [compareStates] records under one key. *)
Definition diffAt (key : string) (current desired : option Value)
    : option DriftDifference :=
  match desired, current with
  | Some d, None => Some (added key d)
  | Some d, Some c => if valuesEqual c d then None else Some (modified key c d)
  | None, Some c => if isMetadataField key then None else Some (removed key c)
  | None, None => None
  end.

Lemma first_loop_lookup (current desired : gmap string Value) (key : string) :
  map_fold (compareDesired current) ∅ desired !! key =
  match desired !! key with
  | Some d => diffAt key (current !! key) (Some d)
  | None => None
  end.
Proof.
  revert key.
  apply (map_fold_weak_ind
           (fun r m => ∀ key, r !! key =
              match m !! key with
              | Some d => diffAt key (current !! key) (Some d)
              | None => None
              end)).
  - intros key. by rewrite !lookup_empty.
  - intros i x m r Hi IH key. unfold compareDesired.
    destruct (decide (i = key)) as [->|Hne].
    + rewrite lookup_insert_eq. unfold diffAt.
      destruct (current !! key) as [c|] eqn:Hc.
      * destruct (valuesEqual c x); simpl.
        -- rewrite IH, Hi. done.
        -- by rewrite lookup_insert_eq.
      * by rewrite lookup_insert_eq.
    + rewrite (lookup_insert_ne m) by done.
      destruct (current !! i) as [c|].
      * destruct (valuesEqual c x); simpl; [apply IH|].
        rewrite lookup_insert_ne by done. apply IH.
      * rewrite lookup_insert_ne by done. apply IH.
Qed.

Lemma second_loop_lookup (current desired : gmap string Value)
    (differences : gmap string DriftDifference) (key : string) :
  map_fold (compareCurrent desired) differences current !! key =
  match current !! key, desired !! key with
  | Some c, None =>
      if isMetadataField key then differences !! key else Some (removed key c)
  | _, _ => differences !! key
  end.
Proof.
  revert key.
  apply (map_fold_weak_ind
           (fun r m => ∀ key, r !! key =
              match m !! key, desired !! key with
              | Some c, None =>
                  if isMetadataField key then differences !! key
                  else Some (removed key c)
              | _, _ => differences !! key
              end)).
  - intros key. by rewrite lookup_empty.
  - intros i x m r Hi IH key. unfold compareCurrent.
    destruct (decide (i = key)) as [->|Hne].
    + rewrite lookup_insert_eq.
      destruct (desired !! key) eqn:Hd.
      * rewrite IH, Hi. done.
      * destruct (isMetadataField key) eqn:Hm.
        -- rewrite IH, Hi. done.
        -- by rewrite lookup_insert_eq.
    + rewrite (lookup_insert_ne m) by done.
      destruct (desired !! i).
      * apply IH.
      * destruct (isMetadataField i); [apply IH|].
        rewrite lookup_insert_ne by done. apply IH.
Qed.

(** [compareStates] key by key. *)
Lemma compareStates_lookup (current desired : gmap string Value) (key : string) :
  compareStates current desired !! key =
  diffAt key (current !! key) (desired !! key).
Proof.
  unfold compareStates. rewrite second_loop_lookup, first_loop_lookup.
  unfold diffAt.
  destruct (current !! key) as [c|], (desired !! key) as [d|]; done.
Qed.

Lemma inFields_iff (key : string) (fields : list string) :
  inFields key fields = true ↔ key ∈ fields.
Proof.
  induction fields as [|field rest IH]; simpl.
  - split; [done|]. by intros ?%elem_of_nil.
  - rewrite elem_of_cons. case_bool_decide; [tauto|].
    rewrite IH. tauto.
Qed.

(** The metadata set is exactly the ten names of the source. *)
Lemma isMetadataField_iff (key : string) :
  isMetadataField key = true ↔
  key ∈ [ "arn"; "id"; "creation_date"; "last_modified"; "status"; "state";
          "availability_zone"; "instance_id"; "vpc_id"; "subnet_id" ].
Proof. apply inFields_iff. Qed.

(** What a result of [DetectDrift] tells: the provider of the instance
    is registered and reported the current state of the result; every
    other outcome of the lookup or of the provider is an error. *)
Lemma DetectDrift_Ok_inv {World : Type} (d : Detector World)
    (instance : ResourceInstance) (c c' : Cloud World) (r : DriftResult) :
  DetectDrift d instance c = (Ok r, c') →
  ∃ provider,
    providers_ d !! extractProviderName (iKind instance) = Some provider ∧
    (GetCurrentState provider instance (world c)).1 = Ok (CurrentState r).
Proof.
  unfold DetectDrift, doGetCurrentState.
  destruct (providers_ d !! _) as [provider|] eqn:Hp; [|done].
  destruct (GetCurrentState provider instance (world c)) as [st w] eqn:Hst.
  destruct st as [[currentState|]| | |]; intros [= <- <-]; simpl;
    exists provider; by rewrite Hst.
Qed.

End drift_spec.

Module drift_claims.
Import gostrings config providers cloud drift drift_spec.

(** C2.  A property named in the closed metadata set (arn, id,
    creation_date, last_modified, status, state, availability_zone,
    instance_id, vpc_id, subnet_id) that the desired state does not
    declare never appears in the differences [compareStates] computes,
    whatever the live state holds under it; and no difference recorded
    under such a name is ever of type removed. *)
Theorem compareStates_ignores_metadata
    (current desired : gmap string Value) (key : string) :
  key ∈ [ "arn"; "id"; "creation_date"; "last_modified"; "status"; "state";
          "availability_zone"; "instance_id"; "vpc_id"; "subnet_id" ] →
  (desired !! key = None → compareStates current desired !! key = None) ∧
  (∀ diff, compareStates current desired !! key = Some diff →
           DriftType_ diff ≠ DriftTypeRemoved).
Proof.
  intros Hmeta%isMetadataField_iff. split.
  - intros Hd. rewrite compareStates_lookup, Hd. unfold diffAt.
    destruct (current !! key); [by rewrite Hmeta|done].
  - intros diff. rewrite compareStates_lookup. unfold diffAt.
    destruct (desired !! key) as [d|], (current !! key) as [c|];
      try rewrite Hmeta; try done.
    + destruct (valuesEqual c d); [done|]. by intros [= <-].
    + by intros [= <-].
Qed.

Lemma compareStates_ignores_metadata_witness :
  samples.s5Current !! "arn" = Some (VStr "arn:aws:s3:::b") ∧
  compareStates samples.s5Current samples.s5Desired !! "arn" = None.
Proof.
  split; [reflexivity|].
  apply (compareStates_ignores_metadata samples.s5Current samples.s5Desired "arn").
  - set_solver.
  - reflexivity.
Defined.

(** C1.  [DetectDrift] answers for every instance whose provider is
    registered and reports a state, and the current state of the result
    is the one reported.  When the provider reports the resource absent
    (a nil state), the result has hasDrift = true and an empty
    differences map: the create signal.  When it reports a state, the
    differences are those of [compareStates] and hasDrift is true
    exactly when they are non-empty.  Hence hasDrift holds iff the
    differences are non-empty or the current state is absent. *)
Theorem DetectDrift_hasDrift {World : Type} (d : Detector World)
    (instance : ResourceInstance) (c : Cloud World) (provider : Provider World)
    (state : option (gmap string Value)) :
  providers_ d !! extractProviderName (iKind instance) = Some provider →
  (GetCurrentState provider instance (world c)).1 = Ok state →
  ∃ r,
    (DetectDrift d instance c).1 = Ok r ∧
    CurrentState r = state ∧
    (state = None → HasDrift r = true ∧ Differences r = ∅) ∧
    (∀ currentState, state = Some currentState →
        Differences r = compareStates currentState (iProperties instance) ∧
        (HasDrift r = true ↔ Differences r ≠ ∅)) ∧
    (HasDrift r = true ↔ Differences r ≠ ∅ ∨ CurrentState r = None).
Proof.
  intros Hp Hst. unfold DetectDrift, doGetCurrentState. rewrite Hp.
  destruct (GetCurrentState provider instance (world c)) as [st w].
  simpl in Hst. subst st.
  assert (∀ m : gmap string DriftDifference,
            bool_decide (0 < size m) = true ↔ m ≠ ∅) as Hsize.
  { intros m. rewrite bool_decide_eq_true, <-map_size_non_empty_iff. lia. }
  destruct state as [currentState|]; eexists; (split; [reflexivity|]); simpl.
  - split; [done|]. split; [done|]. split.
    + intros ? [= <-]. split; [done|]. apply Hsize.
    + rewrite Hsize. split; [by left|by intros [?|?]].
  - split; [done|]. split; [done|]. split; [done|].
    split; [by right|done].
Qed.

(** The bucket of scenario S5 on an empty cloud (the create signal) and
    on the cloud of the scenario. *)
Lemma DetectDrift_hasDrift_witness :
  (∃ r,
     (DetectDrift samples.s5Detector samples.s5Bucket samples.emptyCloud).1 = Ok r ∧
     CurrentState r = None ∧ HasDrift r = true ∧ Differences r = ∅) ∧
  (∃ r,
     (DetectDrift samples.s5Detector samples.s5Bucket samples.s5Cloud).1 = Ok r ∧
     CurrentState r = Some samples.s5Current ∧
     (HasDrift r = true ↔ Differences r ≠ ∅)).
Proof.
  split.
  - destruct (DetectDrift_hasDrift samples.s5Detector samples.s5Bucket
                samples.emptyCloud (samples.memProvider []) None)
      as (r & Hr & Hstate & Habsent & _); [reflexivity|reflexivity|].
    exists r. split; [exact Hr|]. split; [exact Hstate|].
    apply Habsent. reflexivity.
  - destruct (DetectDrift_hasDrift samples.s5Detector samples.s5Bucket
                samples.s5Cloud (samples.memProvider []) (Some samples.s5Current))
      as (r & Hr & Hstate & _ & Hpresent & _); [reflexivity|reflexivity|].
    exists r. split; [exact Hr|]. split; [exact Hstate|].
    apply (Hpresent samples.s5Current). reflexivity.
Defined.

(** Scenario S5: versioning is reported as modified, arn is not reported. *)
Example DetectDrift_s5 :
  (fun r => (HasDrift r, DriftType_ <$> Differences r)) <$>
    (DetectDrift samples.s5Detector samples.s5Bucket samples.s5Cloud).1
  = Ok (true, {[ "versioning" := DriftTypeModified ]}).
Proof. vm_compute. reflexivity. Qed.

End drift_claims.

(** ** The dependency graph *)

Module executor_spec.
Import config executor.

Lemma SortStrings_elem (l : list string) (x : string) :
  x ∈ SortStrings l ↔ x ∈ l.
Proof. unfold SortStrings. by rewrite merge_sort_Permutation. Qed.

Lemma SortStrings_sorted (l : list string) : StronglySorted String.le (SortStrings l).
Proof. apply StronglySorted_merge_sort; apply _. Qed.

Lemma canExecute_spec (processed : gset string) (node : DAGNode) :
  canExecute processed node = true ↔
  ∀ depID, depID ∈ Dependencies node → depID ∈ processed.
Proof.
  unfold canExecute. rewrite forallb_forall. split.
  - intros H depID Hin. apply list_elem_of_In, H in Hin.
    by apply bool_decide_eq_true in Hin.
  - intros H depID Hin. apply bool_decide_eq_true, H. by apply list_elem_of_In.
Qed.

Lemma collectLevel_spec (d : DAG) (processed : gset string) (nodeID : string) :
  nodeID ∈ collectLevel d processed ↔
  (nodeID ∉ processed) ∧
  ∃ node, nodes d !! nodeID = Some node ∧ canExecute processed node = true.
Proof.
  unfold collectLevel. rewrite list_elem_of_In, filter_In, <-list_elem_of_In.
  rewrite andb_true_iff, negb_true_iff, bool_decide_eq_false. split.
  - intros (_ & Hnot & Hnode). split; [done|].
    destruct (nodes d !! nodeID) as [node|]; [by exists node|done].
  - intros (Hnot & node & Hnode & Hcan). rewrite Hnode. split; [|done].
    apply list_elem_of_fmap. exists (nodeID, node). split; [done|].
    by apply elem_of_map_to_list.
Qed.

Lemma collectLevel_NoDup (d : DAG) (processed : gset string) :
  NoDup (collectLevel d processed).
Proof.
  unfold collectLevel. apply NoDup_ListNoDup, List.NoDup_filter, NoDup_ListNoDup.
  apply NoDup_fst_map_to_list.
Qed.

(** One round of the outer loop. *)
Lemma levelLoop_unfold (fuel : nat) (d : DAG) (processed : gset string) :
  levelLoop fuel d processed =
  if bool_decide (size processed < size (nodes d)) then
    match collectLevel d processed with
    | [] => Some []
    | _ :: _ =>
        match fuel with
        | 0 => None
        | S fuel' =>
            levels ← levelLoop fuel' d
                       (list_to_set (SortStrings (collectLevel d processed)) ∪ processed);
            Some (SortStrings (collectLevel d processed) :: levels)
        end
    end
  else Some [].
Proof. destruct fuel; simpl; by destruct (collectLevel d processed). Qed.

(** Every dependency of a node placed by the loop is already marked or
    sits in a strictly earlier level. *)
Lemma levelLoop_dependencies (fuel : nat) (d : DAG) :
  ∀ (processed : gset string) (levels : list (list string)),
    levelLoop fuel d processed = Some levels →
    ∀ (L : nat) (level : list string) (N : string) (node : DAGNode) (dep : string),
      levels !! L = Some level → N ∈ level →
      nodes d !! N = Some node → dep ∈ Dependencies node →
      dep ∈ processed ∨
      ∃ L' level', L' < L ∧ levels !! L' = Some level' ∧ dep ∈ level'.
Proof.
  induction fuel as [|fuel IH]; intros processed levels;
    rewrite levelLoop_unfold; case_bool_decide; try (by intros [= <-]);
    destruct (collectLevel d processed) as [|x l] eqn:Hlevel;
    try (by intros [= <-]); try done.
  destruct (levelLoop fuel d _) as [rest|] eqn:Hrest; [|done].
  simpl. intros [= <-] L level N node dep HL HN Hnode Hdep.
  destruct L as [|L]; simpl in HL.
  - injection HL as <-. left.
    rewrite SortStrings_elem, <-Hlevel in HN.
    apply collectLevel_spec in HN as (_ & node' & Hnode' & Hcan).
    rewrite Hnode in Hnode'. injection Hnode' as <-.
    by eapply canExecute_spec.
  - destruct (IH _ _ Hrest L level N node dep HL HN Hnode Hdep)
      as [Hin|(L' & level' & HL' & Hlookup & Hin)].
    + apply elem_of_union in Hin as [Hin|Hin]; [|by left].
      right. exists 0, (SortStrings (x :: l)). split; [lia|]. split; [done|].
      by rewrite elem_of_list_to_set in Hin.
    + right. exists (S L'), level'. split; [lia|]. done.
Qed.

(** Every level the loop produces is a sorted, duplicate-free list of
    node IDs of the graph. *)
Lemma levelLoop_levels (fuel : nat) (d : DAG) :
  ∀ (processed : gset string) (levels : list (list string)),
    levelLoop fuel d processed = Some levels →
    ∀ level, level ∈ levels →
      StronglySorted String.le level ∧ NoDup level ∧
      ∀ N, N ∈ level → is_Some (nodes d !! N).
Proof.
  induction fuel as [|fuel IH]; intros processed levels;
    rewrite levelLoop_unfold; case_bool_decide;
    try (by intros [= <-] level ?%elem_of_nil);
    destruct (collectLevel d processed) as [|x l] eqn:Hlevel;
    try (by intros [= <-] level ?%elem_of_nil); try done.
  destruct (levelLoop fuel d _) as [rest|] eqn:Hrest; [|done].
  simpl. intros [= <-] level [->|Hin]%elem_of_cons; [|by eapply IH].
  split; [apply SortStrings_sorted|]. split.
  - unfold SortStrings. rewrite merge_sort_Permutation, <-Hlevel.
    apply collectLevel_NoDup.
  - intros N HN. rewrite SortStrings_elem, <-Hlevel in HN.
    apply collectLevel_spec in HN as (_ & node & -> & _). by eexists.
Qed.

(** The fuel [GetExecutionOrder] gives the loop is never exhausted. *)
Lemma levelLoop_total (fuel : nat) (d : DAG) :
  ∀ processed : gset string,
    processed ⊆ dom (nodes d) →
    (size (nodes d) - size processed ≤ fuel)%nat →
    is_Some (levelLoop fuel d processed).
Proof.
  induction fuel as [|fuel IH]; intros processed Hsub Hfuel;
    rewrite levelLoop_unfold; case_bool_decide; try (by eexists);
    destruct (collectLevel d processed) as [|x l] eqn:Hlevel;
    try (by eexists); try lia.
  assert (x ∈ collectLevel d processed) as Hx by (rewrite Hlevel; by left).
  apply collectLevel_spec in Hx as (Hfresh & node & Hnode & _).
  set (processed' := list_to_set (SortStrings (x :: l)) ∪ processed).
  assert (processed' ⊆ dom (nodes d)) as Hsub'.
  { intros y [Hy|Hy]%elem_of_union; [|by apply Hsub].
    rewrite elem_of_list_to_set, SortStrings_elem, <-Hlevel in Hy.
    apply collectLevel_spec in Hy as (_ & node' & Hnode' & _).
    apply elem_of_dom. by eexists. }
  assert (S (size processed) ≤ size processed')%nat as Hgrow.
  { transitivity (size ({[x]} ∪ processed)).
    - rewrite size_union by set_solver. rewrite size_singleton. lia.
    - apply subseteq_size. intros y [Hy|Hy]%elem_of_union.
      + apply elem_of_singleton in Hy as ->. apply elem_of_union_l.
        rewrite elem_of_list_to_set, SortStrings_elem. by left.
      + by apply elem_of_union_r. }
  assert (size processed' ≤ size (nodes d))%nat as Hle.
  { rewrite <-size_dom. by apply subseteq_size. }
  destruct (IH processed' Hsub') as [rest Hrest]; [lia|].
  fold processed'. rewrite Hrest. by eexists.
Qed.

Lemma GetExecutionOrder_levelLoop (d : DAG) :
  levelLoop (size (nodes d)) d ∅ = Some (GetExecutionOrder d).
Proof.
  unfold GetExecutionOrder.
  destruct (levelLoop_total (size (nodes d)) d ∅) as [levels ->];
    [set_solver|lia|done].
Qed.

(** Every dependency names a node of the graph. *)
Definition closed (d : DAG) : Prop :=
  ∀ id node dep,
    nodes d !! id = Some node → dep ∈ Dependencies node → is_Some (nodes d !! dep).

(** The graph has a topological numbering: every dependency has a
    smaller rank than the node that depends on it. *)
Definition acyclic (d : DAG) : Prop :=
  ∃ rank : string → nat,
    ∀ id node dep,
      nodes d !! id = Some node → dep ∈ Dependencies node →
      (rank dep < rank id)%nat.

Lemma canExecute_false (processed : gset string) (node : DAGNode) :
  canExecute processed node = false →
  ∃ dep, dep ∈ Dependencies node ∧ dep ∉ processed.
Proof.
  unfold canExecute. induction (Dependencies node) as [|dep deps IH]; simpl;
    [done|].
  case_bool_decide; simpl.
  - intros (dep' & Hin & Hnot)%IH. exists dep'. split; [by right|done].
  - intros _. exists dep. split; [by left|done].
Qed.

(** While an acyclic closed graph has an unmarked node, the next level
    is not empty. *)
Lemma collectLevel_progress (d : DAG) (processed : gset string)
    (rank : string → nat) :
  closed d →
  (∀ id node dep, nodes d !! id = Some node → dep ∈ Dependencies node →
                  (rank dep < rank id)%nat) →
  ∀ (n : nat) (id : string) (node : DAGNode),
    (rank id < n)%nat → nodes d !! id = Some node → id ∉ processed →
    ∃ id', id' ∈ collectLevel d processed.
Proof.
  intros Hclosed Hrank. induction n as [|n IH]; intros id node Hn Hnode Hfresh;
    [lia|].
  destruct (canExecute processed node) eqn:Hcan.
  - exists id. apply collectLevel_spec. split; [done|]. by exists node.
  - apply canExecute_false in Hcan as (dep & Hdep & Hdepfresh).
    destruct (Hclosed id node dep Hnode Hdep) as [depNode HdepNode].
    apply (IH dep depNode); [|done|done].
    specialize (Hrank id node dep Hnode Hdep). lia.
Qed.

Lemma marked_subseteq (d : DAG) (processed : gset string) :
  processed ⊆ dom (nodes d) →
  list_to_set (SortStrings (collectLevel d processed)) ∪ processed ⊆ dom (nodes d).
Proof.
  intros Hsub y [Hy|Hy]%elem_of_union; [|by apply Hsub].
  rewrite elem_of_list_to_set, SortStrings_elem in Hy.
  apply collectLevel_spec in Hy as (_ & node' & Hnode' & _).
  apply elem_of_dom. by eexists.
Qed.

Lemma all_marked (d : DAG) (processed : gset string) (id : string) :
  processed ⊆ dom (nodes d) →
  ¬ (size processed < size (nodes d))%nat →
  is_Some (nodes d !! id) → id ∈ processed.
Proof.
  intros Hsub Hsize Hid.
  assert (processed = dom (nodes d)) as ->.
  { apply set_subseteq_size_eq; [done|]. rewrite size_dom. lia. }
  by apply elem_of_dom.
Qed.

Lemma collectLevel_not_empty (d : DAG) (processed : gset string) :
  closed d → acyclic d →
  processed ⊆ dom (nodes d) →
  (size processed < size (nodes d))%nat →
  collectLevel d processed ≠ [].
Proof.
  intros Hclosed [rank Hrank] Hsub Hsize Hlevel.
  destruct (set_choose_or_empty (dom (nodes d) ∖ processed)) as [[y Hy]|Hempty].
  - apply elem_of_difference in Hy as [[node Hnode]%elem_of_dom Hfresh].
    destruct (collectLevel_progress d processed rank Hclosed Hrank
                (S (rank y)) y node) as [id' Hid']; [lia|done|done|].
    rewrite Hlevel in Hid'. by apply elem_of_nil in Hid'.
  - assert (dom (nodes d) ⊆ processed) as Hall by set_solver.
    apply subseteq_size in Hall. rewrite size_dom in Hall. lia.
Qed.

(** On an acyclic closed graph the loop places every node. *)
Lemma levelLoop_covers (fuel : nat) (d : DAG) :
  closed d → acyclic d →
  ∀ (processed : gset string) (levels : list (list string)),
    processed ⊆ dom (nodes d) →
    levelLoop fuel d processed = Some levels →
    ∀ id, is_Some (nodes d !! id) →
      id ∈ processed ∨ ∃ L level, levels !! L = Some level ∧ id ∈ level.
Proof.
  intros Hclosed Hacyclic.
  induction fuel as [|fuel IH]; intros processed levels Hsub;
    rewrite levelLoop_unfold; case_bool_decide as Hsize;
    try (intros _ id Hid; left; by eapply all_marked);
    pose proof (collectLevel_not_empty d processed Hclosed Hacyclic Hsub Hsize)
      as Hne;
    destruct (collectLevel d processed) as [|x l] eqn:Hlevel; try done.
  destruct (levelLoop fuel d _) as [rest|] eqn:Hrest; [|done].
  simpl. intros [= <-] id Hid.
  assert (list_to_set (SortStrings (x :: l)) ∪ processed ⊆ dom (nodes d)) as Hsub'.
  { rewrite <-Hlevel. by apply marked_subseteq. }
  destruct (IH _ _ Hsub' Hrest id Hid) as [Hin|(L & level & HL & Hin)].
  - apply elem_of_union in Hin as [Hin|Hin]; [|by left].
    right. exists 0%nat, (SortStrings (x :: l)). split; [done|].
    by rewrite elem_of_list_to_set in Hin.
  - right. by exists (S L), level.
Qed.

(** On an acyclic closed graph every node is placed in some level. *)
Lemma GetExecutionOrder_complete (d : DAG) (id : string) :
  closed d → acyclic d → is_Some (nodes d !! id) →
  ∃ L level, GetExecutionOrder d !! L = Some level ∧ id ∈ level.
Proof.
  intros Hclosed Hacyclic Hid.
  destruct (levelLoop_covers (size (nodes d)) d Hclosed Hacyclic ∅
              (GetExecutionOrder d) ltac:(set_solver)
              (GetExecutionOrder_levelLoop d) id Hid) as [Hin|H]; done.
Qed.

End executor_spec.

Module executor_claims.
Import config executor executor_spec.

(** C3.  In the level grouping [GetExecutionOrder] returns, every
    dependency of a node placed in level L is placed in a level strictly
    earlier than L, and the node IDs of each level are in ascending
    lexicographic order (without repetition).  This holds for every
    graph, in particular for every acyclic one. *)
Theorem GetExecutionOrder_levels (d : DAG) :
  (∀ (L : nat) (level : list string) (N : string) (node : DAGNode) (dep : string),
      GetExecutionOrder d !! L = Some level → N ∈ level →
      nodes d !! N = Some node → dep ∈ Dependencies node →
      ∃ L' level', L' < L ∧ GetExecutionOrder d !! L' = Some level' ∧ dep ∈ level') ∧
  (∀ level, level ∈ GetExecutionOrder d →
      StronglySorted String.le level ∧ NoDup level).
Proof.
  pose proof (GetExecutionOrder_levelLoop d) as Hloop. split.
  - intros L level N node dep HL HN Hnode Hdep.
    destruct (levelLoop_dependencies _ _ _ _ Hloop L level N node dep)
      as [Hin|H]; done.
  - intros level Hin.
    destruct (levelLoop_levels _ _ _ _ Hloop level Hin) as (? & ? & _). done.
Qed.

(** The sample graphs are the ones [NewDAG] builds. *)
Example NewDAG_diamond :
  NewDAG [samples.s3A; samples.s3B1; samples.s3B2; samples.s3C] = Ok samples.s3Dag.
Proof. vm_compute. reflexivity. Qed.

Example NewDAG_chain :
  NewDAG [samples.chainA; samples.chainB] = Ok samples.chainDag.
Proof. vm_compute. reflexivity. Qed.

(** Scenario S4: a two-node cycle is refused. *)
Example NewDAG_cycle :
  NewDAG [ samples.instanceOf "test" "a" ∅ None ["test.b"];
           samples.instanceOf "test" "b" ∅ None ["test.a"] ]
  = Err (errCircularDependency "test.a").
Proof. vm_compute. reflexivity. Qed.

(** Scenario S3: the diamond is grouped as [[A], [B1, B2], [C]]. *)
Example GetExecutionOrder_diamond :
  GetExecutionOrder samples.s3Dag =
  [ ["module:vpc.network"];
    ["aws:ec2:instance.web1"; "aws:ec2:instance.web2"];
    ["aws:elb:loadbalancer.lb"] ].
Proof. vm_compute. reflexivity. Qed.

Lemma GetExecutionOrder_levels_witness :
  ∃ L' level', L' < 2 ∧ GetExecutionOrder samples.s3Dag !! L' = Some level' ∧
               "aws:ec2:instance.web2" ∈ level'.
Proof.
  destruct (GetExecutionOrder_levels samples.s3Dag) as [Hdeps _].
  eapply (Hdeps 2 ["aws:elb:loadbalancer.lb"] "aws:elb:loadbalancer.lb"
            (samples.nodeOf samples.s3C []) "aws:ec2:instance.web2").
  - vm_compute. reflexivity.
  - set_solver.
  - vm_compute. reflexivity.
  - vm_compute. set_solver.
Defined.

End executor_claims.

(** ** Expressions and expansion *)

Module parser_spec.
Import gostrings gofmt config parser.

Section expressions.
Context (exprRun : string → gmap string Value → option Value).
Context (layout : Layout).

(** [evaluateExpr] never returns an error. *)
Lemma evaluateExpr_ok (p : Parser) (exprStr : string) :
  ∃ v, evaluateExpr exprRun p exprStr = Ok v.
Proof.
  unfold evaluateExpr. destruct (variables p !! exprStr); [by eexists|].
  destruct (isSimpleVariable exprStr); [by eexists|].
  destruct (exprRun exprStr (variables p)); by eexists.
Qed.

(** The pointer [&resourceCopy] and the struct it points to report the
    same address, so the struct is found visited and no field is
    processed. *)
Lemma processValue_struct_pointer (fuel : nat) (p : Parser) (addr : N)
    (fields : list (bool * rvalue)) :
  processValue exprRun fuel p (RPtr (Some (addr, RStruct (Some addr) fields))) =
  Ok (RPtr (Some (addr, RStruct (Some addr) fields))).
Proof.
  unfold processValue. simpl.
  rewrite bool_decide_eq_false_2 by set_solver.
  rewrite bool_decide_eq_true_2 by set_solver. done.
Qed.

Lemma processValue_resource (fuel : nat) (p : Parser) (r : Resource) :
  processValue exprRun fuel p (reflectResource layout r) = Ok (reflectResource layout r).
Proof. apply processValue_struct_pointer. Qed.

Lemma stringsOf_strings (l : list string) : stringsOf (RString true <$> l) = l.
Proof. unfold stringsOf. induction l as [|x l IH]; simpl; [done|]. by f_equal. Qed.

Lemma readResource_reflectResource (r : Resource) :
  readResource (reflectResource layout r) r = r.
Proof.
  destruct r. cbv [readResource reflectResource].
  cbn [Kind Name Count ForEach Properties DriftPolicy_ DependsOn].
  by rewrite stringsOf_strings.
Qed.


(** The name [createInstance] gives an instance created from [resource]
    with the iteration variables [vars]. *)
Definition instanceName (fuel : nat) (p : Parser) (resource : Resource)
    (vars : gmap string Value) : result string :=
  if Contains (Name resource) "${" then
    match evaluateExpression exprRun fuel
            {| variables := vars ∪ variables p |} (Name resource) with
    | Ok (VStr processedStr) => Ok processedStr
    | Ok _ => Ok (Name resource)
    | Err e => Err (errProcessingResourceName e)
    | Panic => Panic
    | OutOfFuel => OutOfFuel
    end
  else Ok (Name resource).

(** [createInstance]: only the name is substituted. *)
Lemma createInstance_eq (fuel : nat) (p : Parser) (resource : Resource)
    (vars : gmap string Value) :
  createInstance exprRun layout fuel p resource vars =
  (name ← instanceName fuel p resource vars;
   Ok {| iID := Kind resource +:+ "." +:+ name;
         iKind := Kind resource;
         iName := name;
         iProperties := Properties resource;
         iDriftPolicy := DriftPolicy_ resource;
         iDependsOn := DependsOn resource |}).
Proof.
  unfold createInstance, instanceName.
  destruct (if Contains _ _ then _ else _) as [name| | |]; simpl; try done.
  rewrite processValue_resource. cbn -[readResource reflectResource].
  rewrite readResource_reflectResource. by destruct resource.
Qed.

(** A fragment inside a longer string that names an unknown simple
    identifier is replaced by itself, so the loop of
    [evaluateExpression] never leaves: no amount of fuel gives a result. *)
Lemma evaluateExpression_mixed_unknown (fuel : nat) (p : Parser) :
  variables p !! "index" = None →
  evaluateExpression exprRun fuel p "web-${index}" = OutOfFuel.
Proof.
  intros Hunknown.
  assert (evaluateExpr exprRun p "index" = Ok (VStr "${index}")) as Heval.
  { unfold evaluateExpr. by rewrite Hunknown. }
  change (evaluateExpression exprRun fuel p "web-${index}")
    with (substituteLoop exprRun fuel p "web-${index}" "web-${index}").
  induction fuel as [|fuel IH]; [done|].
  change (substituteLoop exprRun (S fuel) p "web-${index}" "web-${index}")
    with (match evaluateExpr exprRun p "index" with
          | Ok value =>
              substituteLoop exprRun fuel p "web-${index}"
                ("web-" +:+ Sprint value +:+ "")
          | Err e => Err (errEvaluatingExpression "index" e)
          | Panic => Panic
          | OutOfFuel => OutOfFuel
          end).
  rewrite Heval. exact IH.
Qed.

End expressions.

End parser_spec.

(** ** Facts about the string functions *)

Module gostrings_spec.
Import gostrings.

Lemma HasPrefix_app (a b : string) : HasPrefix (a +:+ b) a = true.
Proof.
  unfold HasPrefix. induction a as [|c a IH]; simpl; [by destruct b|].
  by destruct (ascii_dec c c).
Qed.

Lemma HasSuffix_app (a b : string) : HasSuffix (a +:+ b) b = true.
Proof.
  induction a as [|c a IH].
  - change ("" +:+ b) with b. destruct b; cbn [HasSuffix];
      by rewrite bool_decide_eq_true_2.
  - change (String c a +:+ b) with (String c (a +:+ b)). cbn [HasSuffix].
    by case_bool_decide.
Qed.

Lemma Index_prefix (s substr : string) :
  HasPrefix s substr = true → Index s substr = Some 0.
Proof. intros H. destruct s; cbn [Index]; by rewrite H. Qed.

Lemma Contains_prefix (a b : string) : Contains (a +:+ b) a = true.
Proof. unfold Contains. by rewrite Index_prefix by apply HasPrefix_app. Qed.

Lemma take_app_length (a b : string) : take (String.length a) (a +:+ b) = a.
Proof. induction a as [|c a IH]; simpl; [by destruct b|]. by rewrite IH. Qed.

Lemma length_app (a b : string) :
  String.length (a +:+ b) = (String.length a + String.length b)%nat.
Proof. induction a as [|c a IH]; simpl; [done|]. by rewrite IH. Qed.

(** The body of a whole-string fragment. *)
Lemma slice_fragment (e : string) :
  slice 2 (String.length ("${" +:+ e +:+ "}") - 1) ("${" +:+ e +:+ "}") = e.
Proof.
  change ("${" +:+ e +:+ "}") with (String "$" (String "{" (e +:+ "}"))).
  unfold slice. cbn [drop String.length]. rewrite length_app. cbn [String.length].
  replace (S (S (String.length e + 1)) - 1 - 2)%nat with (String.length e) by lia.
  apply take_app_length.
Qed.

Lemma ContainsAny_cons (c : ascii) (s chars : string) :
  ContainsAny (String c s) chars = false →
  memAscii c chars = false ∧ ContainsAny s chars = false.
Proof. simpl. by intros ?%orb_false_iff. Qed.

(** A string free of braces adds no opening [${] when followed by [}]. *)
Lemma CountOpen_simple (e chars : string) :
  memAscii "{" chars = true →
  ContainsAny e chars = false →
  CountOpen (e +:+ "}") = 0.
Proof.
  intros Hbrace. induction e as [|c e IH]; [done|].
  intros [Hc He]%ContainsAny_cons. specialize (IH He).
  change (String c e +:+ "}") with (String c (e +:+ "}")).
  destruct (e +:+ "}") as [|c' s''] eqn:Hs; [done|].
  cbn [CountOpen]. fold CountOpen.
  destruct (bool_decide (c = "$"%char) && bool_decide (c' = "{"%char)) eqn:Hm;
    [|exact IH].
  apply andb_true_iff in Hm as [_ Hc'%bool_decide_eq_true]. subst c'.
  destruct e as [|c'' e]; [discriminate Hs|].
  injection Hs as -> _.
  apply ContainsAny_cons in He as [He _]. congruence.
Qed.

Lemma HasSuffix_fragment (e : string) : HasSuffix ("${" +:+ e +:+ "}") "}" = true.
Proof.
  change ("${" +:+ e +:+ "}") with (("${" +:+ e) +:+ "}"). apply HasSuffix_app.
Qed.

Lemma CountOpen_fragment (e chars : string) :
  memAscii "{" chars = true →
  ContainsAny e chars = false →
  CountOpen ("${" +:+ e +:+ "}") = 1%nat.
Proof.
  intros Hbrace He.
  change ("${" +:+ e +:+ "}") with (String "$" (String "{" (e +:+ "}"))).
  cbn [CountOpen]. rewrite !bool_decide_eq_true_2 by done. simpl andb.
  cbv iota. f_equal. by eapply CountOpen_simple.
Qed.

End gostrings_spec.

Module parser_claims.
Import gostrings gofmt config parser gostrings_spec parser_spec.

Section expansion.
Context (exprRun : string → gmap string Value → option Value).
Context (layout : Layout).

Lemma instancesFor_Forall2 {A} (create : A → result ResourceInstance)
    (xs : list A) (instances : list ResourceInstance) :
  instancesFor create xs = Ok instances →
  Forall2 (fun x instance => create x = Ok instance) xs instances.
Proof.
  revert instances. induction xs as [|x xs IH]; simpl; intros instances.
  - intros [= <-]. constructor.
  - destruct (create x) as [instance| | |] eqn:Hx; simpl; try done.
    destruct (instancesFor create xs) as [rest| | |]; simpl; try done.
    intros [= <-]. constructor; [done|]. by apply IH.
Qed.

(** Every instance of a successful expansion was made by
    [createInstance] from the declaration. *)
Lemma expandResource_created (fuel : nat) (p : Parser) (r : Resource)
    (instances : list ResourceInstance) :
  expandResource exprRun layout fuel p r = Ok instances →
  ∀ instance, instance ∈ instances →
    ∃ vars, createInstance exprRun layout fuel p r vars = Ok instance.
Proof.
  unfold expandResource. intros Hexp instance Hin.
  destruct (Count r) as [count|].
  - destruct (resolveCount exprRun p count) as [n| | |]; simpl in Hexp; try done.
    apply instancesFor_Forall2 in Hexp.
    destruct (list_elem_of_lookup_1 _ _ Hin) as [k Hk].
    destruct (Forall2_lookup_r _ _ _ _ _ Hexp Hk) as (i & _ & Hi). by eexists.
  - destruct (ForEach r) as [forEach|].
    + destruct (resolveForEach exprRun p forEach) as [items| | |];
        simpl in Hexp; try done.
      apply instancesFor_Forall2 in Hexp.
      destruct (list_elem_of_lookup_1 _ _ Hin) as [k Hk].
      destruct (Forall2_lookup_r _ _ _ _ _ Hexp Hk) as (i & _ & Hi). by eexists.
    + destruct (createInstance exprRun layout fuel p r ∅) as [i| | |] eqn:Hi;
        simpl in Hexp; try done.
      injection Hexp as <-. apply list_elem_of_singleton in Hin as ->. by eexists.
Qed.

Lemma ExpandResources_created (fuel : nat) (p : Parser) (resources : list Resource) :
  ∀ instances, ExpandResources exprRun layout fuel p resources = Ok instances →
  ∀ instance, instance ∈ instances →
    ∃ r vars, r ∈ resources ∧
              createInstance exprRun layout fuel p r vars = Ok instance.
Proof.
  induction resources as [|r rs IH]; simpl; intros instances.
  - intros [= <-] instance Hin. by apply elem_of_nil in Hin.
  - destruct (expandResource exprRun layout fuel p r) as [expanded| | |] eqn:Hr;
      simpl; try done.
    destruct (ExpandResources exprRun layout fuel p rs) as [rest| | |];
      simpl; try done.
    intros [= <-] instance [Hin|Hin]%elem_of_app.
    + destruct (expandResource_created _ _ _ _ Hr _ Hin) as [vars Hc].
      exists r, vars. split; [by left|done].
    + destruct (IH _ eq_refl _ Hin) as (r' & vars & Hr' & Hc).
      exists r', vars. split; [by right|done].
Qed.

(** A declaration without count, for_each or expression in its name
    expands to the one instance built from its fields. *)
Lemma expandResource_plain (fuel : nat) (p : Parser) (r : Resource) :
  Count r = None → ForEach r = None → Contains (Name r) "${" = false →
  expandResource exprRun layout fuel p r =
  Ok [ {| iID := Kind r +:+ "." +:+ Name r; iKind := Kind r; iName := Name r;
          iProperties := Properties r; iDriftPolicy := DriftPolicy_ r;
          iDependsOn := DependsOn r |} ].
Proof.
  intros Hc Hf Hn. unfold expandResource. rewrite Hc, Hf, createInstance_eq.
  unfold instanceName. by rewrite Hn.
Qed.

End expansion.

(** C7 (as amended).  Expansion makes no uniqueness check.  Every
    instance of a successful expansion has the ID kind + "." + name of
    its own kind and substituted name, the kind being that of one of the
    declarations; and a declaration without count, for_each or
    expression in its name, listed twice, expands successfully to two
    instances with the same ID. *)
Theorem ExpandResources_ids
    (exprRun : string → gmap string Value → option Value) (layout : Layout)
    (fuel : nat) (p : Parser) :
  (∀ resources instances,
      ExpandResources exprRun layout fuel p resources = Ok instances →
      ∀ instance, instance ∈ instances →
        iID instance = iKind instance +:+ "." +:+ iName instance ∧
        ∃ r, r ∈ resources ∧ iKind instance = Kind r) ∧
  (∀ r, Count r = None → ForEach r = None → Contains (Name r) "${" = false →
      ∃ instance,
        iID instance = Kind r +:+ "." +:+ Name r ∧
        ExpandResources exprRun layout fuel p [r; r] = Ok [instance; instance]).
Proof.
  split.
  - intros resources instances Hexp instance Hin.
    destruct (ExpandResources_created _ _ _ _ _ _ Hexp _ Hin)
      as (r & vars & Hr & Hc).
    rewrite createInstance_eq in Hc.
    destruct (instanceName exprRun fuel p r vars) as [name| | |];
      simpl in Hc; try done.
    injection Hc as <-. simpl. split; [done|]. by exists r.
  - intros r Hc Hf Hn. eexists. split; [|simpl].
    2: { rewrite (expandResource_plain _ _ _ _ _ Hc Hf Hn). simpl. reflexivity. }
    done.
Qed.

Lemma ExpandResources_ids_witness :
  ∃ instance,
    iID instance = "aws:s3:bucket.b" ∧
    ExpandResources samples.noExpr samples.layout 0 samples.noVariables
      [samples.bucket; samples.bucket] = Ok [instance; instance].
Proof.
  destruct (ExpandResources_ids samples.noExpr samples.layout 0 samples.noVariables)
    as [_ Hdup].
  apply (Hdup samples.bucket); reflexivity.
Defined.

(** C7 as stated fails: the same declaration listed twice expands
    without error to two instances with the ID "aws:s3:bucket.b".  (The
    names hold no expression, so the engine is not consulted.) *)
Lemma ExpandResources_duplicate_ids :
  fmap (M := list) iID <$>
    ExpandResources samples.noExpr samples.layout 0 samples.noVariables
      [samples.bucket; samples.bucket]
  = Ok ["aws:s3:bucket.b"; "aws:s3:bucket.b"].
Proof. vm_compute. reflexivity. Qed.

(** Scenario S1 (names): a count of 3 yields web-0, web-1 and web-2. *)
Example ExpandResources_count_three :
  fmap (M := list) iID <$>
    ExpandResources samples.noExpr samples.layout 1 samples.noVariables
      [samples.declaration "aws:ec2:instance" "web-${index}" (Some (VInt 3)) None]
  = Ok ["aws:ec2:instance.web-0"; "aws:ec2:instance.web-1";
        "aws:ec2:instance.web-2"].
Proof. vm_compute. reflexivity. Qed.

(** C9 (as amended).  A declaration whose count resolves to 0 expands to
    no instance; so does one whose count resolves to a negative integer:
    the loop [for i := 0; i < count; i++] does not run and no error is
    returned. *)
Theorem expandResource_count_not_positive
    (exprRun : string → gmap string Value → option Value) (layout : Layout)
    (fuel : nat) (p : Parser) (r : Resource) (count : Value) (n : Z) :
  Count r = Some count →
  resolveCount exprRun p count = Ok n →
  (n ≤ 0)%Z →
  expandResource exprRun layout fuel p r = Ok [].
Proof.
  intros Hc Hn Hle. unfold expandResource. rewrite Hc, Hn. simpl.
  replace (Z.to_nat n) with 0%nat by lia. done.
Qed.

Lemma expandResource_count_not_positive_witness :
  resolveCount samples.noExpr samples.negativeCount (VStr "replicas") = Ok (-2)%Z ∧
  expandResource samples.noExpr samples.layout 0 samples.negativeCount
    samples.replicated = Ok [].
Proof.
  split; [reflexivity|].
  apply (expandResource_count_not_positive samples.noExpr samples.layout 0
           samples.negativeCount samples.replicated (VStr "replicas") (-2)%Z).
  - reflexivity.
  - reflexivity.
  - lia.
Defined.

(** C9 as stated fails: count = -1 is not rejected, the declaration
    expands without error to zero instances. *)
Lemma expandResource_negative_count_accepted :
  expandResource samples.noExpr samples.layout 0 samples.noVariables
    (samples.declaration "aws:ec2:instance" "web-${index}" (Some (VInt (-1))) None)
  = Ok [].
Proof. vm_compute. reflexivity. Qed.

(** C6 (as amended).  A declaration with for_each resolving to a
    sequence expands, on success, to one instance per element, in order,
    each made by [createInstance] with the variables of its element: an
    element that is a string binds region to it and does not bind item;
    an element of any other type binds item to it and does not bind
    region. *)
Theorem expandResource_forEach_scope
    (exprRun : string → gmap string Value → option Value) (layout : Layout)
    (fuel : nat) (p : Parser) (r : Resource) (forEach : Value)
    (items : list Value) (instances : list ResourceInstance) :
  Count r = None →
  ForEach r = Some forEach →
  resolveForEach exprRun p forEach = Ok items →
  expandResource exprRun layout fuel p r = Ok instances →
  Forall2
    (fun item instance =>
       createInstance exprRun layout fuel p r (forEachVars item) = Ok instance ∧
       match item with
       | VStr _ => forEachVars item !! "region" = Some item ∧
                   forEachVars item !! "item" = None
       | _ => forEachVars item !! "item" = Some item ∧
              forEachVars item !! "region" = None
       end)
    items instances.
Proof.
  intros Hc Hf Hitems. unfold expandResource. rewrite Hc, Hf, Hitems. simpl.
  intros Hexp%instancesFor_Forall2.
  eapply Forall2_impl; [exact Hexp|].
  intros item instance Hi. split; [done|]. by destruct item.
Qed.

Lemma expandResource_forEach_scope_witness :
  Forall2
    (fun item instance =>
       createInstance samples.noExpr samples.layout 1 samples.noVariables
         samples.s2Logs (forEachVars item) = Ok instance ∧
       match item with
       | VStr _ => forEachVars item !! "region" = Some item ∧
                   forEachVars item !! "item" = None
       | _ => forEachVars item !! "item" = Some item ∧
              forEachVars item !! "region" = None
       end)
    [VStr "us-east-1"; VStr "us-west-2"]
    [ samples.instanceOf "aws:s3:bucket" "logs-us-east-1"
        {[ "versioning" := VBool true ]} None [];
      samples.instanceOf "aws:s3:bucket" "logs-us-west-2"
        {[ "versioning" := VBool true ]} None [] ].
Proof.
  apply (expandResource_forEach_scope samples.noExpr samples.layout 1
           samples.noVariables samples.s2Logs
           (VList [VStr "us-east-1"; VStr "us-west-2"])).
  - reflexivity.
  - reflexivity.
  - reflexivity.
  - vm_compute. reflexivity.
Defined.

(** C6 as stated fails: for the string element "us-east-1" the variable
    item is not bound, so a declaration named "${item}" expands to an
    instance that is still named "${item}".  (An unbound simple
    identifier is returned before the engine is consulted.) *)
Lemma forEach_string_item_unbound :
  forEachVars (VStr "us-east-1") !! "item" = None ∧
  fmap (M := list) iName <$>
    expandResource samples.noExpr samples.layout 0 samples.noVariables
      (samples.declaration "aws:s3:bucket" "${item}" None
         (Some (VList [VStr "us-east-1"])))
  = Ok ["${item}"].
Proof. split; vm_compute; reflexivity. Qed.




End parser_claims.

(** ** The trace of provider calls *)

Module cloud_spec.
Import config providers cloud.

Section traces.
Context {World : Type}.

(** [c'] is [c] after more calls, each of which satisfies [P]. *)
Definition extends (P : Call → Prop) (c c' : Cloud World) : Prop :=
  ∃ issued, calls c' = (calls c ++ issued)%list ∧ Forall P issued.

Lemma extends_refl (P : Call → Prop) (c : Cloud World) : extends P c c.
Proof. exists []. split; [by rewrite app_nil_r|constructor]. Qed.

Lemma extends_trans (P : Call → Prop) (c1 c2 c3 : Cloud World) :
  extends P c1 c2 → extends P c2 c3 → extends P c1 c3.
Proof.
  intros (l1 & H1 & HP1) (l2 & H2 & HP2). exists (l1 ++ l2)%list. split.
  - by rewrite H2, H1, app_assoc.
  - by apply Forall_app.
Qed.

Lemma extends_impl (P Q : Call → Prop) (c c' : Cloud World) :
  (∀ call, P call → Q call) → extends P c c' → extends Q c c'.
Proof.
  intros HPQ (l & H & HP). exists l. split; [done|].
  eapply Forall_impl; [exact HP|done].
Qed.

Lemma extends_logged (P : Call → Prop) (c : Cloud World) (w : World) (ev : Call) :
  P ev → extends P c (logged c w ev).
Proof. intros HP. exists [ev]. split; [done|]. by constructor. Qed.

Lemma extends_elem (P : Call → Prop) (c c' : Cloud World) (call : Call) :
  extends P c c' → call ∈ calls c → call ∈ calls c'.
Proof. intros (l & -> & _) Hin. apply elem_of_app. by left. Qed.

Lemma doCreate_calls (p : Provider World) (i : ResourceInstance) (c : Cloud World) :
  calls (doCreate p i c).2 = (calls c ++ [CallCreate i])%list.
Proof. unfold doCreate. by destruct (Create p i (world c)). Qed.

Lemma doUpdate_calls (p : Provider World) (i : ResourceInstance)
    (cur : gmap string Value) (c : Cloud World) :
  calls (doUpdate p i cur c).2 = (calls c ++ [CallUpdate i cur])%list.
Proof. unfold doUpdate. by destruct (Update p i cur (world c)). Qed.

Lemma doGetCurrentState_calls (p : Provider World) (i : ResourceInstance)
    (c : Cloud World) :
  calls (doGetCurrentState p i c).2 = (calls c ++ [CallGetCurrentState i])%list.
Proof. unfold doGetCurrentState. by destruct (GetCurrentState p i (world c)). Qed.

Lemma doInitialize_calls (name : string) (p : Provider World)
    (cfg : gmap string Value) (c : Cloud World) :
  calls (doInitialize name p cfg c).2 = (calls c ++ [CallInitialize name])%list.
Proof. unfold doInitialize. by destruct (Initialize p cfg (world c)). Qed.

Lemma extends_calls (P : Call → Prop) (c c' : Cloud World) (ev : Call) :
  calls c' = (calls c ++ [ev])%list → P ev → extends P c c'.
Proof. intros H HP. exists [ev]. split; [done|]. by constructor. Qed.

End traces.

End cloud_spec.

(** ** Drift detection and auto-heal on the trace *)

Module drift_trace.
Import config providers cloud drift cloud_spec.

Section traces.
Context {World : Type}.

Definition reads (call : Call) : Prop := isMutation call = false.

Lemma DetectDrift_reads (d : Detector World) (instance : ResourceInstance)
    (c : Cloud World) :
  extends reads c (DetectDrift d instance c).2.
Proof.
  unfold DetectDrift. destruct (providers_ d !! _) as [provider|];
    [|apply extends_refl].
  pose proof (doGetCurrentState_calls provider instance c) as Hcalls.
  destruct (doGetCurrentState provider instance c) as [[[st|]| | |] c'];
    simpl in *; by eapply extends_calls.
Qed.

Lemma detectLoop_reads (d : Detector World) (instances : list ResourceInstance) :
  ∀ (results : gmap string DriftResult) (c : Cloud World),
    extends reads c (detectLoop d instances results c).2.
Proof.
  induction instances as [|instance rest IH]; intros results c; simpl;
    [apply extends_refl|].
  pose proof (DetectDrift_reads d instance c) as Hone.
  destruct (DetectDrift d instance c) as [[r| | |] c']; simpl in *; try done.
  eapply extends_trans; [exact Hone|apply IH].
Qed.

(** What [AutoHeal] may issue for [instance]: a create or an update of
    that very instance. *)
Definition healsInstance (instance : ResourceInstance) (call : Call) : Prop :=
  call = CallCreate instance ∨ ∃ cur, call = CallUpdate instance cur.

Lemma AutoHeal_heals (d : Detector World) (instance : ResourceInstance)
    (driftResult : DriftResult) (c : Cloud World) :
  extends (healsInstance instance) c (AutoHeal d instance driftResult c).2.
Proof.
  unfold AutoHeal. destruct (iDriftPolicy instance) as [policy|];
    [|apply extends_refl].
  destruct (negb (config.AutoHeal policy)); [apply extends_refl|].
  destruct (providers_ d !! _) as [provider|]; [|apply extends_refl].
  destruct (CurrentState driftResult) as [cur|].
  - destruct (HasDrift driftResult); [|apply extends_refl].
    eapply extends_calls; [apply doUpdate_calls|]. right. by eexists.
  - eapply extends_calls; [apply doCreate_calls|]. by left.
Qed.

End traces.

End drift_trace.

(** ** The controllers *)

Module cmd_spec.
Import config providers cloud executor cmd cloud_spec drift_trace.

Section commands.
Context {World : Type}.
Context (exprRun : string → gmap string Value → option Value).
Context (layout : parser.Layout).
Context (ParseFile : string → result (Config * parser.Parser)).
Context (awsProvider : providers.Provider World).
Context (fuel : nat).

Lemma initializeProviders_reads (ps : list (string * config.Provider)) :
  ∀ (registry : gmap string (providers.Provider World)) (installed : list string)
    (c : Cloud World),
    extends reads c (initializeProviders awsProvider ps registry installed c).2.
Proof.
  induction ps as [|[providerName providerConfig] rest IH];
    intros registry installed c; simpl; [apply extends_refl|].
  case_bool_decide; [|apply extends_refl].
  pose proof (doInitialize_calls providerName awsProvider
                (<["profile" := VStr (Profile providerConfig)]>
                   {["region" := VStr (Region providerConfig)]}) c) as Hcalls.
  destruct (doInitialize _ _ _ c) as [[e|] c']; simpl in *.
  - by eapply extends_calls.
  - eapply extends_trans; [by eapply extends_calls|apply IH].
Qed.

(** A create or update issued by auto-heal for an instance whose policy
    has autoHeal set and notifyOnly unset, and whose drift was detected. *)
Definition autoHealed (driftResults : gmap string DriftResult)
    (instances : list ResourceInstance) (call : Call) : Prop :=
  ∃ instance policy driftResult,
    instance ∈ instances ∧ healsInstance instance call ∧
    iDriftPolicy instance = Some policy ∧
    AutoHeal policy = true ∧ NotifyOnly policy = false ∧
    driftResults !! iID instance = Some driftResult ∧
    HasDrift driftResult = true.

Lemma alignInstance_calls (detector : drift.Detector World)
    (driftResults : gmap string DriftResult) (instance : ResourceInstance)
    (counts : AlignCounts) (c : Cloud World) :
  extends (autoHealed driftResults [instance]) c
    (alignInstance detector driftResults instance counts c).2.
Proof.
  unfold alignInstance.
  destruct (driftResults !! iID instance) as [driftResult|] eqn:Hdr;
    [|apply extends_refl].
  destruct (HasDrift driftResult) eqn:Hdrift; [|apply extends_refl]. simpl.
  destruct (iDriftPolicy instance) as [policy|] eqn:Hpolicy; [|apply extends_refl].
  destruct (NotifyOnly policy) eqn:Hnotify; [apply extends_refl|].
  destruct (AutoHeal policy) eqn:Hheal; [|apply extends_refl].
  pose proof (AutoHeal_heals detector instance driftResult c) as Hcalls.
  destruct (drift.AutoHeal detector instance driftResult c) as [[e|] c'];
    simpl in *; (eapply extends_impl; [|exact Hcalls]);
    intros call Hcall; exists instance, policy, driftResult;
    (split; [by apply list_elem_of_singleton|done]).
Qed.

Lemma alignLoop_calls (detector : drift.Detector World)
    (driftResults : gmap string DriftResult) (instances : list ResourceInstance) :
  ∀ (counts : AlignCounts) (c : Cloud World),
    extends (autoHealed driftResults instances) c
      (alignLoop detector driftResults instances counts c).2.
Proof.
  induction instances as [|instance rest IH]; intros counts c; simpl;
    [apply extends_refl|].
  pose proof (alignInstance_calls detector driftResults instance counts c) as Hone.
  destruct (alignInstance detector driftResults instance counts c) as [counts' c'].
  simpl in Hone. eapply extends_trans.
  - eapply extends_impl; [|exact Hone].
    intros call (i & policy & dr & ->%list_elem_of_singleton & H).
    exists instance, policy, dr. split; [by left|done].
  - eapply extends_impl; [|apply IH].
    intros call (i & policy & dr & Hin & H).
    exists i, policy, dr. split; [by right|done].
Qed.

End commands.

End cmd_spec.

Module align_claims.
Import config providers cloud executor cmd cloud_spec drift_trace cmd_spec.

(** C10.  In an align tick, a drifted instance whose policy has
    notifyOnly = true causes no provider call at all, whatever its
    autoHeal flag; a drifted instance with autoHeal = true and
    notifyOnly = false is handed to [AutoHeal]; and every create, update
    or delete the tick issues is a create or update of an instance whose
    policy has autoHeal = true and notifyOnly = false. *)
Theorem align_notifyOnly_precedence {World : Type}
    (exprRun : string → gmap string Value → option Value)
    (layout : parser.Layout)
    (ParseFile : string → result (Config * parser.Parser))
    (awsProvider : providers.Provider World) (fuel : nat) :
  (∀ detector driftResults instance policy counts (c : Cloud World),
      iDriftPolicy instance = Some policy →
      NotifyOnly policy = true →
      (alignInstance detector driftResults instance counts c).2 = c) ∧
  (∀ detector driftResults instance policy driftResult counts (c : Cloud World),
      driftResults !! iID instance = Some driftResult →
      HasDrift driftResult = true →
      iDriftPolicy instance = Some policy →
      NotifyOnly policy = false →
      AutoHeal policy = true →
      (alignInstance detector driftResults instance counts c).2 =
      (drift.AutoHeal detector instance driftResult c).2) ∧
  (∀ configFile (c : Cloud World),
      extends
        (fun call =>
           isMutation call = true →
           ∃ instance policy,
             healsInstance instance call ∧
             iDriftPolicy instance = Some policy ∧
             AutoHeal policy = true ∧ NotifyOnly policy = false)
        c
        (runAlignmentOnce exprRun layout ParseFile awsProvider fuel configFile c).2).
Proof.
  split; [|split].
  - intros detector driftResults instance policy counts c Hpolicy Hnotify.
    unfold alignInstance. destruct (driftResults !! iID instance); [|done].
    destruct (negb _); [done|]. by rewrite Hpolicy, Hnotify.
  - intros detector driftResults instance policy driftResult counts c
      Hdr Hdrift Hpolicy Hnotify Hheal.
    unfold alignInstance. rewrite Hdr, Hdrift, Hpolicy, Hnotify, Hheal. simpl.
    by destruct (drift.AutoHeal detector instance driftResult c) as [[e|] c'].
  - intros configFile c.
    assert (∀ c1 c2 : Cloud World, extends reads c1 c2 →
              extends (fun call =>
                 isMutation call = true →
                 ∃ instance policy,
                   healsInstance instance call ∧
                   iDriftPolicy instance = Some policy ∧
                   AutoHeal policy = true ∧ NotifyOnly policy = false) c1 c2)
      as Hreads.
    { intros c1 c2. apply extends_impl. unfold reads. congruence. }
    unfold runAlignmentOnce.
    destruct (ParseFile configFile) as [[cfg p]| | |]; simpl;
      try apply extends_refl.
    pose proof (initializeProviders_reads awsProvider (Providers cfg) ∅ [] c)
      as Hinit.
    destruct (initializeProviders awsProvider (Providers cfg) ∅ [] c)
      as [[[registry| | |] installed] c1]; simpl in *; try by apply Hreads.
    destruct (parser.ExpandResources exprRun layout fuel p (Resources cfg))
      as [instances| | |]; simpl; try by apply Hreads.
    pose proof (detectLoop_reads {| drift.providers_ := registry |}
                  instances ∅ c1) as Hdetect.
    unfold wrapC, drift.DetectDriftBatch.
    destruct (drift.detectLoop _ instances ∅ c1) as [[driftResults| | |] c2];
      simpl in *; try (apply Hreads; by eapply extends_trans).
    pose proof (alignLoop_calls {| drift.providers_ := registry |}
                  driftResults instances noCounts c2) as Halign.
    destruct (alignLoop _ driftResults instances noCounts c2) as [counts c3].
    simpl in *. eapply extends_trans; [apply Hreads; by eapply extends_trans|].
    eapply extends_impl; [|exact Halign].
    intros call (instance & policy & dr & _ & Hheals & Hp & Ha & Hn & _) _.
    by exists instance, policy.
Qed.

Lemma align_notifyOnly_precedence_witness :
  (alignInstance samples.s5Detector samples.notifiedDrift samples.notified
     noCounts samples.emptyCloud).2 = samples.emptyCloud.
Proof.
  destruct (align_notifyOnly_precedence samples.noExpr samples.layout
              (fun _ => Err (errExternal "no such file"))
              (samples.memProvider []) 0) as [Hnotify _].
  apply (Hnotify samples.s5Detector samples.notifiedDrift samples.notified
           {| AutoHeal := true; NotifyOnly := true |}); reflexivity.
Defined.

End align_claims.

Module commit_spec.
Import config providers cloud executor cmd cloud_spec.

Section commit.
Context {World : Type}.
Context (schedule : list string → list string).

(** The two graphs hold the same instances under the same IDs. *)
Definition sameInstances (dag dag' : DAG) : Prop :=
  ∀ nodeID, Instance <$> GetNode dag nodeID = Instance <$> GetNode dag' nodeID.

Lemma SetNodeStatus_sameInstances (dag : DAG) (nodeID : string)
    (status : NodeStatus) (e : option error) :
  sameInstances dag (SetNodeStatus dag nodeID status e).
Proof.
  intros id. unfold GetNode, SetNodeStatus. simpl. rewrite lookup_alter.
  case_decide; [subst|done]. by destruct (nodes dag !! id).
Qed.

Lemma sameInstances_trans (d1 d2 d3 : DAG) :
  sameInstances d1 d2 → sameInstances d2 d3 → sameInstances d1 d3.
Proof. intros H1 H2 id. by rewrite H1. Qed.

(** The provider call the goroutine of [nodeID] issues: none without a
    node, a drift result or a registered provider; else a create when
    the current state is absent, an update when there is drift. *)
Definition issued (registry : gmap string (providers.Provider World))
    (driftResults : gmap string DriftResult) (dag : DAG) (nodeID : string)
    : list Call :=
  match Instance <$> GetNode dag nodeID, driftResults !! nodeID with
  | Some instance, Some driftResult =>
      match registry !! extractProviderName (iKind instance) with
      | Some _ =>
          match CurrentState driftResult with
          | None => [CallCreate instance]
          | Some currentState =>
              if HasDrift driftResult then [CallUpdate instance currentState]
              else []
          end
      | None => []
      end
  | _, _ => []
  end.

Lemma issued_sameInstances (registry : gmap string (providers.Provider World))
    (driftResults : gmap string DriftResult) (dag dag' : DAG) (nodeID : string) :
  sameInstances dag dag' →
  issued registry driftResults dag nodeID = issued registry driftResults dag' nodeID.
Proof. intros H. unfold issued. by rewrite H. Qed.

Lemma executeNode_calls (registry : gmap string (providers.Provider World))
    (driftResults : gmap string DriftResult) (nodeID : string) (dag : DAG)
    (c : Cloud World) :
  sameInstances dag (executeNode registry driftResults nodeID dag c).1.2 ∧
  calls (executeNode registry driftResults nodeID dag c).2 =
  (calls c ++ issued registry driftResults dag nodeID)%list.
Proof.
  unfold executeNode, issued.
  destruct (GetNode dag nodeID) as [node|]; simpl;
    [|split; [done|by rewrite app_nil_r]].
  destruct (driftResults !! nodeID) as [driftResult|]; simpl;
    [|split; [done|by rewrite app_nil_r]].
  destruct (registry !! _) as [provider|]; simpl.
  2: { split; [|by rewrite app_nil_r].
       eapply sameInstances_trans; apply SetNodeStatus_sameInstances. }
  destruct (CurrentState driftResult) as [cur|].
  - destruct (HasDrift driftResult).
    + pose proof (doUpdate_calls provider (Instance node) cur c) as Hcalls.
      destruct (doUpdate provider (Instance node) cur c) as [[e|] c'];
        simpl in *; (split; [|done]);
        eapply sameInstances_trans; apply SetNodeStatus_sameInstances.
    + simpl. split; [|by rewrite app_nil_r].
      eapply sameInstances_trans; apply SetNodeStatus_sameInstances.
  - pose proof (doCreate_calls provider (Instance node) c) as Hcalls.
    destruct (doCreate provider (Instance node) c) as [[e|] c'];
      simpl in *; (split; [|done]);
      eapply sameInstances_trans; apply SetNodeStatus_sameInstances.
Qed.

Lemma runLevel_calls (registry : gmap string (providers.Provider World))
    (driftResults : gmap string DriftResult) (order : list string) :
  ∀ (result : ExecutionResult) (dag : DAG) (c : Cloud World),
    sameInstances dag (runLevel registry driftResults order result dag c).1.2 ∧
    calls (runLevel registry driftResults order result dag c).2 =
    (calls c ++ mjoin (issued registry driftResults dag <$> order))%list.
Proof.
  induction order as [|nodeID rest IH]; intros result dag c; simpl.
  - split; [done|by rewrite app_nil_r].
  - pose proof (executeNode_calls registry driftResults nodeID dag c) as [Hs Hc].
    destruct (executeNode registry driftResults nodeID dag c) as [[res dag'] c'].
    simpl in *. destruct (IH (collect result res) dag' c') as [Hs' Hc']. split.
    + by eapply sameInstances_trans.
    + assert (issued registry driftResults dag' <$> rest =
              issued registry driftResults dag <$> rest) as Heq.
      { apply list_fmap_ext. intros _ id _. symmetry.
        by apply issued_sameInstances. }
      by rewrite Hc', Hc, Heq, <-app_assoc.
Qed.

Lemma runLevels_calls (registry : gmap string (providers.Provider World))
    (driftResults : gmap string DriftResult) (levels : list (list string)) :
  ∀ (result : ExecutionResult) (dag : DAG) (c : Cloud World),
    calls (runLevels schedule registry driftResults levels result dag c).2 =
    (calls c ++
     mjoin ((fun level => mjoin (issued registry driftResults dag <$> schedule level))
            <$> levels))%list.
Proof.
  induction levels as [|level rest IH]; intros result dag c; simpl.
  - by rewrite app_nil_r.
  - pose proof (runLevel_calls registry driftResults (schedule level) result dag c)
      as [Hs Hc].
    destruct (runLevel registry driftResults (schedule level) result dag c)
      as [[result' dag'] c'].
    simpl in *.
    assert ((fun lvl => mjoin (issued registry driftResults dag' <$> schedule lvl))
              <$> rest =
            (fun lvl => mjoin (issued registry driftResults dag <$> schedule lvl))
              <$> rest) as Heq.
    { apply list_fmap_ext. intros _ lvl _. f_equal.
      apply list_fmap_ext. intros _ id _. symmetry.
      by apply issued_sameInstances. }
    by rewrite IH, Hc, Heq, <-app_assoc.
Qed.

End commit.

End commit_spec.

Module commit_claims.
Import config providers cloud executor cmd cloud_spec commit_spec.




End commit_claims.

(** ** The policy gate *)

Module policy_spec.
Import config policy.

(** [evaluateRule] never returns an error. *)
Lemma evaluateRule_ok (rule : PolicyRule) (instance : ResourceInstance) :
  ∃ violated, evaluateRule rule instance = Ok violated.
Proof.
  unfold evaluateRule.
  repeat match goal with
         | |- context [if ?b then _ else _] => destruct b
         | |- context [match ?x with _ => _ end] => destruct x
         end; by eexists.
Qed.

Lemma evaluateRules_ok (rs : list PolicyRule) (instance : ResourceInstance) :
  ∃ violations, evaluateRules rs instance = Ok violations.
Proof.
  induction rs as [|rule rest [violations IH]]; simpl; [by eexists|].
  destruct (evaluateRule_ok rule instance) as [violated ->]. simpl.
  rewrite IH. simpl. by eexists.
Qed.

Lemma LoadBuiltinPolicies_ok :
  LoadBuiltinPolicies NewPolicyEngine = Ok {| rules := builtinRules |}.
Proof. reflexivity. Qed.

(** [HasErrors] holds exactly when some violation has severity error. *)
Lemma HasErrors_iff (violations : list PolicyViolation) :
  HasErrors violations = true ↔
  Exists (fun v => vSeverity v = "error") violations.
Proof.
  induction violations as [|v rest IH]; simpl.
  - split; [done|]. by intros ?%Exists_nil.
  - rewrite Exists_cons. case_bool_decide; [tauto|]. rewrite IH. tauto.
Qed.

Lemma HasErrors_false_iff (violations : list PolicyViolation) :
  HasErrors violations = false ↔
  Forall (fun v => vSeverity v ≠ "error") violations.
Proof.
  rewrite <-not_true_iff_false, HasErrors_iff. split.
  - intros H. apply Forall_forall. intros v Hin Hv. apply H.
    apply Exists_exists. by exists v.
  - intros H (v & Hin & Hv)%Exists_exists.
    by eapply (proj1 (Forall_forall _ _) H).
Qed.

End policy_spec.

Module bootstrap_spec.
Import config providers cloud cmd cloud_spec drift_trace cmd_spec policy_spec.

Section bootstrap.
Context {World : Type}.
Context (exprRun : string → gmap string Value → option Value).
Context (layout : parser.Layout).
Context (ParseFile : string → result (Config * parser.Parser)).
Context (awsProvider : providers.Provider World).
Context (statLocal : string → option error).
Context (FormatBootstrapResult : output.BootstrapResult → option error).
Context (fuel : nat).

Lemma validateInstances_reads (registry : gmap string (providers.Provider World))
    (instances : list ResourceInstance) :
  ∀ c : Cloud World, extends reads c (validateInstances registry instances c).2.
Proof.
  induction instances as [|instance rest IH]; intros c; simpl;
    [apply extends_refl|].
  destruct (registry !! _) as [provider|]; [|apply extends_refl].
  unfold doValidateResource.
  destruct (ValidateResource provider instance); simpl.
  - apply (extends_calls _ _ _ (CallValidateResource instance)); reflexivity.
  - eapply extends_trans; [|apply IH].
    apply (extends_calls _ _ _ (CallValidateResource instance)); reflexivity.
Qed.

Lemma validateConfiguration_reads (cfg : Config)
    (registry : gmap string (providers.Provider World)) (p : parser.Parser)
    (c : Cloud World) :
  extends reads c (validateConfiguration exprRun layout fuel cfg registry p c).2.
Proof.
  unfold validateConfiguration. destruct (find _ _); [apply extends_refl|].
  destruct (parser.ExpandResources exprRun layout fuel p (Resources cfg))
    as [instances| | |]; simpl; try apply extends_refl.
  pose proof (validateInstances_reads registry instances c) as H.
  by destruct (validateInstances registry instances c) as [[e|] c'].
Qed.

(** Bootstrap issues no create, update or delete, however it ends. *)
Lemma runBootstrap_reads (configFile : string) (c : Cloud World) :
  extends reads c
    (runBootstrap exprRun layout ParseFile awsProvider statLocal
       FormatBootstrapResult fuel configFile c).2.
Proof.
  unfold runBootstrap.
  destruct (ParseFile configFile) as [[cfg p]| | |]; simpl;
    try apply extends_refl.
  pose proof (initializeProviders_reads awsProvider (Providers cfg) ∅ [] c)
    as Hinit.
  destruct (initializeProviders awsProvider (Providers cfg) ∅ [] c)
    as [[[registry| | |] installed] c1]; simpl in *; try done.
  pose proof (validateConfiguration_reads cfg registry p c1) as Hval.
  destruct (validateConfiguration exprRun layout fuel cfg registry p c1)
    as [[[]| | |] c2]; simpl in *; try (by eapply extends_trans).
  destruct (parser.ExpandResources exprRun layout fuel p (Resources cfg));
    simpl; by eapply extends_trans.
Qed.

End bootstrap.

End bootstrap_spec.

Module bootstrap_claims.
Import config providers cloud cmd cloud_spec drift_trace cmd_spec policy_spec
  bootstrap_spec.

(** C5.  Bootstrap issues no create, update or delete call, however it
    ends.  When it reaches the policy evaluation and this yields a
    violation of severity error, it fails there: it returns the
    policy-violation error with success = false, before the modules are
    loaded.  When no violation has severity error (warnings and info
    only), the gate lets bootstrap continue, and with no module to load and
    a formatter that succeeds it returns no error with success = true. *)
Theorem bootstrap_policy_gate {World : Type}
    (exprRun : string → gmap string Value → option Value)
    (layout : parser.Layout)
    (ParseFile : string → result (Config * parser.Parser))
    (awsProvider : providers.Provider World)
    (statLocal : string → option error)
    (FormatBootstrapResult : output.BootstrapResult → option error)
    (fuel : nat) (configFile : string) (c : Cloud World) :
  let run :=
    runBootstrap exprRun layout ParseFile awsProvider statLocal
      FormatBootstrapResult fuel configFile c in
  extends (fun call => isMutation call = false) c run.2 ∧
  ∀ cfg p registry installed c1 c2 instances violations,
    ParseFile configFile = Ok (cfg, p) →
    initializeProviders awsProvider (Providers cfg) ∅ [] c
      = (Ok registry, installed, c1) →
    validateConfiguration exprRun layout fuel cfg registry p c1 = (Ok (), c2) →
    parser.ExpandResources exprRun layout fuel p (Resources cfg) = Ok instances →
    evaluateAll {| policy.rules := policy.builtinRules |} instances = Ok violations →
    (policy.HasErrors violations = true ↔
       Exists (fun v => policy.vSeverity v = "error") violations) ∧
    (Exists (fun v => policy.vSeverity v = "error") violations →
       ∃ r, run = (Ok (r, Some errPolicyViolations), c2) ∧
            output.Success r = false ∧
            output.Error r = Some errPolicyViolations ∧
            output.ModulesLoaded r = 0%nat ∧
            output.PolicyViolations r = violations) ∧
    (Forall (fun v => policy.vSeverity v ≠ "error") violations →
       (∃ r, output.PolicyViolations r = violations ∧
             run = (Ok (finishBootstrap statLocal FormatBootstrapResult cfg r), c2)) ∧
       (Modules cfg = [] → (∀ r, FormatBootstrapResult r = None) →
          ∃ r, run = (Ok (r, None), c2) ∧ output.Success r = true ∧
               output.PolicyViolations r = violations)).
Proof.
  intros run. split; [apply runBootstrap_reads|].
  intros cfg p registry installed c1 c2 instances violations
    Hparse Hinit Hval Hexp Hpol.
  assert (run = (policyGate statLocal FormatBootstrapResult cfg
                   {| output.Success := false;
                      output.ProvidersInstalled := installed;
                      output.ResourceCount := length instances;
                      output.ModulesLoaded := 0;
                      output.PolicyViolations := [];
                      output.Error := None |} instances, c2)) as ->.
  { unfold run, runBootstrap. by rewrite Hparse, Hinit, Hval, Hexp. }
  unfold policyGate. rewrite LoadBuiltinPolicies_ok, Hpol.
  split; [apply HasErrors_iff|]. split.
  - intros Herr%HasErrors_iff. rewrite Herr. unfold failWith.
    eexists. split; [reflexivity|]. simpl. done.
  - intros Hok%HasErrors_false_iff. rewrite Hok. split.
    { eexists. split; [|reflexivity]. reflexivity. }
    intros Hmodules Hformat. unfold finishBootstrap. rewrite Hmodules. simpl.
    rewrite Hformat. eexists. split; [reflexivity|]. simpl. done.
Qed.

Lemma bootstrap_policy_gate_witness :
  ∃ r c2,
    runBootstrap samples.noExpr samples.layout
      (samples.s6Parse [samples.s6Bucket; samples.s6Large])
      (samples.memProvider []) (fun _ => None) (fun _ => None) 0
      "infra.yaml" samples.emptyCloud
    = (Ok (r, Some errPolicyViolations), c2) ∧
    output.Success r = false ∧
    policy.vSeverity <$> output.PolicyViolations r = ["warning"; "warning"; "error"; "warning"].
Proof.
  destruct (bootstrap_policy_gate samples.noExpr samples.layout
              (samples.s6Parse [samples.s6Bucket; samples.s6Large])
              (samples.memProvider []) (fun _ => None) (fun _ => None) 0
              "infra.yaml" samples.emptyCloud) as [_ Hgate].
  edestruct Hgate as (_ & Hfails & _).
  - reflexivity.
  - reflexivity.
  - reflexivity.
  - reflexivity.
  - reflexivity.
  - destruct Hfails as (r & Hrun & Hsuccess & _ & _ & Hviolations).
    + apply Exists_cons_tl, Exists_cons_tl, Exists_cons_hd. reflexivity.
    + exists r. eexists. split; [exact Hrun|]. split; [exact Hsuccess|].
      rewrite Hviolations. reflexivity.
Defined.

(** Scenario S6: the bucket alone yields two warnings and bootstrap
    succeeds. *)
Example bootstrap_warnings_only :
  (fun run => (policy.vSeverity <$> output.PolicyViolations run.1,
               output.Success run.1, run.2)) <$>
  (runBootstrap samples.noExpr samples.layout (samples.s6Parse [samples.s6Bucket])
     (samples.memProvider []) (fun _ => None) (fun _ => None) 0
     "infra.yaml" samples.emptyCloud).1
  = Ok (["warning"; "warning"], true, None).
Proof. vm_compute. reflexivity. Qed.

End bootstrap_claims.

(** * Further properties

    Properties of the code beyond the claims of the specification. *)

(** ** Dynamic values *)

Module value_spec.

Fixpoint vsize (v : Value) : nat :=
  match v with
  | VList l => S (foldr (fun x acc => vsize x + acc)%nat 0%nat l)
  | VMap m => S (map_fold (fun _ x acc => vsize x + acc)%nat 0%nat m)
  | _ => 0%nat
  end.

Lemma vsize_elem (l : list Value) (x : Value) :
  x ∈ l → (vsize x < vsize (VList l))%nat.
Proof.
  intros Hx. simpl. apply Nat.lt_succ_r.
  induction Hx as [x l|x y l _ IH]; simpl; lia.
Qed.

Lemma vsize_lookup (m : gmap string Value) (k : string) (x : Value) :
  m !! k = Some x → (vsize x < vsize (VMap m))%nat.
Proof.
  simpl. intros Hk. apply Nat.lt_succ_r. revert k x Hk.
  apply (map_fold_weak_ind
           (fun r (m : gmap string Value) => ∀ k x, m !! k = Some x → (vsize x ≤ r)%nat)).
  - intros k x Hk. by rewrite lookup_empty in Hk.
  - intros i y m' r Hi IH k x Hk.
    destruct (decide (k = i)) as [->|Hne].
    + rewrite lookup_insert_eq in Hk. injection Hk as ->. lia.
    + rewrite lookup_insert_ne in Hk by done. specialize (IH k x Hk). lia.
Qed.

(** The map loop of [DeepEqual]. *)
Lemma entries_equal (f : Value → Value → bool) (m1 m2 : gmap string Value) :
  map_fold (fun k a acc =>
              acc && match m2 !! k with
                     | Some b => f a b
                     | None => false
                     end) true m1 = true ↔
  ∀ k a, m1 !! k = Some a → ∃ b, m2 !! k = Some b ∧ f a b = true.
Proof.
  apply (map_fold_weak_ind
           (fun r (m : gmap string Value) =>
              r = true ↔ ∀ k a, m !! k = Some a → ∃ b, m2 !! k = Some b ∧ f a b = true)).
  - split; [|done]. intros _ k a Hk. by rewrite lookup_empty in Hk.
  - intros i x m r Hi IH. rewrite andb_true_iff, IH. split.
    + intros [Hm Hx] k a Hk. destruct (decide (k = i)) as [->|Hne].
      * rewrite lookup_insert_eq in Hk. injection Hk as <-.
        destruct (m2 !! i) as [b|]; [|done]. by exists b.
      * rewrite lookup_insert_ne in Hk by done. by apply Hm.
    + intros H. split.
      * intros k a Hk. apply H. rewrite lookup_insert_ne; [done|congruence].
      * destruct (H i x) as (b & -> & Hb); [by rewrite lookup_insert_eq|done].
Qed.

Lemma DeepEqual_VList (l1 l2 : list Value) :
  DeepEqual (VList l1) (VList l2) = true ↔ Forall2 (fun a b => DeepEqual a b = true) l1 l2.
Proof.
  simpl. revert l2. induction l1 as [|a l1 IH]; intros [|b l2]; simpl.
  - split; [constructor|done].
  - split; [done|]. intros H; inversion H.
  - split; [done|]. intros H; inversion H.
  - rewrite andb_true_iff, IH. split.
    + intros [? ?]; by constructor.
    + intros H; inversion H; by subst.
Qed.

Lemma DeepEqual_VMap (m1 m2 : gmap string Value) :
  DeepEqual (VMap m1) (VMap m2) = true ↔
  size m1 = size m2 ∧
  ∀ k a, m1 !! k = Some a → ∃ b, m2 !! k = Some b ∧ DeepEqual a b = true.
Proof.
  simpl. rewrite andb_true_iff, bool_decide_eq_true.
  by rewrite (entries_equal DeepEqual).
Qed.

Lemma DeepEqual_eq_size (n : nat) :
  ∀ x y, (vsize x < n)%nat → (DeepEqual x y = true ↔ x = y).
Proof.
  induction n as [|n IH]; [lia|].
  intros x y Hn.
  destruct x as [ |a|a|t a|a| |l1| |m1], y as [ |b|b|u b|b| |l2| |m2];
    try (split; [done|congruence]); try done.
  - simpl. rewrite bool_decide_eq_true. split; congruence.
  - simpl. rewrite bool_decide_eq_true. split; congruence.
  - simpl. rewrite andb_true_iff, !bool_decide_eq_true. split; [intros [-> ->]; done|].
    intros [= -> ->]. done.
  - simpl. rewrite bool_decide_eq_true. split; congruence.
  - rewrite DeepEqual_VList. split.
    + intros H. f_equal.
      assert (Forall (fun a => (vsize a < n)%nat) l1) as Hall.
      { apply Forall_forall. intros a Ha. apply vsize_elem in Ha. lia. }
      clear Hn. induction H as [|a b l1 l2 Hab _ IHl]; [done|].
      inversion Hall as [|? ? Ha Hl]; subst.
      f_equal; [by apply (IH a b Ha)|by apply IHl].
    + intros [= <-].
      assert (Forall (fun a => (vsize a < n)%nat) l1) as Hall.
      { apply Forall_forall. intros a Ha. apply vsize_elem in Ha. lia. }
      clear Hn. induction Hall as [|a l1 Ha _ IHl]; constructor; [|done].
      by apply (IH a a Ha).
  - rewrite DeepEqual_VMap. split.
    + intros [Hsize Hall]. f_equal.
      assert (m1 ⊆ m2) as Hsub.
      { apply map_subseteq_spec. intros k a Hk.
        destruct (Hall k a Hk) as (b & Hb & Hab).
        apply (IH a b) in Hab; [congruence|].
        apply vsize_lookup in Hk. lia. }
      apply map_eq. intros k.
      destruct (m1 !! k) as [a|] eqn:Hk.
      * symmetry. by apply (lookup_weaken m1 m2).
      * destruct (m2 !! k) as [b|] eqn:Hk2; [|done].
        exfalso.
        assert (m1 ⊆ delete k m2) as Hsub'.
        { apply map_subseteq_spec. intros j a Hj.
          rewrite lookup_delete_ne by congruence.
          by apply (lookup_weaken m1 m2). }
        apply map_subseteq_size in Hsub'.
        rewrite map_size_delete, Hk2 in Hsub'.
        assert (size m2 ≠ 0) by (apply map_size_non_empty_iff; intros ->; by rewrite lookup_empty in Hk2).
        simpl in Hsub'. lia.
    + intros [= <-]. split; [done|]. intros k a Hk. exists a. split; [done|].
      apply (IH a a); [|done]. apply vsize_lookup in Hk. lia.
Qed.

Lemma DeepEqual_eq (x y : Value) : DeepEqual x y = true ↔ x = y.
Proof. apply (DeepEqual_eq_size (S (vsize x))). lia. Qed.

End value_spec.

(** ** Drift: comparison *)

Module drift_more.
Import gostrings config providers cloud drift drift_spec value_spec.

Lemma valuesEqual_eq (c d : Value) : valuesEqual c d = true ↔ c = d.
Proof.
  destruct c, d; try (split; [done|congruence]); try done;
    apply DeepEqual_eq.
Qed.

Lemma diffAt_None (key : string) (c d : option Value) :
  diffAt key c d = None ↔
  match d, c with
  | Some dv, Some cv => cv = dv
  | Some _, None => False
  | None, Some _ => isMetadataField key = true
  | None, None => True
  end.
Proof.
  destruct d as [dv|], c as [cv|]; simpl; try done.
  - destruct (valuesEqual cv dv) eqn:He.
    + apply valuesEqual_eq in He. done.
    + split; [done|]. intros ->.
      assert (valuesEqual dv dv = true) by by apply valuesEqual_eq. congruence.
  - destruct (isMetadataField key); split; done.
Qed.

Lemma compareStates_empty (current desired : gmap string Value) :
  compareStates current desired = ∅ ↔
  desired ⊆ current ∧
  ∀ key, is_Some (current !! key) → desired !! key = None →
         isMetadataField key = true.
Proof.
  rewrite map_empty. setoid_rewrite compareStates_lookup.
  setoid_rewrite diffAt_None. rewrite map_subseteq_spec. split.
  - intros H. split.
    + intros key dv Hd. specialize (H key). rewrite Hd in H.
      destruct (current !! key); [congruence|done].
    + intros key [cv Hc] Hd. specialize (H key). by rewrite Hc, Hd in H.
  - intros [Hsub Hmeta] key.
    destruct (desired !! key) as [dv|] eqn:Hd.
    + by rewrite (Hsub key dv Hd).
    + destruct (current !! key) as [cv|] eqn:Hc; [|done].
      apply Hmeta; [by rewrite Hc|done].
Qed.

(** The live state of the adapter holds int32 numbers where a decoded
    configuration holds int: such a property is reported as modified even
    when the two numbers are the same, so a database whose allocated
    storage is as declared still drifts. *)
Lemma compareStates_sized_int (current desired : gmap string Value)
    (key : string) (t : IntType) (n m : Z) :
  current !! key = Some (VSized t n) →
  desired !! key = Some (VInt m) →
  compareStates current desired !! key =
  Some {| Property := key; CurrentValue := VSized t n; DesiredValue := VInt m;
          DriftType_ := DriftTypeModified |}.
Proof.
  intros Hc Hd. rewrite compareStates_lookup, Hc, Hd. reflexivity.
Qed.

(** X2.  What [compareStates] records under a key, read both ways.  The
    difference stored under [key] names that key, and it is of type added
    exactly when the key is desired but not live, modified exactly when it
    is in both states with values that are not the same value of the same
    dynamic type (a live int32 against a declared int of the same number
    is modified), and removed exactly when it is live only and is not a
    metadata field; the values it carries are those of the two states
    (nil on the missing side).  No other key has an entry. *)
Theorem compareStates_classifies (current desired : gmap string Value)
    (key : string) (diff : DriftDifference) :
  compareStates current desired !! key = Some diff ↔
  Property diff = key ∧
  match DriftType_ diff with
  | DriftTypeAdded =>
      current !! key = None ∧ desired !! key = Some (DesiredValue diff) ∧
      CurrentValue diff = VNil
  | DriftTypeModified =>
      current !! key = Some (CurrentValue diff) ∧
      desired !! key = Some (DesiredValue diff) ∧
      CurrentValue diff ≠ DesiredValue diff
  | DriftTypeRemoved =>
      current !! key = Some (CurrentValue diff) ∧ desired !! key = None ∧
      DesiredValue diff = VNil ∧ isMetadataField key = false
  end.
Proof.
  rewrite compareStates_lookup. unfold diffAt.
  destruct diff as [prop cv dv ty]; simpl.
  destruct (desired !! key) as [d|] eqn:Hd, (current !! key) as [c|] eqn:Hc.
  - destruct (valuesEqual c d) eqn:He.
    + apply valuesEqual_eq in He. subst.
      split; [done|]. intros [_ H]. destruct ty; intuition congruence.
    + assert (c ≠ d) as Hne.
      { intros ->. assert (valuesEqual d d = true) by by apply valuesEqual_eq.
        congruence. }
      unfold modified. split.
      * intros [= <- <- <- <-]. done.
      * intros [-> H]. destruct ty; intuition congruence.
  - unfold added. split.
    + intros [= <- <- <- <-]. done.
    + intros [-> H]. destruct ty; intuition congruence.
  - destruct (isMetadataField key) eqn:Hm.
    + split; [done|]. intros [_ H]. destruct ty; intuition congruence.
    + unfold removed. split.
      * intros [= <- <- <- <-]. done.
      * intros [-> H]. destruct ty; intuition congruence.
  - split; [done|]. intros [_ H]. destruct ty; intuition congruence.
Qed.

(** X3.  [DetectDrift] reports no drift exactly when the resource exists,
    every desired property is live with the same value of the same
    dynamic type, and every live property that is not desired is a
    metadata field. *)
Theorem DetectDrift_aligned {World : Type} (d : Detector World)
    (instance : ResourceInstance) (c c' : Cloud World) (r : DriftResult) :
  DetectDrift d instance c = (Ok r, c') →
  (HasDrift r = false ↔
   ∃ currentState,
     CurrentState r = Some currentState ∧
     iProperties instance ⊆ currentState ∧
     ∀ key, is_Some (currentState !! key) → iProperties instance !! key = None →
            isMetadataField key = true).
Proof.
  unfold DetectDrift.
  destruct (providers_ d !! _) as [provider|]; [|done].
  destruct (doGetCurrentState provider instance c) as [[[currentState|]| | |] c1];
    try done; intros [= <- <-]; simpl.
  - rewrite bool_decide_eq_false. split.
    + intros H. exists currentState. split; [done|].
      apply compareStates_empty, map_size_empty_iff. lia.
    + intros (? & [= <-] & H). apply compareStates_empty in H.
      rewrite H, map_size_empty. lia.
  - split; [done|]. by intros (? & ? & _).
Qed.

Lemma DetectDrift_aligned_witness :
  ∃ r c',
    DetectDrift samples.s5Detector samples.s5Bucket samples.alignedCloud = (Ok r, c') ∧
    (HasDrift r = false ↔
     ∃ currentState,
       CurrentState r = Some currentState ∧
       iProperties samples.s5Bucket ⊆ currentState ∧
       ∀ key, is_Some (currentState !! key) →
              iProperties samples.s5Bucket !! key = None →
              isMetadataField key = true).
Proof.
  eexists _, _. split; [reflexivity|].
  eapply (DetectDrift_aligned samples.s5Detector samples.s5Bucket
            samples.alignedCloud).
  reflexivity.
Defined.

End drift_more.

(** ** Drift: batches, healing and the summary *)

Module drift_batch.
Import config providers cloud drift drift_spec cloud_spec value_spec drift_more.

Section batch.
Context {World : Type}.

Lemma DetectDrift_calls (d : Detector World) (instance : ResourceInstance)
    (c : Cloud World) :
  match (DetectDrift d instance c).1 with
  | Err (errProviderNotFoundFor _ _) =>
      providers_ d !! extractProviderName (iKind instance) = None ∧
      (DetectDrift d instance c).2 = c
  | _ =>
      calls (DetectDrift d instance c).2 =
      (calls c ++ [CallGetCurrentState instance])%list
  end.
Proof.
  unfold DetectDrift.
  destruct (providers_ d !! _) as [provider|]; [|done].
  pose proof (doGetCurrentState_calls provider instance c) as Hcalls.
  by destruct (doGetCurrentState provider instance c) as [[[st|]| | |] c'].
Qed.

Lemma detectLoop_calls (d : Detector World) (instances : list ResourceInstance) :
  ∀ (results : gmap string DriftResult) (c : Cloud World),
    ∃ n : nat,
      calls (detectLoop d instances results c).2 =
        (calls c ++ (CallGetCurrentState <$> take n instances))%list ∧
      match (detectLoop d instances results c).1 with
      | Ok _ => n = length instances
      | Err e =>
          ∃ instance cause, instance ∈ instances ∧
                            e = errDetectDrift (iID instance) cause
      | _ => True
      end.
Proof.
  induction instances as [|instance rest IH]; intros results c; simpl.
  - exists 0%nat. by rewrite app_nil_r.
  - pose proof (DetectDrift_calls d instance c) as Hone.
    destruct (DetectDrift d instance c) as [[r|e| |] c1]; simpl in *.
    + destruct (IH (<[iID instance := r]> results) c1) as (n & Hcalls & Hres).
      exists (S n). split.
      * rewrite Hcalls, Hone. simpl. by rewrite <- app_assoc.
      * destruct (detectLoop d rest _ c1).1; try done.
        -- by f_equal.
        -- destruct Hres as (i & cause & Hi & ->). exists i, cause.
           split; [by right|done].
    + assert (∃ n : nat, calls c1 =
                (calls c ++ (CallGetCurrentState <$> take n (instance :: rest)))%list)
        as [n Hn].
      { destruct e; try (exists 1%nat; simpl; by rewrite Hone).
        destruct Hone as [_ ->]. exists 0%nat. by rewrite app_nil_r. }
      exists n. split; [done|]. exists instance, e. split; [by left|done].
    + exists 1%nat. by rewrite Hone.
    + exists 1%nat. by rewrite Hone.
Qed.

Lemma detectLoop_results (d : Detector World) (instances : list ResourceInstance) :
  ∀ (results results' : gmap string DriftResult) (c c' : Cloud World),
    detectLoop d instances results c = (Ok results', c') →
    dom results' = list_to_set (iID <$> instances) ∪ dom results ∧
    ∀ id r, results' !! id = Some r →
      ((id ∉ iID <$> instances) ∧ results !! id = Some r) ∨
      ∃ before instance after c1 c2,
        instances = (before ++ instance :: after)%list ∧
        iID instance = id ∧ (id ∉ iID <$> after) ∧
        DetectDrift d instance c1 = (Ok r, c2).
Proof.
  induction instances as [|instance rest IH]; intros results results' c c'; simpl.
  - intros [= <- <-]. split; [by rewrite (left_id_L ∅ (∪))|].
    intros id r Hr. left. split; [|done]. apply not_elem_of_nil.
  - destruct (DetectDrift d instance c) as [[r0| | |] c1] eqn:Hdetect; try done.
    intros Hloop. destruct (IH _ _ _ _ Hloop) as [Hdom Hall]. split.
    + rewrite Hdom, dom_insert_L. apply set_eq. intros x.
      rewrite !elem_of_union. tauto.
    + intros id r Hr. destruct (Hall id r Hr) as [[Hnot Hin]|Hlater].
      * destruct (decide (id = iID instance)) as [->|Hne].
        -- rewrite lookup_insert_eq in Hin. injection Hin as ->.
           right. exists [], instance, rest, c, c1. done.
        -- rewrite lookup_insert_ne in Hin by done. left. split; [|done].
           rewrite not_elem_of_cons. done.
      * destruct Hlater as (before & i & after & c2 & c3 & -> & Hid & Hnot & Hd).
        right. exists (instance :: before), i, after, c2, c3. done.
Qed.

(** X4.  [DetectDriftBatch] only reads: whatever its outcome, the calls
    it issues are one [GetCurrentState] for each instance of a prefix of
    the list, in list order, and the whole list when it succeeds.  An error
    it returns is the error of one instance, wrapped with that instance's
    ID.  On success the result map has exactly the instance IDs as keys,
    and the entry under an ID is what [DetectDrift] returned for the last
    instance of the list with that ID. *)
Theorem DetectDriftBatch_outcome (d : Detector World)
    (instances : list ResourceInstance) (c : Cloud World) :
  (∃ n : nat,
     calls (DetectDriftBatch d instances c).2 =
       (calls c ++ (CallGetCurrentState <$> take n instances))%list ∧
     match (DetectDriftBatch d instances c).1 with
     | Ok _ => n = length instances
     | Err e =>
         ∃ instance cause, instance ∈ instances ∧
                           e = errDetectDrift (iID instance) cause
     | _ => True
     end) ∧
  ∀ results c',
    DetectDriftBatch d instances c = (Ok results, c') →
    dom results = list_to_set (iID <$> instances) ∧
    ∀ id r, results !! id = Some r →
      ∃ before instance after c1 c2,
        instances = (before ++ instance :: after)%list ∧
        iID instance = id ∧ (id ∉ iID <$> after) ∧
        DetectDrift d instance c1 = (Ok r, c2).
Proof.
  split; [apply detectLoop_calls|].
  intros results c' H. destruct (detectLoop_results _ _ _ _ _ _ H) as [Hdom Hall].
  split.
  - by rewrite Hdom, dom_empty_L, (right_id_L ∅ (∪)).
  - intros id r Hr. destruct (Hall id r Hr) as [[_ Hin]|Hlater]; [|done].
    by rewrite lookup_empty in Hin.
Qed.

(** X5.  Healing what was just detected.  For an instance whose policy
    sets autoHeal, [AutoHeal] applied to the result of a successful
    [DetectDrift] by the same detector always finds the provider; it
    creates the resource when the detected state is absent, does nothing
    when the live state shows no difference from the desired one, and
    otherwise updates the resource, passing the live state. *)
Theorem AutoHeal_after_DetectDrift (d : Detector World)
    (instance : ResourceInstance) (policy : DriftPolicy) (r : DriftResult)
    (c c1 : Cloud World) :
  DetectDrift d instance c = (Ok r, c1) →
  iDriftPolicy instance = Some policy →
  config.AutoHeal policy = true →
  ∃ provider,
    providers_ d !! extractProviderName (iKind instance) = Some provider ∧
    AutoHeal d instance r c1 =
    match CurrentState r with
    | None => doCreate provider instance c1
    | Some currentState =>
        if bool_decide (compareStates currentState (iProperties instance) = ∅)
        then (None, c1)
        else doUpdate provider instance currentState c1
    end.
Proof.
  unfold DetectDrift, AutoHeal. intros Hdetect -> ->. simpl.
  destruct (providers_ d !! _) as [provider|]; [|done].
  exists provider. split; [done|].
  destruct (doGetCurrentState provider instance c) as [[[currentState|]| | |] c2];
    try done; injection Hdetect as <- <-; simpl; [|done].
  destruct (decide (compareStates currentState (iProperties instance) = ∅))
    as [Hempty|Hempty].
  - rewrite (bool_decide_eq_true_2 _ Hempty), Hempty, map_size_empty. done.
  - rewrite (bool_decide_eq_false_2 _ Hempty).
    rewrite bool_decide_eq_true_2; [done|].
    apply map_size_non_empty_iff in Hempty. lia.
Qed.

End batch.

Lemma AutoHeal_after_DetectDrift_witness :
  ∃ provider,
    providers_ samples.s5Detector !! extractProviderName (iKind samples.notified) =
      Some provider ∧
    AutoHeal samples.s5Detector samples.notified (samples.absent samples.notified)
      {| world := ∅; calls := [CallGetCurrentState samples.notified] |} =
    doCreate provider samples.notified
      {| world := ∅; calls := [CallGetCurrentState samples.notified] |}.
Proof.
  apply (AutoHeal_after_DetectDrift samples.s5Detector samples.notified
           {| config.AutoHeal := true; NotifyOnly := true |}
           (samples.absent samples.notified) samples.emptyCloud
           {| world := ∅; calls := [CallGetCurrentState samples.notified] |}).
  - reflexivity.
  - reflexivity.
  - reflexivity.
Defined.

Lemma GenerateDriftSummary_fold (results : gmap string DriftResult)
    (init : DriftSummary) :
  let summary :=
    map_fold (fun (_ : string) result summary =>
                if HasDrift result
                then {| TotalResources := TotalResources summary;
                        ResourcesWithDrift := S (ResourcesWithDrift summary);
                        DriftResults := DriftResults summary |}
                else summary) init results in
  TotalResources summary = TotalResources init ∧
  DriftResults summary = DriftResults init ∧
  ResourcesWithDrift summary =
    (ResourcesWithDrift init +
     size (filter (fun entry => HasDrift entry.2 = true) results))%nat.
Proof.
  simpl.
  apply (map_fold_weak_ind
           (fun summary (m : gmap string DriftResult) =>
              TotalResources summary = TotalResources init ∧
              DriftResults summary = DriftResults init ∧
              ResourcesWithDrift summary =
                (ResourcesWithDrift init +
                 size (filter (fun entry => HasDrift entry.2 = true) m))%nat)).
  - rewrite map_filter_empty, map_size_empty. repeat split; lia.
  - intros id result m summary Hid (Htotal & Hresults & Hcount).
    destruct (HasDrift result) eqn:Hdrift; simpl.
    + rewrite map_filter_insert_True by done.
      rewrite map_size_insert_None; [repeat split; try done; lia|].
      by rewrite map_lookup_filter_None_2; [|left].
    + rewrite map_filter_insert_not' ; [done|simpl; congruence|].
      intros y. by rewrite Hid.
Qed.

(** [GenerateDriftSummary]: the results themselves, their number, and
    the number of those that report drift. *)
Lemma GenerateDriftSummary_counts (results : gmap string DriftResult) :
  TotalResources (GenerateDriftSummary results) = size results ∧
  DriftResults (GenerateDriftSummary results) = results ∧
  ResourcesWithDrift (GenerateDriftSummary results) =
    size (filter (fun entry => HasDrift entry.2 = true) results) ∧
  (ResourcesWithDrift (GenerateDriftSummary results)
   ≤ TotalResources (GenerateDriftSummary results))%nat.
Proof.
  destruct (GenerateDriftSummary_fold results
              {| TotalResources := size results; ResourcesWithDrift := 0;
                 DriftResults := results |}) as (Htotal & Hresults & Hcount).
  unfold GenerateDriftSummary. rewrite Htotal, Hresults, Hcount. simpl.
  repeat split; try done.
  apply map_subseteq_size, map_filter_subseteq.
Qed.

End drift_batch.

(** ** The execution order *)

Module executor_more.
Import config executor executor_spec.

Lemma SortStrings_not_nil (l : list string) : l ≠ [] → SortStrings l ≠ [].
Proof.
  intros Hl Hs. apply Hl.
  apply Permutation_nil_r. rewrite <- Hs. unfold SortStrings.
  by rewrite merge_sort_Permutation.
Qed.

Lemma SortStrings_NoDup (l : list string) : NoDup l → NoDup (SortStrings l).
Proof. unfold SortStrings. by rewrite merge_sort_Permutation. Qed.

Lemma levelLoop_partition (fuel : nat) (d : DAG) :
  ∀ (processed : gset string) (levels : list (list string)),
    levelLoop fuel d processed = Some levels →
    NoDup (mjoin levels) ∧
    (∀ id, id ∈ mjoin levels → (id ∉ processed) ∧ is_Some (nodes d !! id)) ∧
    Forall (fun level => level ≠ []) levels.
Proof.
  induction fuel as [|fuel IH]; intros processed levels;
    rewrite levelLoop_unfold; case_bool_decide;
    destruct (collectLevel d processed) as [|id0 rest] eqn:Hlevel;
    try (intros [= <-]; simpl; split; [constructor|];
         split; [by intros ? ?%elem_of_nil|constructor]);
    try done.
  rewrite <- Hlevel.
  destruct (levelLoop fuel d _) as [levels'|] eqn:Hloop; [|done].
  intros [= <-]. destruct (IH _ _ Hloop) as (Hnodup & Hin & Hne).
  simpl. split; [|split].
  - apply NoDup_app. split; [apply SortStrings_NoDup, collectLevel_NoDup|].
    split; [|done]. intros id Hid Hid'. apply Hin in Hid' as [Hnot _].
    apply Hnot, elem_of_union. left. by apply elem_of_list_to_set.
  - intros id [Hid|Hid]%elem_of_app.
    + apply SortStrings_elem, collectLevel_spec in Hid
        as (Hnot & node & Hnode & _). by rewrite Hnode.
    + apply Hin in Hid as [Hnot Hnode]. split; [|done].
      intros Hp. apply Hnot, elem_of_union. by right.
  - constructor; [|done]. apply SortStrings_not_nil. by rewrite Hlevel.
Qed.

Lemma levelLoop_earliest (fuel : nat) (d : DAG) :
  ∀ (processed : gset string) (levels : list (list string)),
    levelLoop fuel d processed = Some levels →
    ∀ (L : nat) (level : list string) (N : string),
      levels !! S L = Some level → N ∈ level →
      ∃ node dep level',
        nodes d !! N = Some node ∧ dep ∈ Dependencies node ∧
        levels !! L = Some level' ∧ dep ∈ level'.
Proof.
  induction fuel as [|fuel IH]; intros processed levels;
    rewrite levelLoop_unfold; case_bool_decide;
    destruct (collectLevel d processed) as [|id0 rest] eqn:Hlevel;
    try (by intros [= <-]); try done.
  rewrite <- Hlevel.
  destruct (levelLoop fuel d _) as [levels'|] eqn:Hloop; [|done].
  intros [= <-] L level N Hlookup HN. simpl in Hlookup.
  destruct L as [|L].
  - pose proof Hloop as Hnext. rewrite levelLoop_unfold in Hnext.
    set (processed' := list_to_set (SortStrings (collectLevel d processed)) ∪ processed)
      in *.
    destruct (bool_decide (size processed' < size (nodes d)));
      [|by injection Hnext as <-].
    destruct (collectLevel d processed') as [|id1 rest1] eqn:Hlevel1;
      [by injection Hnext as <-|].
    rewrite <- Hlevel1 in Hnext. destruct fuel as [|fuel']; [done|].
    destruct (levelLoop fuel' d _) as [levels''|]; [|done].
    injection Hnext as <-. injection Hlookup as <-.
    apply SortStrings_elem, collectLevel_spec in HN as (Hnot & node & Hnode & Hcan).
    assert (N ∉ processed) as Hnot'.
    { intros Hp. apply Hnot, elem_of_union. by right. }
    assert (N ∉ collectLevel d processed) as Hearlier.
    { intros Hin. apply Hnot, elem_of_union. left.
      by apply elem_of_list_to_set, SortStrings_elem. }
    destruct (canExecute processed node) eqn:Hcan'.
    { exfalso. apply Hearlier, collectLevel_spec. split; [done|]. by exists node. }
    apply canExecute_false in Hcan' as (dep & Hdep & Hdepnot).
    exists node, dep, (SortStrings (collectLevel d processed)).
    repeat split; try done.
    rewrite canExecute_spec in Hcan. apply Hcan in Hdep.
    apply elem_of_union in Hdep as [Hdep|Hdep]; [|done].
    by apply elem_of_list_to_set in Hdep.
  - destruct (IH _ _ Hloop L level N Hlookup HN)
      as (node & dep & level' & Hnode & Hdep & Hl & Hin).
    by exists node, dep, level'.
Qed.

(** X9.  The levels of [GetExecutionOrder] never repeat a node: no ID
    occurs twice, in one level or in two; every ID in a level is a node
    of the graph; and no level is empty. *)
Theorem GetExecutionOrder_partition (d : DAG) :
  NoDup (mjoin (GetExecutionOrder d)) ∧
  (∀ id, id ∈ mjoin (GetExecutionOrder d) → is_Some (nodes d !! id)) ∧
  Forall (fun level => level ≠ []) (GetExecutionOrder d).
Proof.
  destruct (levelLoop_partition _ _ _ _ (GetExecutionOrder_levelLoop d))
    as (Hnodup & Hin & Hne).
  split; [done|]. split; [|done]. intros id Hid. by apply Hin.
Qed.

(** X10.  Every node is placed as early as its dependencies allow: a
    node of a level after the first has a dependency in the level just
    before it. *)
Theorem GetExecutionOrder_earliest (d : DAG) (L : nat) (level : list string)
    (N : string) :
  GetExecutionOrder d !! S L = Some level → N ∈ level →
  ∃ node dep level',
    nodes d !! N = Some node ∧ dep ∈ Dependencies node ∧
    GetExecutionOrder d !! L = Some level' ∧ dep ∈ level'.
Proof. apply (levelLoop_earliest _ _ _ _ (GetExecutionOrder_levelLoop d)). Qed.

Lemma GetExecutionOrder_earliest_witness :
  ∃ node dep level',
    nodes samples.s3Dag !! "aws:elb:loadbalancer.lb" = Some node ∧
    dep ∈ Dependencies node ∧
    GetExecutionOrder samples.s3Dag !! 1%nat = Some level' ∧ dep ∈ level'.
Proof.
  apply (GetExecutionOrder_earliest samples.s3Dag 1
           ["aws:elb:loadbalancer.lb"] "aws:elb:loadbalancer.lb").
  - vm_compute. reflexivity.
  - apply list_elem_of_singleton. reflexivity.
Defined.

Lemma GetExecutionOrder_elements (d : DAG) (id : string) :
  closed d → acyclic d →
  id ∈ mjoin (GetExecutionOrder d) ↔ is_Some (nodes d !! id).
Proof.
  intros Hclosed Hacyclic. split.
  - intros Hid.
    by apply (levelLoop_partition _ _ _ _ (GetExecutionOrder_levelLoop d)) in Hid
      as [_ Hnode].
  - intros Hnode.
    destruct (GetExecutionOrder_complete d id Hclosed Hacyclic Hnode)
      as (L & level & Hlevel & Hid).
    apply list_elem_of_join. exists level. split; [done|].
    by eapply list_elem_of_lookup_2.
Qed.

(** The form of [closed] that can be decided on a concrete graph. *)
Lemma closed_check (d : DAG) :
  map_Forall (fun _ node =>
                Forall (fun dep => is_Some (nodes d !! dep)) (Dependencies node))
             (nodes d) →
  closed d.
Proof.
  intros H id node dep Hnode Hdep. apply H in Hnode.
  rewrite Forall_forall in Hnode. by apply Hnode.
Qed.

(** On a graph whose dependencies all name nodes and have a ranking,
    the levels together are the nodes of the graph, each once. *)
Lemma GetExecutionOrder_permutation (d : DAG) :
  closed d → acyclic d →
  mjoin (GetExecutionOrder d) ≡ₚ (map_to_list (nodes d)).*1.
Proof.
  intros Hclosed Hacyclic. apply NoDup_Permutation.
  - apply (levelLoop_partition _ _ _ _ (GetExecutionOrder_levelLoop d)).
  - apply NoDup_fst_map_to_list.
  - intros id. rewrite GetExecutionOrder_elements by done.
    rewrite list_elem_of_fmap. split.
    + intros [node Hnode]. exists (id, node). split; [done|].
      by apply elem_of_map_to_list.
    + intros ([id' node] & -> & Hin%elem_of_map_to_list). by exists node.
Qed.

End executor_more.

(** ** Building the graph *)

Module newdag_spec.
Import config executor executor_spec.

(** [n'] is [n] with more dependencies, each of them a node of [ns]. *)
Definition extended (ns : gmap string DAGNode) (n n' : DAGNode) : Prop :=
  ID n' = ID n ∧ Instance n' = Instance n ∧
  Status n' = Status n ∧ Error n' = Error n ∧
  ∃ more, Dependencies n' = (Dependencies n ++ more)%list ∧
          Forall (fun dep => is_Some (ns !! dep)) more.

Definition grows (ns ns' : gmap string DAGNode) : Prop :=
  ∀ id, option_Forall2 (extended ns) (ns !! id) (ns' !! id).

Lemma extended_refl (ns : gmap string DAGNode) (n : DAGNode) : extended ns n n.
Proof. repeat split. exists []. by rewrite app_nil_r. Qed.

Lemma grows_refl (ns : gmap string DAGNode) : grows ns ns.
Proof.
  intros id. destruct (ns !! id); constructor. apply extended_refl.
Qed.

Lemma grows_is_Some (ns ns' : gmap string DAGNode) (id : string) :
  grows ns ns' → is_Some (ns !! id) ↔ is_Some (ns' !! id).
Proof.
  intros H. specialize (H id).
  inversion H; split; intros [? ?]; by eauto.
Qed.

Lemma grows_trans (ns1 ns2 ns3 : gmap string DAGNode) :
  grows ns1 ns2 → grows ns2 ns3 → grows ns1 ns3.
Proof.
  intros H12 H23 id. pose proof (H12 id) as Ha. pose proof (H23 id) as Hb.
  destruct Ha as [n1 n2 Ha|]; inversion Hb as [? n3 Hb'|]; subst; constructor.
  destruct Ha as (? & ? & ? & ? & more1 & Hd1 & Hm1).
  destruct Hb' as (? & ? & ? & ? & more2 & Hd2 & Hm2).
  repeat split; try congruence.
  exists (more1 ++ more2)%list. split.
  - by rewrite Hd2, Hd1, app_assoc.
  - apply Forall_app. split; [done|].
    eapply Forall_impl; [exact Hm2|]. intros dep Hdep.
    by apply (grows_is_Some ns1 ns2).
Qed.

Definition hasDependency (ns : gmap string DAGNode) (id dep : string) : Prop :=
  ∃ n, ns !! id = Some n ∧ dep ∈ Dependencies n.

Lemma grows_hasDependency (ns ns' : gmap string DAGNode) (id dep : string) :
  grows ns ns' → hasDependency ns id dep → hasDependency ns' id dep.
Proof.
  intros H (n & Hn & Hdep). specialize (H id). rewrite Hn in H.
  inversion H as [? n' (_ & _ & _ & _ & more & Hd & _)|]; subst.
  exists n'. split; [done|]. rewrite Hd. apply elem_of_app. by left.
Qed.

Lemma addDependency_grows (ns : gmap string DAGNode) (nodeID depID : string) :
  is_Some (ns !! depID) → grows ns (addDependency ns nodeID depID).
Proof.
  intros Hdep id. unfold addDependency. rewrite !lookup_alter.
  destruct (decide (depID = id)) as [->|Hne1], (decide (nodeID = id)) as [->|Hne2];
    destruct (ns !! id) as [n|] eqn:Hn; simpl; constructor;
    try apply extended_refl;
    repeat split; simpl;
    try (exists [depID]; split; [done|]; by repeat constructor);
    try (exists [id]; split; [done|]; repeat constructor; by rewrite Hn);
    try (exists []; by rewrite app_nil_r).
Qed.

Lemma addDependency_hasDependency (ns : gmap string DAGNode) (nodeID depID : string) :
  is_Some (ns !! nodeID) →
  hasDependency (addDependency ns nodeID depID) nodeID depID.
Proof.
  intros [n Hn]. unfold addDependency, hasDependency. rewrite !lookup_alter.
  destruct (decide (depID = nodeID)) as [->|Hne];
    rewrite decide_True by done; rewrite Hn; simpl;
    eexists; (split; [done|]); simpl; apply elem_of_app; right;
    by apply list_elem_of_singleton.
Qed.

Lemma explicitDependencies_grows (nodeID : string) (dependsOn : list string) :
  ∀ ns ns' : gmap string DAGNode,
    explicitDependencies ns nodeID dependsOn = Ok ns' →
    grows ns ns' ∧
    (is_Some (ns !! nodeID) →
     ∀ dep, dep ∈ dependsOn → hasDependency ns' nodeID dep).
Proof.
  induction dependsOn as [|depID rest IH]; intros ns ns'; simpl.
  - intros [= <-]. split; [apply grows_refl|]. by intros _ dep ?%elem_of_nil.
  - destruct (ns !! depID) as [depNode|] eqn:Hdep; [|done].
    intros Hrest. destruct (IH _ _ Hrest) as [Hgrows Hdeps].
    assert (grows ns (addDependency ns nodeID depID)) as Hfirst.
    { apply addDependency_grows. by rewrite Hdep. }
    split; [by eapply grows_trans|].
    intros Hnode dep [->|Hin]%elem_of_cons.
    + apply (grows_hasDependency _ _ _ _ Hgrows).
      by apply addDependency_hasDependency.
    + apply Hdeps; [|done]. by apply (grows_is_Some _ _ _ Hfirst).
Qed.

Lemma explicitDependencies_missing (nodeID : string) (dependsOn : list string) :
  ∀ ns : gmap string DAGNode,
    (∃ dep, dep ∈ dependsOn ∧ ns !! dep = None) →
    ∃ dep, dep ∈ dependsOn ∧ ns !! dep = None ∧
           explicitDependencies ns nodeID dependsOn =
           Err (errDependencyNotFound dep nodeID).
Proof.
  induction dependsOn as [|depID rest IH]; intros ns (dep & Hin & Hnone).
  - by apply elem_of_nil in Hin.
  - simpl. destruct (ns !! depID) as [depNode|] eqn:Hdep.
    + apply elem_of_cons in Hin as [->|Hin]; [congruence|].
      assert (grows ns (addDependency ns nodeID depID)) as Hfirst.
      { apply addDependency_grows. by rewrite Hdep. }
      destruct (IH (addDependency ns nodeID depID)) as (dep' & Hin' & Hnone' & Herr).
      { exists dep. split; [done|].
        apply eq_None_not_Some. rewrite <- (grows_is_Some _ _ _ Hfirst).
        by rewrite Hnone; intros [? ?]. }
      exists dep'. split; [by right|]. split; [|done].
      apply eq_None_not_Some. rewrite (grows_is_Some _ _ _ Hfirst).
      by rewrite Hnone'; intros [? ?].
    + exists depID. split; [by left|done].
Qed.

Lemma inferDependencies_grows (node : DAGNode) (others : list DAGNode) :
  ∀ ns : gmap string DAGNode,
    (∀ other, other ∈ others → is_Some (ns !! ID other)) →
    grows ns (inferDependencies ns node others).
Proof.
  unfold inferDependencies. intros ns.
  destruct (gostrings.HasPrefix _ _); [intros _; apply grows_refl|].
  revert ns. induction others as [|other rest IH]; intros ns Hothers; simpl;
    [apply grows_refl|].
  assert (grows ns
            (if bool_decide (ID other = ID node) then ns
             else if gostrings.HasPrefix (iKind (Instance other)) "module:"
                     && shouldDependOn node other
             then addDependency ns (ID node) (ID other)
             else ns)) as Hfirst.
  { case_bool_decide; [apply grows_refl|].
    destruct (_ && _); [|apply grows_refl].
    apply addDependency_grows, Hothers. by left. }
  eapply grows_trans; [exact Hfirst|]. apply IH.
  intros o Ho. apply (grows_is_Some _ _ _ Hfirst), Hothers. by right.
Qed.

Lemma buildDependencies_grows (order : list DAGNode) (todo : list DAGNode) :
  ∀ ns ns' : gmap string DAGNode,
    (∀ other, other ∈ order → is_Some (ns !! ID other)) →
    (∀ node, node ∈ todo → is_Some (ns !! ID node)) →
    buildDependencies ns order todo = Ok ns' →
    grows ns ns' ∧
    ∀ node dep, node ∈ todo → dep ∈ iDependsOn (Instance node) →
                hasDependency ns' (ID node) dep.
Proof.
  induction todo as [|node rest IH]; intros ns ns' Horder Htodo; simpl.
  - intros [= <-]. split; [apply grows_refl|]. by intros ? ? ?%elem_of_nil.
  - destruct (explicitDependencies ns (ID node) (iDependsOn (Instance node)))
      as [ns1| | |] eqn:Hexplicit; try done. simpl.
    intros Hrest.
    destruct (explicitDependencies_grows _ _ _ _ Hexplicit) as [Hg1 Hdeps].
    assert (grows ns1 (inferDependencies ns1 node order)) as Hg2.
    { apply inferDependencies_grows. intros o Ho.
      by apply (grows_is_Some _ _ _ Hg1), Horder. }
    assert (grows ns (inferDependencies ns1 node order)) as Hg12
      by by eapply grows_trans.
    destruct (IH _ _
                (fun o Ho => proj1 (grows_is_Some _ _ _ Hg12) (Horder o Ho))
                (fun n Hn => proj1 (grows_is_Some _ _ _ Hg12)
                               (Htodo n (list_elem_of_further _ _ _ Hn)))
                Hrest) as [Hg3 Hlater].
    split; [by eapply grows_trans|].
    intros n dep [->|Hn]%elem_of_cons Hdep.
    + apply (grows_hasDependency _ _ _ _ Hg3), (grows_hasDependency _ _ _ _ Hg2).
      apply Hdeps; [|done]. apply Htodo. by left.
    + by apply Hlater.
Qed.

(** The nodes [NewDAG] starts from. *)
Definition fresh (instances : list ResourceInstance) (id : string) (n : DAGNode)
    : Prop :=
  ID n = id ∧ iID (Instance n) = id ∧ Instance n ∈ instances ∧
  Dependencies n = [] ∧ Status n = StatusPending ∧ Error n = None.

Definition createNodes (ns : gmap string DAGNode)
    (instances : list ResourceInstance) : gmap string DAGNode :=
  foldl (fun ns instance =>
           <[iID instance :=
               {| ID := iID instance; Instance := instance;
                  Dependencies := []; Dependents := [];
                  Status := StatusPending; Error := None |}]> ns)
        ns instances.

Lemma createNodes_fresh (instances : list ResourceInstance) :
  ∀ (seen : list ResourceInstance) (ns : gmap string DAGNode),
    map_Forall (fresh (seen ++ instances)%list) ns →
    dom ns = list_to_set (iID <$> seen) →
    map_Forall (fresh (seen ++ instances)%list) (createNodes ns instances) ∧
    dom (createNodes ns instances) = list_to_set (iID <$> (seen ++ instances)%list).
Proof.
  unfold createNodes.
  induction instances as [|instance rest IH]; intros seen ns Hall Hdom; simpl.
  - rewrite app_nil_r in *. done.
  - replace (seen ++ instance :: rest)%list with ((seen ++ [instance]) ++ rest)%list
      in * by by rewrite <- app_assoc.
    apply IH.
    + apply map_Forall_insert_2.
      * repeat split. simpl. apply elem_of_app. left. apply elem_of_app. right.
        by apply list_elem_of_singleton.
      * done.
    + rewrite dom_insert_L, Hdom, fmap_app, list_to_set_app_L. simpl.
      apply set_eq. intros x. rewrite !elem_of_union, elem_of_empty. tauto.
Qed.

End newdag_spec.

(** ** The cycle check *)

Module acyclic_spec.
Import config executor executor_spec.

Section search.
Context (ns : gmap string DAGNode).

(** The nodes the search has left (visited and off the recursion stack)
    are ranked below [bound]; their dependencies have been left too, with
    a smaller rank. *)
Definition ranked (visited recStack : gset string) (rank : string → nat)
    (bound : nat) : Prop :=
  ∀ b, b ∈ visited → b ∉ recStack →
    (rank b < bound)%nat ∧
    ∀ dep, dep ∈ from_option Dependencies [] (ns !! b) →
           dep ∈ visited ∧ (dep ∉ recStack) ∧ (rank dep < rank b)%nat.

Lemma hasCycle_false (fuel : nat) :
  ∀ (n : string) (v r v' r' : gset string) (rank : string → nat) (bound : nat),
    n ∉ v → r ⊆ v → ranked v r rank bound →
    hasCycle fuel ns n v r = Some (false, v', r') →
    r' = r ∧ v ⊆ v' ∧ n ∈ v' ∧ ∃ rank' bound', ranked v' r rank' bound'.
Proof.
  induction fuel as [|fuel IH]; [done|].
  intros n v r v' r' rank bound Hn Hrv Hranked Hcall. simpl in Hcall.
  match type of Hcall with ?f _ _ _ = _ => set (each := f) in * end.
  set (r1 := {[n]} ∪ r) in *.
  assert (∀ (ds : list string) (vc : gset string) (rk : string → nat) (bd : nat),
            {[n]} ∪ v ⊆ vc → ranked vc r1 rk bd →
            each ds vc r1 = Some (false, v', r') →
            r' = r1 ∖ {[n]} ∧ vc ⊆ v' ∧
            (∃ rk' bd', ranked v' r1 rk' bd') ∧
            ∀ dep, dep ∈ ds → dep ∈ v' ∧ dep ∉ r1) as Hinner.
  { induction ds as [|dep rest IHds]; intros vc rk bd Hvc Hrk Heach;
      simpl in Heach.
    - injection Heach as <- <-. split; [done|]. split; [done|].
      split; [by exists rk, bd|]. by intros dep ?%elem_of_nil.
    - assert (r1 ⊆ vc) as Hr1.
      { intros x [Hx|Hx]%elem_of_union; apply Hvc, elem_of_union;
          [by left|right; by apply Hrv]. }
      destruct (decide (dep ∈ vc)) as [Hin|Hnin].
      + rewrite (bool_decide_eq_true_2 _ Hin) in Heach.
        destruct (decide (dep ∈ r1)) as [Hstack|Hstack].
        * by rewrite (bool_decide_eq_true_2 _ Hstack) in Heach.
        * rewrite (bool_decide_eq_false_2 _ Hstack) in Heach.
          destruct (IHds vc rk bd Hvc Hrk Heach) as (Hr' & Hsub & Hrank & Hrest).
          split; [done|]. split; [done|]. split; [done|].
          intros d [->|Hd]%elem_of_cons; [|by apply Hrest].
          split; [by apply Hsub|done].
      + rewrite (bool_decide_eq_false_2 _ Hnin) in Heach.
        destruct (hasCycle fuel ns dep vc r1) as [[[found v2] r2]|] eqn:Hrec;
          [|done].
        simpl in Heach. destruct found; [done|].
        destruct (IH dep vc r1 v2 r2 rk bd Hnin Hr1 Hrk Hrec)
          as (-> & Hsub2 & Hdep2 & rk2 & bd2 & Hrk2).
        destruct (IHds v2 rk2 bd2 ltac:(by etrans) Hrk2 Heach)
          as (Hr' & Hsub & Hrank & Hrest).
        split; [done|]. split; [by etrans|]. split; [done|].
        intros d [->|Hd]%elem_of_cons; [|by apply Hrest].
        split; [by apply Hsub|]. intros Hstack. by apply Hnin, Hr1. }
  assert (n ∉ r) as Hnr by (intros Hin; by apply Hn, Hrv).
  assert (ranked ({[n]} ∪ v) r1 rank bound) as Hstart.
  { intros b Hb Hb1.
    assert (b ≠ n) as Hne.
    { intros ->. apply Hb1, elem_of_union. left. by apply elem_of_singleton. }
    assert (b ∉ r) as Hbr.
    { intros Hin. apply Hb1, elem_of_union. by right. }
    apply elem_of_union in Hb as [Hb%elem_of_singleton|Hb]; [done|].
    destruct (Hranked b Hb Hbr) as [Hlt Hdeps]. split; [done|].
    intros dep Hdep. destruct (Hdeps dep Hdep) as (Hdv & Hdr & Hdlt).
    split; [apply elem_of_union; by right|]. split; [|done].
    intros [Hd%elem_of_singleton|Hd]%elem_of_union; [|done].
    subst dep. done. }
  destruct (Hinner _ _ _ _ (reflexivity _) Hstart Hcall)
    as (-> & Hsub & (rk' & bd' & Hrk') & Hdeps).
  assert (n ∈ v') as Hnv'.
  { apply Hsub, elem_of_union. left. by apply elem_of_singleton. }
  split.
  { apply set_eq. intros x. unfold r1.
    rewrite elem_of_difference, elem_of_union, !elem_of_singleton. split.
    - intros [[->|Hx] Hne]; done.
    - intros Hx. split; [by right|]. by intros ->. }
  split.
  { intros x Hx. apply Hsub, elem_of_union. by right. }
  split; [done|].
  exists (fun x => if decide (x = n) then bd' else rk' x), (S bd').
  intros b Hb Hbr. destruct (decide (b = n)) as [->|Hne].
  - split; [lia|]. intros dep Hdep. destruct (Hdeps dep Hdep) as [Hdv Hdr].
    assert (dep ≠ n) as Hdn.
    { intros ->. apply Hdr, elem_of_union. left. by apply elem_of_singleton. }
    rewrite decide_False by done.
    split; [done|]. split.
    + intros Hin. apply Hdr, elem_of_union. by right.
    + by apply (Hrk' dep).
  - assert (b ∉ r1) as Hb1.
    { intros [Hx%elem_of_singleton|Hx]%elem_of_union; done. }
    destruct (Hrk' b Hb Hb1) as [Hlt Hbdeps]. split; [lia|].
    intros dep Hdep. destruct (Hbdeps dep Hdep) as (Hdv & Hdr & Hdlt).
    assert (dep ≠ n) as Hdn.
    { intros ->. apply Hdr, elem_of_union. left. by apply elem_of_singleton. }
    rewrite decide_False by done.
    split; [done|]. split; [|done].
    intros Hin. apply Hdr, elem_of_union. by right.
Qed.

Lemma validateAcyclic_ranked (order : list string) :
  ∀ (v : gset string) (rank : string → nat) (bound : nat),
    ranked v ∅ rank bound →
    validateAcyclic ns order v ∅ = Ok () →
    ∃ v' rank' bound',
      ranked v' ∅ rank' bound' ∧ v ⊆ v' ∧ ∀ id, id ∈ order → id ∈ v'.
Proof.
  induction order as [|id rest IH]; intros v rank bound Hranked;
    cbn [validateAcyclic].
  - intros _. exists v, rank, bound. split; [done|]. split; [done|].
    by intros ? ?%elem_of_nil.
  - destruct (decide (id ∈ v)) as [Hin|Hnin].
    + rewrite (bool_decide_eq_true_2 _ Hin). intros Hrest.
      destruct (IH _ _ _ Hranked Hrest) as (v' & rank' & bound' & Hr & Hsub & Hall).
      exists v', rank', bound'. split; [done|]. split; [done|].
      intros x [->|Hx]%elem_of_cons; [by apply Hsub|by apply Hall].
    + rewrite (bool_decide_eq_false_2 _ Hnin).
      destruct (hasCycle (S (size ns)) ns id v ∅) as [[[found v1] r1]|] eqn:Hcall;
        [|done].
      destruct found; simpl; [done|]. intros Hrest.
      destruct (hasCycle_false (S (size ns)) id v ∅ v1 r1 rank bound Hnin
                  (empty_subseteq v) Hranked Hcall)
        as (-> & Hsub1 & Hid & rank1 & bound1 & Hranked1).
      destruct (IH _ _ _ Hranked1 Hrest) as (v' & rank' & bound' & Hr & Hsub & Hall).
      exists v', rank', bound'. split; [done|]. split; [by etrans|].
      intros x [->|Hx]%elem_of_cons; [by apply Hsub|by apply Hall].
Qed.

Lemma validateAcyclic_acyclic (order : list string) :
  (∀ id, is_Some (ns !! id) → id ∈ order) →
  validateAcyclic ns order ∅ ∅ = Ok () →
  acyclic {| nodes := ns |}.
Proof.
  intros Horder Hvalid.
  destruct (validateAcyclic_ranked order ∅ (fun _ => 0%nat) 0%nat) as
    (v' & rank' & bound' & Hranked & _ & Hall); [|done|].
  { by intros b ?%elem_of_empty. }
  exists rank'. intros id node dep Hnode Hdep. simpl in Hnode.
  destruct (Hranked id) as [_ Hdeps].
  - apply Hall, Horder. by rewrite Hnode.
  - apply not_elem_of_empty.
  - apply Hdeps. by rewrite Hnode.
Qed.

End search.

End acyclic_spec.

(** ** The graphs [NewDAG] returns *)

Module newdag_more.
Import config executor executor_spec executor_more newdag_spec acyclic_spec.

Lemma explicitDependencies_cases (nodeID : string) (dependsOn : list string) :
  ∀ ns : gmap string DAGNode,
    (∃ ns', explicitDependencies ns nodeID dependsOn = Ok ns') ∨
    (∃ dep, dep ∈ dependsOn ∧ ns !! dep = None ∧
            explicitDependencies ns nodeID dependsOn =
            Err (errDependencyNotFound dep nodeID)).
Proof.
  induction dependsOn as [|depID rest IH]; intros ns; simpl.
  - left. by eexists.
  - destruct (ns !! depID) as [depNode|] eqn:Hdep.
    + assert (grows ns (addDependency ns nodeID depID)) as Hfirst.
      { apply addDependency_grows. by rewrite Hdep. }
      destruct (IH (addDependency ns nodeID depID))
        as [?|(dep & Hin & Hnone & Herr)]; [by left|].
      right. exists dep. split; [by right|]. split; [|done].
      apply eq_None_not_Some. rewrite (grows_is_Some _ _ _ Hfirst).
      rewrite Hnone. by intros [? ?].
    + right. exists depID. split; [by left|done].
Qed.

Lemma buildDependencies_missing (order : list DAGNode) (todo : list DAGNode) :
  ∀ ns : gmap string DAGNode,
    (∀ other, other ∈ order → is_Some (ns !! ID other)) →
    (∃ node dep, node ∈ todo ∧ dep ∈ iDependsOn (Instance node) ∧
                 ns !! dep = None) →
    ∃ node dep, node ∈ todo ∧ dep ∈ iDependsOn (Instance node) ∧
                ns !! dep = None ∧
                buildDependencies ns order todo =
                Err (errDependencyNotFound dep (ID node)).
Proof.
  induction todo as [|node rest IH]; intros ns Horder (node0 & dep0 & Hin & Hdep & Hnone).
  - by apply elem_of_nil in Hin.
  - simpl.
    destruct (explicitDependencies_cases (ID node) (iDependsOn (Instance node)) ns)
      as [[ns1 Hok]|(dep & Hd & Hn & Herr)].
    + rewrite Hok. simpl.
      destruct (explicitDependencies_grows _ _ _ _ Hok) as [Hg1 _].
      assert (grows ns1 (inferDependencies ns1 node order)) as Hg2.
      { apply inferDependencies_grows. intros o Ho.
        by apply (grows_is_Some _ _ _ Hg1), Horder. }
      assert (grows ns (inferDependencies ns1 node order)) as Hg
        by by eapply grows_trans.
      assert (∀ key, ns !! key = None ↔ inferDependencies ns1 node order !! key = None)
        as Hnone_iff.
      { intros key. rewrite !eq_None_not_Some. by rewrite (grows_is_Some _ _ _ Hg). }
      apply elem_of_cons in Hin as [->|Hin].
      { destruct (explicitDependencies_missing (ID node)
                    (iDependsOn (Instance node)) ns) as (? & _ & _ & Herr);
          [by exists dep0|congruence]. }
      destruct (IH (inferDependencies ns1 node order)) as (n & d & Hn & Hd & Hdn & Herr).
      * intros o Ho. by apply (grows_is_Some _ _ _ Hg), Horder.
      * exists node0, dep0. split; [done|]. split; [done|]. by apply Hnone_iff.
      * exists n, d. split; [by right|]. split; [done|]. split; [|done].
        by apply Hnone_iff.
    + rewrite Herr. simpl. exists node, dep. split; [by left|done].
Qed.

Lemma createNodes_lookup_other (instances : list ResourceInstance) :
  ∀ (ns : gmap string DAGNode) (id : string),
    id ∉ (iID <$> instances) → createNodes ns instances !! id = ns !! id.
Proof.
  unfold createNodes.
  induction instances as [|instance rest IH]; intros ns id Hnot; simpl; [done|].
  rewrite fmap_cons, not_elem_of_cons in Hnot. destruct Hnot as [Hne Hnot].
  rewrite IH by done. by rewrite lookup_insert_ne.
Qed.

Lemma createNodes_last (before after : list ResourceInstance)
    (instance : ResourceInstance) (ns : gmap string DAGNode) :
  iID instance ∉ (iID <$> after) →
  createNodes ns (before ++ instance :: after) !! iID instance =
  Some {| ID := iID instance; Instance := instance;
          Dependencies := []; Dependents := [];
          Status := StatusPending; Error := None |}.
Proof.
  intros Hnot. unfold createNodes. rewrite foldl_app. simpl.
  fold (createNodes
          (<[iID instance :=
               {| ID := iID instance; Instance := instance;
                  Dependencies := []; Dependents := [];
                  Status := StatusPending; Error := None |}]>
             (foldl (fun ns instance =>
                       <[iID instance :=
                           {| ID := iID instance; Instance := instance;
                              Dependencies := []; Dependents := [];
                              Status := StatusPending; Error := None |}]> ns)
                    ns before)) after).
  rewrite createNodes_lookup_other by done. by rewrite lookup_insert_eq.
Qed.

(** What [NewDAG] computes, step by step. *)
Lemma NewDAG_steps (instances : list ResourceInstance) (dag : DAG) :
  NewDAG instances = Ok dag →
  let ns0 := createNodes ∅ instances in
  let order := (map_to_list ns0).*2 in
  buildDependencies ns0 order order = Ok (nodes dag) ∧
  validateAcyclic (nodes dag) (ID <$> order) ∅ ∅ = Ok ().
Proof.
  unfold NewDAG. fold (createNodes ∅ instances).
  destruct (buildDependencies _ _ _) as [ns1| | |] eqn:Hbuild; try done. simpl.
  destruct (validateAcyclic ns1 _ ∅ ∅) as [[]| | |] eqn:Hvalid; try done. simpl.
  by intros [= <-].
Qed.

Lemma createNodes_order (instances : list ResourceInstance) :
  let ns0 := createNodes ∅ instances in
  map_Forall (fresh instances) ns0 ∧
  dom ns0 = list_to_set (iID <$> instances) ∧
  ∀ other, other ∈ (map_to_list ns0).*2 ↔ ns0 !! ID other = Some other.
Proof.
  destruct (createNodes_fresh instances [] ∅) as [Hfresh Hdom];
    [apply map_Forall_empty|by rewrite dom_empty_L|].
  simpl in *. split; [done|]. split; [done|].
  intros other. rewrite list_elem_of_fmap. split.
  - intros ([id n] & -> & Hin%elem_of_map_to_list). simpl.
    destruct (Hfresh id n Hin) as (-> & _). done.
  - intros Hother. exists (ID other, other). split; [done|].
    by apply elem_of_map_to_list.
Qed.

Lemma NewDAG_grows (instances : list ResourceInstance) (dag : DAG) :
  NewDAG instances = Ok dag →
  grows (createNodes ∅ instances) (nodes dag) ∧
  ∀ node dep, createNodes ∅ instances !! ID node = Some node →
              dep ∈ iDependsOn (Instance node) →
              hasDependency (nodes dag) (ID node) dep.
Proof.
  intros [Hbuild _]%NewDAG_steps.
  destruct (createNodes_order instances) as (Hfresh & Hdom & Horder).
  destruct (buildDependencies_grows _ _ _ _
              (fun o Ho => mk_is_Some _ _ (proj1 (Horder o) Ho))
              (fun o Ho => mk_is_Some _ _ (proj1 (Horder o) Ho))
              Hbuild) as [Hgrows Hdeps].
  split; [done|]. intros node dep Hnode Hdep. apply Hdeps; [|done].
  by apply Horder.
Qed.

(** X6.  The graph [NewDAG] returns.  Its nodes are keyed by exactly the
    instance IDs; the node under an ID carries that ID and an instance of
    the list with that ID, is pending and has no error; every depends_on
    entry of its instance is among its dependencies; and every one of its
    dependencies, declared or inferred, is a node of the graph. *)
Theorem NewDAG_nodes (instances : list ResourceInstance) (dag : DAG) :
  NewDAG instances = Ok dag →
  dom (nodes dag) = list_to_set (iID <$> instances) ∧
  (∀ id node, nodes dag !! id = Some node →
     ID node = id ∧ iID (Instance node) = id ∧ Instance node ∈ instances ∧
     Status node = StatusPending ∧ Error node = None ∧
     (∀ dep, dep ∈ iDependsOn (Instance node) → dep ∈ Dependencies node) ∧
     (∀ dep, dep ∈ Dependencies node → is_Some (nodes dag !! dep))).
Proof.
  intros Hnew. destruct (NewDAG_grows _ _ Hnew) as [Hgrows Hdeps].
  destruct (createNodes_order instances) as (Hfresh & Hdom & Horder).
  split.
  - rewrite <- Hdom. apply set_eq. intros id. rewrite !elem_of_dom.
    symmetry. by apply grows_is_Some.
  - intros id node Hnode. pose proof (Hgrows id) as Hid. rewrite Hnode in Hid.
    inversion Hid as [n0 ? (HID & Hinst & Hstatus & Herror & more & Hmore & Hall) Hn0|];
      subst.
    symmetry in Hn0.
    destruct (Hfresh id n0 Hn0) as (Hid0 & Hiid & Hin & Hdeps0 & Hst0 & Herr0).
    rewrite HID, Hinst, Hstatus, Herror.
    repeat split; try done.
    + intros dep Hdep.
      destruct (Hdeps n0 dep) as (n & Hn & Hd); [by rewrite Hid0|done|].
      rewrite Hid0 in Hn. congruence.
    + intros dep Hdep. rewrite Hmore, Hdeps0 in Hdep. simpl in Hdep.
      rewrite Forall_forall in Hall. apply (grows_is_Some _ _ _ Hgrows).
      by apply Hall.
Qed.

Lemma NewDAG_nodes_witness :
  dom (nodes samples.s3Dag) =
  list_to_set (iID <$> [samples.s3A; samples.s3B1; samples.s3B2; samples.s3C]).
Proof.
  apply (NewDAG_nodes [samples.s3A; samples.s3B1; samples.s3B2; samples.s3C]).
  vm_compute. reflexivity.
Defined.

(** X7.  A graph [NewDAG] returns passed the cycle check for a reason:
    its dependencies all name nodes and have a ranking in which every
    node ranks above its dependencies.  Hence its execution order places
    every instance ID, and each exactly once. *)
Theorem NewDAG_execution_order (instances : list ResourceInstance) (dag : DAG) :
  NewDAG instances = Ok dag →
  closed dag ∧ acyclic dag ∧
  NoDup (mjoin (GetExecutionOrder dag)) ∧
  ∀ id, id ∈ mjoin (GetExecutionOrder dag) ↔ id ∈ (iID <$> instances).
Proof.
  intros Hnew. destruct (NewDAG_grows _ _ Hnew) as [Hgrows _].
  destruct (createNodes_order instances) as (Hfresh & Hdom & Horder).
  destruct (NewDAG_steps _ _ Hnew) as [_ Hvalid].
  assert (closed dag) as Hclosed.
  { intros id node dep Hnode Hdep. pose proof (Hgrows id) as Hid.
    rewrite Hnode in Hid.
    inversion Hid as [n0 ? (_ & _ & _ & _ & more & Hmore & Hall) Hn0|]; subst.
    symmetry in Hn0. destruct (Hfresh id n0 Hn0) as (_ & _ & _ & Hdeps0 & _).
    rewrite Hmore, Hdeps0 in Hdep. simpl in Hdep.
    rewrite Forall_forall in Hall. apply (grows_is_Some _ _ _ Hgrows).
    by apply Hall. }
  assert (acyclic dag) as Hacyclic.
  { destruct dag as [ns1]. simpl in *.
    apply (validateAcyclic_acyclic ns1 _) in Hvalid; [done|].
    intros id Hid. apply (grows_is_Some _ _ _ Hgrows) in Hid as [n0 Hn0].
    apply list_elem_of_fmap. exists n0.
    destruct (Hfresh id n0 Hn0) as (Hid0 & _). split; [done|].
    apply Horder. by rewrite Hid0. }
  split; [done|]. split; [done|]. split.
  - apply GetExecutionOrder_partition.
  - intros id. rewrite GetExecutionOrder_elements by done.
    rewrite <- (grows_is_Some _ _ _ Hgrows), <- elem_of_dom, Hdom.
    by rewrite elem_of_list_to_set.
Qed.

Lemma NewDAG_execution_order_witness :
  closed samples.s3Dag ∧ acyclic samples.s3Dag ∧
  NoDup (mjoin (GetExecutionOrder samples.s3Dag)) ∧
  ∀ id, id ∈ mjoin (GetExecutionOrder samples.s3Dag) ↔
        id ∈ (iID <$> [samples.s3A; samples.s3B1; samples.s3B2; samples.s3C]).
Proof.
  apply (NewDAG_execution_order
           [samples.s3A; samples.s3B1; samples.s3B2; samples.s3C]).
  vm_compute. reflexivity.
Defined.

(** X8.  A depends_on entry that is no instance ID makes [NewDAG] fail
    with a dependency-not-found error, provided the instance that
    declares it is the last of the list with its ID (an earlier one is
    overwritten and its entries are never looked at).  The error names a
    missing entry and the instance that declares it. *)
Theorem NewDAG_dependency_not_found (before after : list ResourceInstance)
    (instance : ResourceInstance) (dep : string) :
  iID instance ∉ (iID <$> after) →
  dep ∈ iDependsOn instance →
  dep ∉ (iID <$> (before ++ instance :: after)%list) →
  ∃ instance' dep',
    instance' ∈ (before ++ instance :: after)%list ∧
    dep' ∈ iDependsOn instance' ∧
    (dep' ∉ iID <$> (before ++ instance :: after)%list) ∧
    NewDAG (before ++ instance :: after) =
    Err (errDependencyNotFound dep' (iID instance')).
Proof.
  intros Hlast Hdep Hmissing.
  set (instances := (before ++ instance :: after)%list) in *.
  destruct (createNodes_order instances) as (Hfresh & Hdom & Horder).
  assert (∀ key, createNodes ∅ instances !! key = None ↔ key ∉ (iID <$> instances))
    as Hnone.
  { intros key. by rewrite <- not_elem_of_dom, Hdom, elem_of_list_to_set. }
  destruct (buildDependencies_missing
              (map_to_list (createNodes ∅ instances)).*2
              (map_to_list (createNodes ∅ instances)).*2
              (createNodes ∅ instances))
    as (node & dep' & Hnode & Hdep' & Hnone' & Herr).
  - intros o Ho. apply Horder in Ho. by rewrite Ho.
  - exists {| ID := iID instance; Instance := instance;
              Dependencies := []; Dependents := [];
              Status := StatusPending; Error := None |}, dep.
    split; [|split; [done|by apply Hnone]].
    apply Horder. simpl. by apply createNodes_last.
  - apply Horder in Hnode.
    destruct (Hfresh _ _ Hnode) as (_ & Hiid & Hin & _).
    exists (Instance node), dep'. split; [done|]. split; [done|].
    split; [by apply Hnone|].
    unfold NewDAG. fold (createNodes ∅ instances). rewrite Herr. simpl.
    by rewrite Hiid.
Qed.

Lemma NewDAG_dependency_not_found_witness :
  ∃ instance' dep',
    instance' ∈ [samples.chainB] ∧ dep' ∈ iDependsOn instance' ∧
    (dep' ∉ iID <$> [samples.chainB]) ∧
    NewDAG [samples.chainB] = Err (errDependencyNotFound dep' (iID instance')).
Proof.
  apply (NewDAG_dependency_not_found [] [] samples.chainB (iID samples.chainA)).
  - apply not_elem_of_nil.
  - apply list_elem_of_singleton. reflexivity.
  - apply (bool_decide_unpack _). vm_compute. exact I.
Defined.

End newdag_more.

(** ** Ready nodes *)

Module ready_spec.
Import config executor executor_spec executor_more.

(** A dependency list all of whose entries have completed. *)
Definition allCompleted (d : DAG) (deps : list string) : bool :=
  forallb (fun depID =>
             match nodes d !! depID with
             | Some depNode => bool_decide (Status depNode = StatusCompleted)
             | None => false
             end) deps.

Definition isReady (d : DAG) (node : DAGNode) : bool :=
  bool_decide (Status node = StatusPending) && allCompleted d (Dependencies node).

Lemma dependenciesCompleted_closed (d : DAG) (deps : list string) :
  (∀ dep, dep ∈ deps → is_Some (nodes d !! dep)) →
  dependenciesCompleted d deps = Ok (allCompleted d deps).
Proof.
  induction deps as [|depID rest IH]; intros Hdeps; simpl; [done|].
  destruct (Hdeps depID) as [depNode ->]; [by left|].
  case_bool_decide; simpl; [|done]. apply IH. intros dep Hdep. apply Hdeps. by right.
Qed.

Lemma readyLoop_closed (d : DAG) (entries : list DAGNode) :
  (∀ node dep, node ∈ entries → dep ∈ Dependencies node → is_Some (nodes d !! dep)) →
  readyLoop d entries = Ok (List.filter (isReady d) entries).
Proof.
  induction entries as [|node rest IH]; intros Hclosed; simpl; [done|].
  rewrite IH by (intros n dep Hn; apply Hclosed; by right).
  change (isReady d node)
    with (bool_decide (Status node = StatusPending)
          && allCompleted d (Dependencies node)).
  destruct (bool_decide (Status node = StatusPending)); simpl; [|done].
  rewrite dependenciesCompleted_closed by (intros dep; apply Hclosed; by left).
  simpl. by destruct (allCompleted d (Dependencies node)).
Qed.

Lemma allCompleted_spec (d : DAG) (deps : list string) :
  allCompleted d deps = true ↔
  ∀ dep, dep ∈ deps →
         ∃ depNode, nodes d !! dep = Some depNode ∧ Status depNode = StatusCompleted.
Proof.
  unfold allCompleted. rewrite forallb_forall. split.
  - intros H dep Hdep%list_elem_of_In. specialize (H dep Hdep).
    destruct (nodes d !! dep) as [depNode|]; [|done].
    exists depNode. split; [done|]. by apply bool_decide_eq_true in H.
  - intros H dep Hdep%list_elem_of_In. destruct (H dep Hdep) as (depNode & -> & Hs).
    by apply bool_decide_eq_true.
Qed.

Lemma forallb_agree {A} (f g : A → bool) (l : list A) :
  (∀ x, x ∈ l → f x = g x) → forallb f l = forallb g l.
Proof.
  induction l as [|x l IH]; intros H; simpl; [done|].
  rewrite (H x) by by left. rewrite IH; [done|]. intros y Hy. apply H. by right.
Qed.

Lemma filter_fmap_keys (d : DAG) (f : DAGNode → bool) (g : string → bool)
    (entries : list (string * DAGNode)) :
  (∀ id node, (id, node) ∈ entries → ID node = id ∧ f node = g id) →
  ID <$> List.filter f entries.*2 = List.filter g entries.*1.
Proof.
  induction entries as [|[id node] rest IH]; intros H; [done|].
  rewrite !fmap_cons. cbn [List.filter fst snd].
  destruct (H id node) as [Hid Hfg]; [by left|]. rewrite Hfg.
  rewrite <- IH by (intros i n Hin; apply H; by right).
  destruct (g id); [|done]. by rewrite fmap_cons, Hid.
Qed.

(** X11.  On a graph whose dependencies all name nodes, [GetReadyNodes]
    returns (it cannot hit a nil node) exactly the pending nodes all of
    whose dependencies have completed.  When every node is still pending
    (and keyed by its own ID), these are the nodes of the first level of
    [GetExecutionOrder]. *)
Theorem GetReadyNodes_closed (d : DAG) :
  closed d →
  ∃ ready,
    GetReadyNodes d = Ok ready ∧
    (∀ node, node ∈ ready ↔
       (∃ id, nodes d !! id = Some node) ∧ Status node = StatusPending ∧
       ∀ dep, dep ∈ Dependencies node →
              ∃ depNode, nodes d !! dep = Some depNode ∧
                         Status depNode = StatusCompleted) ∧
    ((∀ id node, nodes d !! id = Some node →
                 ID node = id ∧ Status node = StatusPending) →
     SortStrings (ID <$> ready) = hd [] (GetExecutionOrder d)).
Proof.
  intros Hclosed.
  assert (∀ node, node ∈ (map_to_list (nodes d)).*2 ↔ ∃ id, nodes d !! id = Some node)
    as Hvalues.
  { intros node. rewrite list_elem_of_fmap. split.
    - intros ([id n] & -> & Hin%elem_of_map_to_list). by exists id.
    - intros [id Hid]. exists (id, node). split; [done|].
      by apply elem_of_map_to_list. }
  exists (List.filter (isReady d) (map_to_list (nodes d)).*2). split; [|split].
  - apply readyLoop_closed. intros node dep [id Hid]%Hvalues Hdep.
    by apply (Hclosed id node dep).
  - intros node. rewrite list_elem_of_In, filter_In, <- list_elem_of_In, Hvalues.
    unfold isReady. rewrite andb_true_iff, bool_decide_eq_true, allCompleted_spec.
    tauto.
  - intros Hfresh.
    assert (ID <$> List.filter (isReady d) (map_to_list (nodes d)).*2 =
            collectLevel d ∅) as ->.
    { unfold collectLevel. apply (filter_fmap_keys d).
      intros id node Hin%elem_of_map_to_list.
      destruct (Hfresh id node Hin) as [Hid Hpending]. split; [done|].
      rewrite Hin. rewrite bool_decide_eq_false_2 by apply not_elem_of_empty.
      simpl. unfold isReady. rewrite bool_decide_eq_true_2 by done. simpl.
      unfold allCompleted, canExecute. apply forallb_agree. intros dep Hdep.
      rewrite bool_decide_eq_false_2 by apply not_elem_of_empty.
      destruct (nodes d !! dep) as [depNode|] eqn:Hd; [|done].
      apply bool_decide_eq_false_2. destruct (Hfresh dep depNode Hd) as [_ ->].
      done. }
    pose proof (GetExecutionOrder_levelLoop d) as Hloop.
    rewrite levelLoop_unfold in Hloop.
    destruct (bool_decide (size (∅ : gset string) < size (nodes d))) eqn:Hsize.
    + destruct (collectLevel d ∅) as [|id0 rest] eqn:Hlevel.
      * by injection Hloop as <-.
      * destruct (size (nodes d)) as [|fuel]; [done|].
        destruct (levelLoop fuel d _) as [levels|]; [|done].
        by injection Hloop as <-.
    + injection Hloop as <-. apply bool_decide_eq_false in Hsize.
      rewrite size_empty in Hsize.
      assert (nodes d = ∅) as Hempty by (apply map_size_empty_iff; lia).
      unfold collectLevel. by rewrite Hempty, map_to_list_empty.
Qed.

Lemma GetReadyNodes_closed_witness :
  ∃ ready,
    GetReadyNodes samples.s3Dag = Ok ready ∧
    SortStrings (ID <$> ready) = hd [] (GetExecutionOrder samples.s3Dag).
Proof.
  destruct (GetReadyNodes_closed samples.s3Dag) as (ready & Hready & _ & Hfirst).
  - apply closed_check. apply (bool_decide_unpack _). vm_compute. exact I.
  - exists ready. split; [done|]. apply Hfirst.
    apply (bool_decide_unpack _). vm_compute. exact I.
Defined.

End ready_spec.

(** ** Dismantle: the deletion loop *)

Module dismantle_spec.
Import config providers cloud executor cmd cloud_spec commit_spec executor_spec.

Section dismantle.
Context {World : Type}.

(** The provider call the deletion loop issues for [nodeID]: a delete of
    the node's instance, unless the node or its provider is unknown. *)
Definition deleted (registry : gmap string (providers.Provider World))
    (dag : DAG) (nodeID : string) : list Call :=
  match Instance <$> GetNode dag nodeID with
  | Some instance =>
      match registry !! extractProviderName (iKind instance) with
      | Some _ => [CallDelete instance]
      | None => []
      end
  | None => []
  end.

Lemma doDelete_calls (p : Provider World) (i : ResourceInstance) (c : Cloud World) :
  calls (doDelete p i c).2 = (calls c ++ [CallDelete i])%list.
Proof. unfold doDelete. by destruct (Delete p i (world c)). Qed.

Lemma deleted_sameInstances (registry : gmap string (providers.Provider World))
    (dag dag' : DAG) (nodeID : string) :
  sameInstances dag dag' → deleted registry dag nodeID = deleted registry dag' nodeID.
Proof. intros H. unfold deleted. by rewrite H. Qed.

(** One node: the call, and how the result grows. *)
Lemma deleteNode_calls (registry : gmap string (providers.Provider World))
    (force : bool) (nodeID : string) (result : ExecutionResult) (dag : DAG)
    (c : Cloud World) :
  let out := deleteNode registry force nodeID result dag c in
  sameInstances dag out.1.2 ∧
  calls out.2 = (calls c ++ deleted registry dag nodeID)%list ∧
  (is_Some (GetNode dag nodeID) →
   (length (Changes out.1.1) + length (Errors out.1.1) =
    S (length (Changes result) + length (Errors result)))%nat) ∧
  (GetNode dag nodeID = None → out.1.1 = result) ∧
  (Success result = false → Success out.1.1 = false) ∧
  (force = true → deleted registry dag nodeID ≠ [] →
   Success out.1.1 = Success result) ∧
  (force = false → (Success result = true ↔ Errors result = []) →
   (Success out.1.1 = true ↔ Errors out.1.1 = [])).
Proof.
  unfold deleteNode, deleted.
  destruct (GetNode dag nodeID) as [node|] eqn:Hnode; simpl.
  2: { rewrite app_nil_r. split; [done|]. split; [done|].
       split; [by intros [? ?]|]. done. }
  assert (∀ st e, sameInstances dag
            (SetNodeStatus (SetNodeStatus dag nodeID StatusRunning None) nodeID st e))
    as Hsame.
  { intros st e. eapply sameInstances_trans; apply SetNodeStatus_sameInstances. }
  destruct (registry !! _) as [provider|]; simpl.
  2: { rewrite app_nil_r, !length_app. simpl.
       split; [done|]. split; [done|]. split; [intros _; lia|].
       split; [done|]. split; [done|]. split; [intros _ H; exfalso; by apply H|].
       intros _ _. split; [done|]. by intros [_ ?]%app_eq_nil. }
  pose proof (doDelete_calls provider (Instance node) c) as Hcalls.
  destruct (doDelete provider (Instance node) c) as [[e|] c']; simpl in *;
    rewrite ?length_app; simpl;
    (split; [done|]); (split; [done|]); (split; [intros _; lia|]);
    (split; [done|]).
  - split; [intros ->; by destruct force|]. split; [by intros ->|].
    intros -> _. simpl. split; [done|]. by intros [_ ?]%app_eq_nil.
  - done.
Qed.

Lemma deleteLevel_calls (registry : gmap string (providers.Provider World))
    (force : bool) (level : list string) :
  ∀ (result : ExecutionResult) (dag : DAG) (c : Cloud World),
    let out := deleteLevel registry force level result dag c in
    sameInstances dag out.1.2 ∧
    calls out.2 = (calls c ++ mjoin (deleted registry dag <$> level))%list ∧
    ((∀ nodeID, nodeID ∈ level → is_Some (GetNode dag nodeID)) →
     (length (Changes out.1.1) + length (Errors out.1.1) =
      length level + (length (Changes result) + length (Errors result)))%nat) ∧
    (Success result = false → Success out.1.1 = false) ∧
    (force = true →
     (∀ nodeID, nodeID ∈ level → deleted registry dag nodeID ≠ []) →
     Success out.1.1 = Success result) ∧
    (force = false → (Success result = true ↔ Errors result = []) →
     (Success out.1.1 = true ↔ Errors out.1.1 = [])).
Proof.
  induction level as [|nodeID rest IH]; intros result dag c; simpl.
  - rewrite app_nil_r. done.
  - pose proof (deleteNode_calls registry force nodeID result dag c) as Hone.
    destruct (deleteNode registry force nodeID result dag c) as [[result1 dag1] c1].
    simpl in Hone. destruct Hone as (Hs1 & Hc1 & Hn1 & _ & Hf1 & Hforce1 & Hstrict1).
    specialize (IH result1 dag1 c1).
    destruct (deleteLevel registry force rest result1 dag1 c1) as [[result2 dag2] c2].
    simpl in *. destruct IH as (Hs2 & Hc2 & Hn2 & Hf2 & Hforce2 & Hstrict2).
    assert (deleted registry dag1 <$> rest = deleted registry dag <$> rest) as Heq.
    { apply list_fmap_ext. intros _ id _. symmetry. by apply deleted_sameInstances. }
    split; [by eapply sameInstances_trans|]. split; [|split; [|split; [|split]]].
    5: { intros Hforce Hinv. by apply Hstrict2, Hstrict1. }
    + by rewrite Hc2, Hc1, Heq, <- app_assoc.
    + intros Hall. rewrite Hn2, Hn1; [lia|apply Hall; by left|].
      intros id Hid. specialize (Hs1 id). specialize (Hall id (list_elem_of_further _ _ _ Hid)).
      destruct Hall as [n Hn]. rewrite Hn in Hs1. simpl in Hs1.
      destruct (GetNode dag1 id); [done|by simpl in Hs1].
    + intros Hfalse. by apply Hf2, Hf1.
    + intros Hforce Hall. rewrite Hforce2, Hforce1; try done.
      * apply Hall. by left.
      * intros id Hid. rewrite <- (deleted_sameInstances registry dag dag1) by done.
        apply Hall. by right.
Qed.

Lemma deleteLevels_calls (registry : gmap string (providers.Provider World))
    (force : bool) (levels : list (list string)) :
  ∀ (result : ExecutionResult) (dag : DAG) (c : Cloud World),
    let out := deleteLevels registry force levels result dag c in
    sameInstances dag out.1.2 ∧
    calls out.2 =
      (calls c ++ mjoin ((fun level => mjoin (deleted registry dag <$> level))
                         <$> levels))%list ∧
    ((∀ nodeID, nodeID ∈ mjoin levels → is_Some (GetNode dag nodeID)) →
     (length (Changes out.1.1) + length (Errors out.1.1) =
      length (mjoin levels) + (length (Changes result) + length (Errors result)))%nat) ∧
    (Success result = false → Success out.1.1 = false) ∧
    (force = true →
     (∀ nodeID, nodeID ∈ mjoin levels → deleted registry dag nodeID ≠ []) →
     Success out.1.1 = Success result) ∧
    (force = false → (Success result = true ↔ Errors result = []) →
     (Success out.1.1 = true ↔ Errors out.1.1 = [])).
Proof.
  induction levels as [|level rest IH]; intros result dag c; simpl.
  - rewrite app_nil_r. done.
  - pose proof (deleteLevel_calls registry force level result dag c) as Hone.
    destruct (deleteLevel registry force level result dag c) as [[result1 dag1] c1].
    simpl in Hone. destruct Hone as (Hs1 & Hc1 & Hn1 & Hf1 & Hforce1 & Hstrict1).
    specialize (IH result1 dag1 c1).
    destruct (deleteLevels registry force rest result1 dag1 c1) as [[result2 dag2] c2].
    simpl in *. destruct IH as (Hs2 & Hc2 & Hn2 & Hf2 & Hforce2 & Hstrict2).
    assert ((fun lvl => mjoin (deleted registry dag1 <$> lvl)) <$> rest =
            (fun lvl => mjoin (deleted registry dag <$> lvl)) <$> rest) as Heq.
    { apply list_fmap_ext. intros _ lvl _. f_equal.
      apply list_fmap_ext. intros _ id _. symmetry. by apply deleted_sameInstances. }
    split; [by eapply sameInstances_trans|]. split; [|split; [|split; [|split]]].
    5: { intros Hforce Hinv. by apply Hstrict2, Hstrict1. }
    + by rewrite Hc2, Hc1, Heq, <- app_assoc.
    + intros Hall. rewrite Hn2, Hn1, length_app; [lia| |].
      * intros id Hid. apply Hall, elem_of_app. by left.
      * intros id Hid. specialize (Hs1 id).
        destruct (Hall id) as [n Hn]; [apply elem_of_app; by right|].
        rewrite Hn in Hs1. simpl in Hs1.
        destruct (GetNode dag1 id); [done|by simpl in Hs1].
    + intros Hfalse. by apply Hf2, Hf1.
    + intros Hforce Hall. rewrite Hforce2, Hforce1; try done.
      * intros id Hid. apply Hall, elem_of_app. by left.
      * intros id Hid. rewrite <- (deleted_sameInstances registry dag dag1) by done.
        apply Hall, elem_of_app. by right.
Qed.

End dismantle.

End dismantle_spec.

Module dismantle_more.
Import config providers cloud executor cmd cloud_spec commit_spec executor_spec
       executor_more dismantle_spec.

Lemma rev_order {A} (ls : list A) (L L' : nat) (a b : A) :
  (L' < L)%nat → ls !! L = Some a → ls !! L' = Some b →
  ∃ l1 l2 l3, rev ls = (l1 ++ a :: l2 ++ b :: l3)%list.
Proof.
  intros Hlt Ha Hb.
  assert (take L ls !! L' = Some b) as Hb' by by rewrite lookup_take_lt.
  exists (rev (drop (S L) ls)), (rev (drop (S L') (take L ls))),
         (rev (take L' (take L ls))).
  assert (ls = ((take L' (take L ls) ++ b :: drop (S L') (take L ls))
                ++ a :: drop (S L) ls)%list) as Heq.
  { by rewrite (take_drop_middle (take L ls) L' b Hb'), (take_drop_middle ls L a Ha). }
  rewrite (f_equal (@rev A) Heq).
  rewrite !rev_app_distr. simpl. by rewrite <- !app_assoc.
Qed.

Lemma join_elem {A B} (f : A → list B) (l : list A) (x : A) (y : B) :
  x ∈ l → f x = [y] → ∃ p q, mjoin (f <$> l) = (p ++ y :: q)%list.
Proof.
  intros (l1 & l2 & ->)%list_elem_of_split Hx.
  exists (mjoin (f <$> l1)), (mjoin (f <$> l2)).
  by rewrite fmap_app, join_app, fmap_cons, Hx.
Qed.

Lemma join_order {A B} (f : A → list B) (ls : list (list A)) (L L' : nat)
    (level level' : list A) (x x' : A) (y y' : B) :
  (L' < L)%nat → ls !! L = Some level → ls !! L' = Some level' →
  x ∈ level → x' ∈ level' → f x = [y] → f x' = [y'] →
  ∃ l1 l2 l3,
    mjoin ((fun lvl => mjoin (f <$> lvl)) <$> rev ls) =
    (l1 ++ y :: l2 ++ y' :: l3)%list.
Proof.
  intros Hlt Hl Hl' Hx Hx' Hy Hy'.
  destruct (rev_order ls L L' level level' Hlt Hl Hl') as (a & b & c & ->).
  destruct (join_elem f level x y Hx Hy) as (p & q & Hp).
  destruct (join_elem f level' x' y' Hx' Hy') as (p' & q' & Hp').
  set (g := fun lvl => mjoin (f <$> lvl)).
  exists (mjoin (g <$> a) ++ p)%list, (q ++ mjoin (g <$> b) ++ p')%list,
         (q' ++ mjoin (g <$> c))%list.
  rewrite fmap_app, join_app, fmap_cons. simpl.
  rewrite fmap_app, join_app, fmap_cons. simpl.
  unfold g at 2 4. rewrite Hp, Hp'.
  rewrite <- !app_assoc. simpl. done.
Qed.

Lemma join_rev_elem {A} (ls : list (list A)) (x : A) :
  x ∈ mjoin (rev ls) ↔ x ∈ mjoin ls.
Proof.
  rewrite !list_elem_of_join. split; intros (l & Hx & Hl); exists l;
    (split; [done|]); apply list_elem_of_In; apply list_elem_of_In in Hl.
  - by apply (proj2 (in_rev ls l)).
  - by apply (proj1 (in_rev ls l)).
Qed.

Lemma join_rev_length {A} (ls : list (list A)) :
  length (mjoin (rev ls)) = length (mjoin ls).
Proof.
  induction ls as [|l ls IH]; simpl; [done|].
  rewrite join_app, !length_app, IH. simpl. rewrite app_nil_r. lia.
Qed.

Section dismantle.
Context {World : Type}.

Lemma executed_nodes (dag : DAG) (nodeID : string) :
  nodeID ∈ mjoin (rev (GetExecutionOrder dag)) → is_Some (GetNode dag nodeID).
Proof.
  rewrite join_rev_elem. intros Hid.
  by apply (levelLoop_partition _ _ _ _ (GetExecutionOrder_levelLoop dag)) in Hid
    as [_ Hnode].
Qed.

Lemma executeDeletions_calls_eq (dag : DAG)
    (registry : gmap string (providers.Provider World)) (force : bool)
    (c : Cloud World) :
  calls (executeDeletions dag registry force c).2 =
    (calls c ++ mjoin ((fun level => mjoin (deleted registry dag <$> level))
                       <$> rev (GetExecutionOrder dag)))%list.
Proof. apply (deleteLevels_calls registry force). Qed.

(** X14.  [executeDeletions] visits the levels of the execution order
    from the last to the first and, within a level, its nodes in order;
    it issues one delete for every node whose provider is registered,
    whether or not an earlier delete failed and whatever [force] is.
    The changes and the errors of the result together hold one entry
    for each node of the execution order. *)
Theorem executeDeletions_trace (dag : DAG)
    (registry : gmap string (providers.Provider World)) (force : bool)
    (c : Cloud World) :
  let out := executeDeletions dag registry force c in
  calls out.2 =
    (calls c ++ mjoin ((fun level => mjoin (deleted registry dag <$> level))
                       <$> rev (GetExecutionOrder dag)))%list ∧
  (length (Changes out.1.1) + length (Errors out.1.1) =
   length (mjoin (GetExecutionOrder dag)))%nat.
Proof.
  unfold executeDeletions.
  destruct (deleteLevels_calls registry force (rev (GetExecutionOrder dag))
              {| Success := true; Changes := []; Errors := [] |} dag c)
    as (_ & Hcalls & Hcount & _).
  split; [done|]. rewrite Hcount by apply executed_nodes. simpl.
  by rewrite Nat.add_0_r, join_rev_length.
Qed.

(** X15.  Dismantle deletes a node before any of its dependencies: when
    a node of the execution order depends on another node and both have
    a registered provider, the delete of the dependent comes earlier in
    the trace than the delete of the dependency. *)
Theorem executeDeletions_dependents_first (dag : DAG)
    (registry : gmap string (providers.Provider World)) (force : bool)
    (c : Cloud World) (N D : string) (node depNode : DAGNode) :
  nodes dag !! N = Some node →
  nodes dag !! D = Some depNode →
  D ∈ Dependencies node →
  N ∈ mjoin (GetExecutionOrder dag) →
  is_Some (registry !! extractProviderName (iKind (Instance node))) →
  is_Some (registry !! extractProviderName (iKind (Instance depNode))) →
  ∃ l1 l2 l3,
    calls (executeDeletions dag registry force c).2 =
    (calls c ++ l1 ++ CallDelete (Instance node) :: l2
             ++ CallDelete (Instance depNode) :: l3)%list.
Proof.
  intros Hnode Hdep Hin HN [p Hp] [p' Hp'].
  apply list_elem_of_join in HN as (level & HNl & Hlevel).
  apply list_elem_of_lookup_1 in Hlevel as [L HL].
  destruct (levelLoop_dependencies _ _ _ _ (GetExecutionOrder_levelLoop dag)
              L level N node D HL HNl Hnode Hin)
    as [Hempty|(L' & level' & Hlt & HL' & HD)]; [by apply elem_of_empty in Hempty|].
  destruct (join_order (deleted registry dag) (GetExecutionOrder dag) L L'
              level level' N D (CallDelete (Instance node))
              (CallDelete (Instance depNode)) Hlt HL HL' HNl HD)
    as (l1 & l2 & l3 & Horder).
  - unfold deleted, GetNode. by rewrite Hnode; simpl; rewrite Hp.
  - unfold deleted, GetNode. by rewrite Hdep; simpl; rewrite Hp'.
  - exists l1, l2, l3.
    by rewrite (executeDeletions_calls_eq dag registry force c), Horder.
Qed.

End dismantle.

End dismantle_more.

Module dismantle_claims.
Import config providers cloud executor cmd cloud_spec commit_spec executor_spec
       executor_more dismantle_spec dismantle_more drift_trace cmd_spec newdag_spec
       newdag_more.

Lemma executeDeletions_dependents_first_witness :
  ∃ l1 l2 l3,
    calls (executeDeletions samples.chainDag samples.chainRegistry false
             samples.emptyCloud).2 =
    (calls samples.emptyCloud ++ l1 ++ CallDelete samples.chainB :: l2
       ++ CallDelete samples.chainA :: l3)%list.
Proof.
  apply (executeDeletions_dependents_first samples.chainDag samples.chainRegistry
           false samples.emptyCloud "aws:s3:bucket.b" "aws:s3:bucket.a"
           (samples.nodeOf samples.chainB [])
           (samples.nodeOf samples.chainA ["aws:s3:bucket.b"])).
  - vm_compute. reflexivity.
  - vm_compute. reflexivity.
  - apply list_elem_of_singleton. reflexivity.
  - apply (bool_decide_unpack _). vm_compute. exact I.
  - apply (bool_decide_unpack _). vm_compute. exact I.
  - apply (bool_decide_unpack _). vm_compute. exact I.
Defined.

Section dismantle.
Context {World : Type}.
Context (exprRun : string → gmap string Value → option Value).
Context (layout : parser.Layout).
Context (ParseFile : string → result (Config * parser.Parser)).
Context (awsProvider : providers.Provider World).
Context (fuel : nat).


(** X17.  Dismantle deletes only what exists: on the graph built from the
    instances that passed the existence filter, every call
    [executeDeletions] adds is the delete of an instance of the
    configuration whose drift result holds a current state. *)
Theorem executeDeletions_existing
    (registry : gmap string (providers.Provider World)) (force : bool)
    (driftResults : gmap string DriftResult) (instances : list ResourceInstance)
    (dag : DAG) (c : Cloud World) :
  NewDAG (existingInstances driftResults instances) = Ok dag →
  ∀ call, call ∈ calls (executeDeletions dag registry force c).2 →
    call ∈ calls c ∨
    ∃ instance driftResult currentState,
      call = CallDelete instance ∧ instance ∈ instances ∧
      driftResults !! iID instance = Some driftResult ∧
      CurrentState driftResult = Some currentState.
Proof.
  intros Hnew call. rewrite executeDeletions_calls_eq.
  intros [Hold|Hnew']%elem_of_app; [by left|]. right.
  apply list_elem_of_join in Hnew' as (l & Hcall & Hl).
  apply list_elem_of_fmap in Hl as (level & -> & _).
  apply list_elem_of_join in Hcall as (l & Hcall & Hl).
  apply list_elem_of_fmap in Hl as (id & -> & _).
  unfold deleted, GetNode in Hcall.
  destruct (nodes dag !! id) as [node|] eqn:Hnode; simpl in Hcall;
    [|by apply elem_of_nil in Hcall].
  destruct (registry !! _); [|by apply elem_of_nil in Hcall].
  apply list_elem_of_singleton in Hcall as ->.
  destruct (NewDAG_grows _ _ Hnew) as [Hgrows _].
  destruct (createNodes_order (existingInstances driftResults instances))
    as (Hfresh & _ & _).
  pose proof (Hgrows id) as Hid. rewrite Hnode in Hid.
  inversion Hid as [n0 ? (_ & Hinst & _) Hn0|]; subst. symmetry in Hn0.
  destruct (Hfresh id n0 Hn0) as (_ & _ & Hin & _). rewrite <- Hinst in Hin.
  unfold existingInstances in Hin.
  apply list_elem_of_In, filter_In in Hin as [Hin Hexists].
  apply list_elem_of_In in Hin.
  destruct (driftResults !! iID (Instance node)) as [driftResult|] eqn:Hdr; [|done].
  apply bool_decide_eq_true in Hexists as [currentState Hcur].
  by exists (Instance node), driftResult, currentState.
Qed.

(** What dismantle may issue: reads, and deletes once approved. *)
Definition dismantles (approved : Prop) (call : Call) : Prop :=
  match call with
  | CallCreate _ | CallUpdate _ _ => False
  | CallDelete _ => approved
  | _ => True
  end.

Lemma reads_dismantles (approved : Prop) (call : Call) :
  reads call → dismantles approved call.
Proof. by destruct call. Qed.

(** X18.  [runDismantle] never creates or updates anything, however it
    ends, and it deletes only after approval: every call it issues is a
    read, or a delete in a run that was auto-approved or answered with
    yes or y. *)
Theorem runDismantle_calls (configFile : string) (autoApprove force : bool)
    (response : string) (c : Cloud World) :
  extends
    (dismantles (autoApprove = true ∨ response = "yes" ∨ response = "y"))
    c
    (runDismantle exprRun layout ParseFile awsProvider fuel configFile
       autoApprove force response c).2.
Proof.
  unfold runDismantle.
  destruct (ParseFile configFile) as [[cfg p]| | |]; simpl; try apply extends_refl.
  pose proof (initializeProviders_reads awsProvider (Providers cfg) ∅ [] c) as Hinit.
  destruct (initializeProviders awsProvider (Providers cfg) ∅ [] c)
    as [[registry installed] c1].
  simpl in Hinit.
  eapply extends_trans;
    [eapply extends_impl; [apply reads_dismantles|exact Hinit]|].
  destruct registry as [registry| | |]; simpl; try apply extends_refl.
  destruct (parser.ExpandResources exprRun layout fuel p (Resources cfg))
    as [instances| | |]; simpl; try apply extends_refl.
  pose proof (detectLoop_reads {| drift.providers_ := registry |} instances ∅ c1)
    as Hdetect.
  unfold wrapC, drift.DetectDriftBatch.
  destruct (drift.detectLoop _ instances ∅ c1) as [driftResults c2].
  simpl in Hdetect.
  eapply extends_trans;
    [eapply extends_impl; [apply reads_dismantles|exact Hdetect]|].
  destruct driftResults as [driftResults| | |]; simpl; try apply extends_refl.
  case_bool_decide; [apply extends_refl|].
  destruct (negb autoApprove && _) eqn:Happroved; [apply extends_refl|].
  destruct (NewDAG _) as [dag| | |]; simpl; try apply extends_refl.
  pose proof (executeDeletions_calls_eq dag registry force c2) as Hcalls.
  destruct (executeDeletions dag registry force c2) as [[result dag'] c3].
  simpl in *. eexists. split; [exact Hcalls|].
  apply Forall_forall. intros call Hcall.
  apply list_elem_of_join in Hcall as (l & Hcall & Hl).
  apply list_elem_of_fmap in Hl as (level & -> & _).
  apply list_elem_of_join in Hcall as (l & Hcall & Hl).
  apply list_elem_of_fmap in Hl as (id & -> & _).
  unfold deleted in Hcall.
  destruct (Instance <$> GetNode dag id); [|by apply elem_of_nil in Hcall].
  destruct (registry !! _); [|by apply elem_of_nil in Hcall].
  apply list_elem_of_singleton in Hcall as ->. simpl.
  apply andb_false_iff in Happroved as [Ha|Hr].
  - left. by destruct autoApprove.
  - right. apply negb_false_iff, orb_true_iff in Hr as [Hr|Hr];
      apply bool_decide_eq_true in Hr; [by left|by right].
Qed.

End dismantle.

Lemma executeDeletions_existing_witness :
  CallDelete samples.chainB ∈ calls samples.emptyCloud ∨
  ∃ instance driftResult currentState,
    CallDelete samples.chainB = CallDelete instance ∧
    instance ∈ [samples.chainA; samples.chainB] ∧
    samples.chainPresent !! iID instance = Some driftResult ∧
    CurrentState driftResult = Some currentState.
Proof.
  apply (executeDeletions_existing samples.chainRegistry false
           samples.chainPresent [samples.chainA; samples.chainB]
           samples.chainDag samples.emptyCloud).
  - vm_compute. reflexivity.
  - vm_compute. apply list_elem_of_here.
Defined.

End dismantle_claims.

(** ** Commit: results and node statuses *)

Module commit_more.
Import config providers cloud executor cmd cloud_spec commit_spec executor_spec
       executor_more drift_trace cmd_spec.

Lemma HasFailures_true (d : DAG) :
  HasFailures d = true ↔
  ∃ id node, nodes d !! id = Some node ∧ Status node = StatusFailed.
Proof.
  unfold HasFailures. rewrite existsb_exists. split.
  - intros (node & Hin%list_elem_of_In & Hs%bool_decide_eq_true).
    apply list_elem_of_fmap in Hin as ([id n] & -> & Hin%elem_of_map_to_list).
    by exists id, n.
  - intros (id & node & Hnode & Hs). exists node. split.
    + apply list_elem_of_In, list_elem_of_fmap. exists (id, node).
      split; [done|]. by apply elem_of_map_to_list.
    + by apply bool_decide_eq_true.
Qed.

Lemma IsComplete_true (d : DAG) :
  IsComplete d = true ↔
  ∀ id node, nodes d !! id = Some node →
             Status node = StatusCompleted ∨ Status node = StatusFailed.
Proof.
  unfold IsComplete. rewrite forallb_forall. split.
  - intros H id node Hnode.
    assert (In node (map_to_list (nodes d)).*2) as Hin.
    { apply list_elem_of_In, list_elem_of_fmap. exists (id, node).
      split; [done|]. by apply elem_of_map_to_list. }
    apply H in Hin. apply negb_true_iff, andb_false_iff in Hin as [Hc|Hf].
    + left. by apply negb_false_iff, bool_decide_eq_true in Hc.
    + right. by apply negb_false_iff, bool_decide_eq_true in Hf.
  - intros H node Hin%list_elem_of_In.
    apply list_elem_of_fmap in Hin as ([id n] & -> & Hin%elem_of_map_to_list).
    simpl. destruct (H id n Hin) as [->| ->]; by vm_compute.
Qed.

Lemma SetNodeStatus_lookup (d : DAG) (id id' : string) (status : NodeStatus)
    (e : option error) :
  nodes (SetNodeStatus d id status e) !! id' =
  if decide (id = id') then
    (fun node => {| ID := ID node; Instance := Instance node;
                    Dependencies := Dependencies node;
                    Dependents := Dependents node;
                    Status := status; Error := e |}) <$> nodes d !! id
  else nodes d !! id'.
Proof. unfold SetNodeStatus. simpl. apply lookup_alter. Qed.

Section commit.
Context {World : Type}.
Context (schedule : list string → list string).

(** One goroutine: the node it touches and what it reports. *)
Lemma executeNode_status (registry : gmap string (providers.Provider World))
    (driftResults : gmap string DriftResult) (nodeID : string) (dag : DAG)
    (c : Cloud World) (node : DAGNode) :
  nodes dag !! nodeID = Some node →
  let out := executeNode registry driftResults nodeID dag c in
  (∀ id', id' ≠ nodeID → nodes out.1.2 !! id' = nodes dag !! id') ∧
  match driftResults !! nodeID with
  | None => out.1.2 = dag ∧ err out.1.1 = None
  | Some _ =>
      ∃ node', nodes out.1.2 !! nodeID = Some node' ∧
               ((Status node' = StatusFailed ∧ is_Some (err out.1.1)) ∨
                (Status node' = StatusCompleted ∧ err out.1.1 = None))
  end.
Proof.
  intros Hnode. unfold executeNode, GetNode. rewrite Hnode.
  destruct (driftResults !! nodeID) as [driftResult|]; simpl; [|done].
  assert (∀ st e id', id' ≠ nodeID →
            nodes (SetNodeStatus (SetNodeStatus dag nodeID StatusRunning None)
                     nodeID st e) !! id' = nodes dag !! id') as Hother.
  { intros st e id' Hne. rewrite !SetNodeStatus_lookup.
    by rewrite !decide_False by done. }
  assert (∀ st e,
            ∃ node', nodes (SetNodeStatus (SetNodeStatus dag nodeID StatusRunning None)
                              nodeID st e) !! nodeID = Some node' ∧
                     Status node' = st) as Hthis.
  { intros st e. rewrite !SetNodeStatus_lookup, !decide_True by done.
    rewrite Hnode. simpl. by eexists. }
  destruct (registry !! _) as [provider|]; simpl.
  2: { split; [apply Hother|].
       destruct (Hthis StatusFailed
                   (Some (errProviderNotFound
                            (extractProviderName (iKind (Instance node))))))
         as (node' & Hn' & Hs').
       exists node'. split; [done|]. left. split; [done|]. by eexists. }
  destruct (CurrentState driftResult) as [cur|].
  - destruct (HasDrift driftResult).
    + destruct (doUpdate provider (Instance node) cur c) as [[e|] c']; simpl;
        (split; [apply Hother|]).
      * destruct (Hthis StatusFailed (Some e)) as (node' & Hn' & Hs').
        exists node'. split; [done|]. left. split; [done|]. by eexists.
      * destruct (Hthis StatusCompleted None) as (node' & Hn' & Hs').
        exists node'. split; [done|]. by right.
    + simpl. split; [apply Hother|].
      destruct (Hthis StatusCompleted None) as (node' & Hn' & Hs').
      exists node'. split; [done|]. by right.
  - destruct (doCreate provider (Instance node) c) as [[e|] c']; simpl;
      (split; [apply Hother|]).
    + destruct (Hthis StatusFailed (Some e)) as (node' & Hn' & Hs').
      exists node'. split; [done|]. left. split; [done|]. by eexists.
    + destruct (Hthis StatusCompleted None) as (node' & Hn' & Hs').
      exists node'. split; [done|]. by right.
Qed.

Lemma collect_Success (result : ExecutionResult) (res : nodeResult) :
  Success (collect result res) = Success result && bool_decide (err res = None).
Proof.
  unfold collect. destruct (err res), (change res); simpl;
    by rewrite ?andb_true_r, ?andb_false_r.
Qed.

(** The nodes of [order] run one after the other. *)
Lemma runLevel_status (registry : gmap string (providers.Provider World))
    (driftResults : gmap string DriftResult) (order : list string) :
  ∀ (result : ExecutionResult) (dag : DAG) (c : Cloud World),
    NoDup order →
    (∀ id, id ∈ order → is_Some (nodes dag !! id)) →
    let out := runLevel registry driftResults order result dag c in
    (∀ id, id ∉ order → nodes out.1.2 !! id = nodes dag !! id) ∧
    (∀ id, id ∈ order →
       match driftResults !! id with
       | None => nodes out.1.2 !! id = nodes dag !! id
       | Some _ =>
           ∃ node', nodes out.1.2 !! id = Some node' ∧
                    (Status node' = StatusFailed ∨ Status node' = StatusCompleted)
       end) ∧
    ((∀ id node, id ∈ order → nodes dag !! id = Some node →
                 Status node ≠ StatusFailed) →
     (Success out.1.1 = true ↔
      Success result = true ∧
      ∀ id node', id ∈ order → nodes out.1.2 !! id = Some node' →
                  Status node' ≠ StatusFailed)).
Proof.
  induction order as [|nodeID rest IH]; intros result dag c Hnodup Hall; simpl.
  - split; [done|]. split; [by intros ? ?%elem_of_nil|]. intros _. split.
    + intros ->. split; [done|]. by intros ? ? ?%elem_of_nil.
    + by intros [-> _].
  - apply NoDup_cons in Hnodup as [Hfirst Hnodup].
    destruct (Hall nodeID) as [node Hnode]; [by left|].
    pose proof (executeNode_status registry driftResults nodeID dag c node Hnode)
      as [Hother Hthis].
    destruct (executeNode registry driftResults nodeID dag c) as [[res dag1] c1].
    simpl in Hother, Hthis.
    assert (∀ id, id ∈ rest → nodes dag1 !! id = nodes dag !! id) as Hrest.
    { intros id Hid. apply Hother. by intros ->. }
    specialize (IH (collect result res) dag1 c1 Hnodup).
    destruct (runLevel registry driftResults rest (collect result res) dag1 c1)
      as [[result2 dag2] c2].
    simpl in IH. destruct IH as (Hout & Hin & Hsucc).
    { intros id Hid. rewrite Hrest by done. apply Hall. by right. }
    simpl.
    assert (nodes dag2 !! nodeID = nodes dag1 !! nodeID) as Hkeep by by apply Hout.
    split; [|split].
    + intros id [Hne Hnot]%not_elem_of_cons. rewrite Hout by done. by apply Hother.
    + intros id [->|Hid]%elem_of_cons.
      * rewrite Hkeep. destruct (driftResults !! nodeID).
        -- destruct Hthis as (node' & Hn' & [[Hs _]|[Hs _]]); exists node';
             (split; [done|]); [by left|by right].
        -- destruct Hthis as [-> _]. done.
      * specialize (Hin id Hid). destruct (driftResults !! id); [done|].
        rewrite Hin. by apply Hrest.
    + intros Hclean. rewrite Hsucc, collect_Success, andb_true_iff,
        bool_decide_eq_true.
      2: { intros id n Hid Hn. rewrite Hrest in Hn by done.
           apply (Hclean id n); [by right|done]. }
      split.
      * intros [[Hres Herr] Hlater]. split; [done|].
        intros id node' [->|Hid]%elem_of_cons Hn'; [|by apply (Hlater id)].
        rewrite Hkeep in Hn'. destruct (driftResults !! nodeID).
        -- destruct Hthis as (n' & Hn1 & [[_ [e He]]|[Hs _]]); [congruence|].
           rewrite Hn1 in Hn'. injection Hn' as <-. by rewrite Hs.
        -- destruct Hthis as [-> _]. apply (Hclean nodeID node'); [by left|done].
      * intros [Hres Hlater]. split; [|intros id n Hid; apply Hlater; by right].
        split; [done|].
        destruct (driftResults !! nodeID).
        -- destruct Hthis as (n' & Hn1 & [[Hs _]|[_ He]]); [|done].
           exfalso. apply (Hlater nodeID n'); [by left|by rewrite Hkeep|done].
        -- by destruct Hthis as [_ ->].
Qed.

Lemma runLevel_app (registry : gmap string (providers.Provider World))
    (driftResults : gmap string DriftResult) (l1 l2 : list string) :
  ∀ (result : ExecutionResult) (dag : DAG) (c : Cloud World),
    runLevel registry driftResults (l1 ++ l2) result dag c =
    let '(result', dag', c') := runLevel registry driftResults l1 result dag c in
    runLevel registry driftResults l2 result' dag' c'.
Proof.
  induction l1 as [|id l1 IH]; intros result dag c; simpl; [done|].
  destruct (executeNode registry driftResults id dag c) as [[res dag'] c'].
  apply IH.
Qed.

Lemma runLevels_flat (registry : gmap string (providers.Provider World))
    (driftResults : gmap string DriftResult) (levels : list (list string)) :
  ∀ (result : ExecutionResult) (dag : DAG) (c : Cloud World),
    runLevels schedule registry driftResults levels result dag c =
    runLevel registry driftResults (mjoin (schedule <$> levels)) result dag c.
Proof.
  induction levels as [|level rest IH]; intros result dag c; simpl; [done|].
  rewrite runLevel_app.
  destruct (runLevel registry driftResults (schedule level) result dag c)
    as [[result' dag'] c'].
  apply IH.
Qed.

Lemma scheduled_Permutation (levels : list (list string)) :
  (∀ level, schedule level ≡ₚ level) →
  mjoin (schedule <$> levels) ≡ₚ mjoin levels.
Proof.
  intros Hperm. induction levels as [|level rest IH]; simpl; [done|].
  by rewrite Hperm, IH.
Qed.

(** X12.  The result of [executeChanges] and the node statuses agree.
    Started on a graph without failed nodes, the result is a success
    exactly when no node ends up failed ([HasFailures]).  If moreover the
    graph's dependencies all name nodes and have a ranking, and every
    node has a drift result, then every node ends up completed or failed
    ([IsComplete]). *)
Theorem executeChanges_outcome (dag : DAG)
    (registry : gmap string (providers.Provider World))
    (driftResults : gmap string DriftResult) (c : Cloud World) :
  (∀ level, schedule level ≡ₚ level) →
  HasFailures dag = false →
  let out := executeChanges schedule dag registry driftResults c in
  Success out.1.1 = negb (HasFailures out.1.2) ∧
  (closed dag → acyclic dag →
   (∀ id, is_Some (nodes dag !! id) → is_Some (driftResults !! id)) →
   IsComplete out.1.2 = true).
Proof.
  intros Hperm Hclean. unfold executeChanges. rewrite runLevels_flat.
  set (order := mjoin (schedule <$> GetExecutionOrder dag)).
  assert (order ≡ₚ mjoin (GetExecutionOrder dag)) as Horder
    by by apply scheduled_Permutation.
  destruct (levelLoop_partition _ _ _ _ (GetExecutionOrder_levelLoop dag))
    as (Hnodup & Hnodes & _).
  assert (∀ id node, nodes dag !! id = Some node → Status node ≠ StatusFailed)
    as Hnofail.
  { intros id node Hnode Hs.
    assert (HasFailures dag = true) by (apply HasFailures_true; by exists id, node).
    congruence. }
  destruct (runLevel_status registry driftResults order
              {| Success := true; Changes := []; Errors := [] |} dag c)
    as (Hout & Hin & Hsucc).
  { by rewrite Horder. }
  { intros id Hid. rewrite Horder in Hid. by apply Hnodes. }
  destruct (runLevel registry driftResults order _ dag c) as [[result dag'] c'].
  simpl in *. split.
  - destruct (HasFailures dag') eqn:Hfail; simpl.
    + apply HasFailures_true in Hfail as (id & node' & Hn' & Hs).
      apply not_true_is_false. intros Htrue.
      apply Hsucc in Htrue as [_ Hlater]; [|intros ? ? _; apply Hnofail].
      destruct (decide (id ∈ order)) as [Hid|Hid].
      * by apply (Hlater id node').
      * rewrite Hout in Hn' by done. by apply (Hnofail id node').
    + apply Hsucc; [intros ? ? _; apply Hnofail|]. split; [done|].
      intros id node' _ Hn' Hs.
      assert (HasFailures dag' = true) by (apply HasFailures_true; by exists id, node').
      congruence.
  - intros Hclosed Hacyclic Hdrift. apply IsComplete_true. intros id node' Hn'.
    assert (is_Some (nodes dag !! id)) as Hnode.
    { destruct (decide (id ∈ order)) as [Hid|Hid].
      - rewrite Horder in Hid. by apply Hnodes.
      - rewrite <- (Hout id Hid). by rewrite Hn'. }
    assert (id ∈ order) as Hid.
    { rewrite Horder. by apply GetExecutionOrder_elements. }
    specialize (Hin id Hid). destruct (Hdrift id Hnode) as [dr Hdr].
    rewrite Hdr in Hin. destruct Hin as (n' & Hn1 & Hs).
    rewrite Hn1 in Hn'. injection Hn' as <-. destruct Hs; [by right|by left].
Qed.

End commit.

End commit_more.

Module commit_more_claims.
Import config providers cloud executor cmd cloud_spec commit_spec executor_spec
       executor_more drift_trace cmd_spec commit_more.

Lemma executeChanges_outcome_witness :
  Success (executeChanges id samples.chainDag samples.chainRegistry
             samples.chainDrift samples.emptyCloud).1.1 =
  negb (HasFailures (executeChanges id samples.chainDag samples.chainRegistry
                       samples.chainDrift samples.emptyCloud).1.2).
Proof.
  apply (executeChanges_outcome id samples.chainDag samples.chainRegistry
           samples.chainDrift samples.emptyCloud).
  - intros level. reflexivity.
  - vm_compute. reflexivity.
Defined.

Section commit.
Context {World : Type}.
Context (exprRun : string → gmap string Value → option Value).
Context (layout : parser.Layout).
Context (ParseFile : string → result (Config * parser.Parser)).
Context (awsProvider : providers.Provider World).
Context (schedule : list string → list string).
Context (fuel : nat).

(** What commit may issue: reads, and creates and updates once approved. *)
Definition commits (approved : Prop) (call : Call) : Prop :=
  match call with
  | CallDelete _ => False
  | CallCreate _ | CallUpdate _ _ => approved
  | _ => True
  end.

Lemma reads_commits (approved : Prop) (call : Call) :
  reads call → commits approved call.
Proof. by destruct call. Qed.

(** X13.  [runCommit] never deletes anything, however it ends, and it
    changes nothing without approval: every call it issues is a read, or
    a create or update in a run that was auto-approved or answered with
    yes or y. *)
Theorem runCommit_calls (configFile : string) (autoApprove : bool)
    (response : string) (c : Cloud World) :
  extends
    (commits (autoApprove = true ∨ response = "yes" ∨ response = "y"))
    c
    (runCommit exprRun layout ParseFile awsProvider schedule fuel configFile
       autoApprove response c).2.
Proof.
  unfold runCommit.
  destruct (ParseFile configFile) as [[cfg p]| | |]; simpl; try apply extends_refl.
  pose proof (initializeProviders_reads awsProvider (Providers cfg) ∅ [] c) as Hinit.
  destruct (initializeProviders awsProvider (Providers cfg) ∅ [] c)
    as [[registry installed] c1].
  simpl in Hinit.
  eapply extends_trans;
    [eapply extends_impl; [apply reads_commits|exact Hinit]|].
  destruct registry as [registry| | |]; simpl; try apply extends_refl.
  destruct (parser.ExpandResources exprRun layout fuel p (Resources cfg))
    as [instances| | |]; simpl; try apply extends_refl.
  pose proof (detectLoop_reads {| drift.providers_ := registry |} instances ∅ c1)
    as Hdetect.
  unfold wrapC, drift.DetectDriftBatch.
  destruct (drift.detectLoop _ instances ∅ c1) as [driftResults c2].
  simpl in Hdetect.
  eapply extends_trans;
    [eapply extends_impl; [apply reads_commits|exact Hdetect]|].
  destruct driftResults as [driftResults| | |]; simpl; try apply extends_refl.
  destruct (negb autoApprove && _) eqn:Happroved; [apply extends_refl|].
  destruct (NewDAG _) as [dag| | |]; simpl; try apply extends_refl.
  pose proof (runLevels_calls schedule registry driftResults (GetExecutionOrder dag)
                {| Success := true; Changes := []; Errors := [] |} dag c2) as Hcalls.
  unfold executeChanges.
  destruct (runLevels schedule registry driftResults _ _ dag c2)
    as [[result dag'] c3].
  simpl in *. eexists. split; [exact Hcalls|].
  assert (autoApprove = true ∨ response = "yes" ∨ response = "y") as Hyes.
  { apply andb_false_iff in Happroved as [Ha|Hr].
    - left. by destruct autoApprove.
    - right. apply negb_false_iff, orb_true_iff in Hr as [Hr|Hr];
        apply bool_decide_eq_true in Hr; [by left|by right]. }
  apply Forall_forall. intros call Hcall.
  apply list_elem_of_join in Hcall as (l & Hcall & Hl).
  apply list_elem_of_fmap in Hl as (level & -> & _).
  apply list_elem_of_join in Hcall as (l & Hcall & Hl).
  apply list_elem_of_fmap in Hl as (id & -> & _).
  unfold issued in Hcall.
  destruct (Instance <$> GetNode dag id); [|by apply elem_of_nil in Hcall].
  destruct (driftResults !! id) as [dr|]; [|by apply elem_of_nil in Hcall].
  destruct (registry !! _); [|by apply elem_of_nil in Hcall].
  destruct (CurrentState dr).
  - destruct (HasDrift dr); [|by apply elem_of_nil in Hcall].
    by apply list_elem_of_singleton in Hcall as ->.
  - by apply list_elem_of_singleton in Hcall as ->.
Qed.

End commit.

End commit_more_claims.

(** ** Strings, continued *)

Module mixed_spec.
Import gostrings gofmt config parser gostrings_spec parser_spec.

Lemma HasPrefix_cons_ne (c d : ascii) (s t : string) :
  c ≠ d → HasPrefix (String c s) (String d t) = false.
Proof.
  intros Hne. unfold HasPrefix. simpl.
  by destruct (ascii_dec d c) as [->|].
Qed.

Lemma HasPrefix_length (s prefix : string) :
  HasPrefix s prefix = true → (String.length prefix ≤ String.length s)%nat.
Proof.
  unfold HasPrefix. revert s. induction prefix as [|c prefix IH]; intros s; simpl;
    [intros _; lia|].
  destruct s as [|d s]; simpl; [done|]. destruct (ascii_dec c d); [|done].
  intros H%IH. lia.
Qed.

Lemma HasPrefix_refl (s : string) : HasPrefix s s = true.
Proof.
  unfold HasPrefix. induction s as [|c s IH]; simpl; [done|].
  by destruct (ascii_dec c c).
Qed.

Lemma Index_Some_length (s substr : string) (n : nat) :
  Index s substr = Some n → (n + String.length substr ≤ String.length s)%nat.
Proof.
  revert n. induction s as [|c s IH]; intros n; cbn [Index].
  - destruct (HasPrefix "" substr) eqn:Hp; [|done].
    intros [= <-]. by apply HasPrefix_length in Hp.
  - destruct (HasPrefix (String c s) substr) eqn:Hp.
    + intros [= <-]. by apply HasPrefix_length in Hp.
    + destruct (Index s substr) as [m|]; [|done]. intros [= <-].
      specialize (IH m eq_refl). simpl. lia.
Qed.

Lemma HasSuffix_Index (s suffix : string) :
  HasSuffix s suffix = true → is_Some (Index s suffix).
Proof.
  induction s as [|c s IH]; cbn [HasSuffix Index].
  - case_bool_decide as Heq; [|done]. subst. intros _.
    rewrite HasPrefix_refl. by eexists.
  - case_bool_decide as Heq.
    + subst. intros _. rewrite HasPrefix_refl. by eexists.
    + intros [m Hm]%IH. destruct (HasPrefix _ _); [by eexists|].
      rewrite Hm. by eexists.
Qed.

Lemma HasSuffix_length (s suffix : string) :
  HasSuffix s suffix = true → (String.length suffix ≤ String.length s)%nat.
Proof.
  induction s as [|c s IH]; simpl.
  - case_bool_decide; [by subst|done].
  - case_bool_decide; [subst; simpl; lia|]. intros Hs%IH. lia.
Qed.

Lemma HasSuffix_drop (suffix : string) (n : nat) :
  ∀ s, HasSuffix s suffix = true →
       (n + String.length suffix ≤ String.length s)%nat →
       HasSuffix (drop n s) suffix = true.
Proof.
  induction n as [|n IH]; intros s Hs Hlen; [by destruct s|].
  destruct s as [|c s]; [simpl in Hlen; lia|]. simpl in *.
  case_bool_decide as Heq.
  - subst. simpl in Hlen. lia.
  - apply IH; [done|lia].
Qed.

Lemma drop_app_plus (pre s : string) (n : nat) :
  drop (String.length pre + n) (pre +:+ s) = drop n s.
Proof. induction pre as [|c pre IH]; simpl; [done|apply IH]. Qed.

Lemma drop_app_length (pre s : string) : drop (String.length pre) (pre +:+ s) = s.
Proof.
  rewrite <- (Nat.add_0_r (String.length pre)), drop_app_plus. by destruct s.
Qed.

Lemma memAscii_app (c : ascii) (a b : string) :
  memAscii c (a +:+ b) = memAscii c a || memAscii c b.
Proof.
  induction a as [|d a IH]; simpl; [done|]. by rewrite IH, orb_assoc.
Qed.

Lemma Index_absent (c d : ascii) (s : string) :
  memAscii c s = false → Index s (String c (String d "")) = None.
Proof.
  induction s as [|e s IH]; cbn [Index memAscii]; [done|].
  intros [Hne Hs]%orb_false_iff. apply bool_decide_eq_false in Hne.
  rewrite HasPrefix_cons_ne by done. by rewrite IH.
Qed.

Lemma Index_one_absent (c : ascii) (s : string) :
  memAscii c s = false → Index s (String c "") = None.
Proof.
  induction s as [|e s IH]; cbn [Index memAscii]; [done|].
  intros [Hne Hs]%orb_false_iff. apply bool_decide_eq_false in Hne.
  rewrite HasPrefix_cons_ne by done. by rewrite IH.
Qed.

Lemma Index_app_absent (c d : ascii) (pre rest : string) :
  memAscii c pre = false →
  Index (pre +:+ String c (String d rest)) (String c (String d "")) =
  Some (String.length pre).
Proof.
  induction pre as [|e pre IH]; simpl String.append; cbn [Index memAscii String.length].
  - intros _. apply Index_prefix.
    exact (HasPrefix_app (String c (String d "")) rest).
  - intros [Hne Hs]%orb_false_iff. apply bool_decide_eq_false in Hne.
    change (String e pre +:+ String c (String d rest))
      with (String e (pre +:+ String c (String d rest))).
    cbn [Index]. rewrite HasPrefix_cons_ne by done. by rewrite IH.
Qed.

Lemma Index_one_app_absent (c : ascii) (pre rest : string) :
  memAscii c pre = false →
  Index (pre +:+ String c rest) (String c "") = Some (String.length pre).
Proof.
  induction pre as [|e pre IH]; simpl String.append; cbn [Index memAscii String.length].
  - intros _. apply Index_prefix. exact (HasPrefix_app (String c "") rest).
  - intros [Hne Hs]%orb_false_iff. apply bool_decide_eq_false in Hne.
    change (String e pre +:+ String c rest) with (String e (pre +:+ String c rest)).
    cbn [Index]. rewrite HasPrefix_cons_ne by done. by rewrite IH.
Qed.

Lemma ContainsAny_memAscii (c : ascii) (s chars : string) :
  memAscii c chars = true → ContainsAny s chars = false → memAscii c s = false.
Proof.
  intros Hc. induction s as [|d s IH]; simpl; [done|].
  intros [Hd Hs]%orb_false_iff. rewrite IH by done. rewrite orb_false_r.
  apply bool_decide_eq_false. intros ->. congruence.
Qed.

Lemma take_app_plus (pre s : string) (n : nat) :
  take (String.length pre + n) (pre +:+ s) = pre +:+ take n s.
Proof. induction pre as [|c pre IH]; simpl; [done|by rewrite IH]. Qed.

Lemma append_assoc (a b c : string) : (a +:+ b) +:+ c = a +:+ (b +:+ c).
Proof.
  induction a as [|d a IH]; [done|].
  change (String d ((a +:+ b) +:+ c) = String d (a +:+ b +:+ c)). by f_equal.
Qed.

Lemma append_nil_r (a : string) : a +:+ "" = a.
Proof.
  induction a as [|d a IH]; [done|].
  change (String d (a +:+ "") = String d a). by f_equal.
Qed.

Lemma append_inv_head (a b c : string) : a +:+ b = a +:+ c → b = c.
Proof.
  induction a as [|d a IH]; [done|]. intros H.
  change (String d (a +:+ b) = String d (a +:+ c)) in H.
  injection H as H. by apply IH.
Qed.

End mixed_spec.

(** ** Names with one fragment *)

Module expansion_spec.
Import gostrings gofmt config parser gostrings_spec parser_spec mixed_spec.

Section expressions.
Context (exprRun : string → gmap string Value → option Value).
Context (layout : Layout).

Lemma substituteLoop_done (fuel : nat) (p : Parser) (input res : string) :
  Index res "${" = None → substituteLoop exprRun fuel p input res = Ok (VStr res).
Proof. intros H. destruct fuel; simpl; by rewrite H. Qed.

Lemma simple_no_brace (e : string) :
  isSimpleVariable e = true → memAscii "}" e = false.
Proof.
  intros H%negb_true_iff.
  apply (ContainsAny_memAscii "}" e " +-*/()[]{}=<>!&|?:"); [reflexivity|done].
Qed.

(** One fragment between texts without a dollar sign. *)
Lemma substituteLoop_one (fuel : nat) (p : Parser) (input pre e post : string)
    (v : Value) :
  memAscii "$" pre = false →
  isSimpleVariable e = true →
  variables p !! e = Some v →
  memAscii "$" (Sprint v +:+ post) = false →
  substituteLoop exprRun (S fuel) p input (pre +:+ "${" +:+ e +:+ "}" +:+ post) =
  Ok (VStr (pre +:+ Sprint v +:+ post)).
Proof.
  intros Hpre Hsimple Hvar Hrest.
  set (res := pre +:+ "${" +:+ e +:+ "}" +:+ post).
  assert (Index res "${" = Some (String.length pre)) as Hstart.
  { apply (Index_app_absent "$" "{" pre (e +:+ "}" +:+ post) Hpre). }
  assert (Index (drop (String.length pre) res) "}" = Some (2 + String.length e)%nat)
    as Hoffset.
  { unfold res. rewrite drop_app_length.
    apply (Index_one_app_absent "}" ("${" +:+ e) post).
    change (memAscii "}" (String "$" (String "{" e)) = false).
    cbn [memAscii]. rewrite simple_no_brace by done. done. }
  assert (slice (String.length pre + 2) (2 + String.length e + String.length pre) res
          = e) as Hexpr.
  { unfold slice, res. rewrite drop_app_plus.
    replace (2 + String.length e + String.length pre - (String.length pre + 2))%nat
      with (String.length e) by lia.
    apply (take_app_length e ("}" +:+ post)). }
  assert (take (String.length pre) res = pre) as Htake
    by apply take_app_length.
  assert (drop (2 + String.length e + String.length pre + 1) res = post) as Hdrop.
  { unfold res.
    replace (2 + String.length e + String.length pre + 1)%nat
      with (String.length pre + String.length ("${" +:+ e +:+ "}"))%nat.
    - rewrite drop_app_plus.
      rewrite <- (append_assoc e "}" post).
      apply (drop_app_length ("${" +:+ e +:+ "}") post).
    - rewrite !length_app. simpl. lia. }
  cbn [substituteLoop]. rewrite Hstart, Hoffset, Hexpr.
  unfold evaluateExpr. rewrite Hvar, Htake, Hdrop.
  apply substituteLoop_done, Index_absent.
  by rewrite memAscii_app, Hpre.
Qed.

Lemma evaluateExpression_one (fuel : nat) (p : Parser) (c : ascii)
    (pre e post : string) (v : Value) :
  memAscii "$" (String c pre) = false →
  isSimpleVariable e = true →
  variables p !! e = Some v →
  memAscii "$" (Sprint v +:+ post) = false →
  evaluateExpression exprRun (S fuel) p (String c pre +:+ "${" +:+ e +:+ "}" +:+ post) =
  Ok (VStr (String c pre +:+ Sprint v +:+ post)).
Proof.
  intros Hpre Hsimple Hvar Hrest. unfold evaluateExpression.
  set (name := String c pre +:+ "${" +:+ e +:+ "}" +:+ post).
  assert (Index name "${" = Some (String.length (String c pre))) as Hidx
    by apply (Index_app_absent "$" "{" (String c pre) (e +:+ "}" +:+ post) Hpre).
  assert (Contains name "${" = true) as -> by (unfold Contains; by rewrite Hidx).
  assert (HasPrefix name "${" = false) as ->.
  { apply (HasPrefix_cons_ne c "$"). cbn [memAscii] in Hpre.
    apply orb_false_iff in Hpre as [Hne _]. apply bool_decide_eq_false in Hne.
    congruence. }
  simpl negb. cbv iota. simpl andb. cbv iota.
  by apply substituteLoop_one.
Qed.

End expressions.

End expansion_spec.

Module expansion_more.
Import gostrings gofmt config parser gostrings_spec parser_spec mixed_spec
       expansion_spec.

Lemma pretty_N_go_no_dollar (x : N) :
  ∀ s, memAscii "$" s = false → memAscii "$" (pretty_N_go x s) = false.
Proof.
  induction (N.lt_wf_0 x) as [x _ IH]. intros s Hs.
  assert (x = 0 ∨ 0 < x)%N as [->|Hpos] by lia.
  - by rewrite pretty_N_go_0.
  - rewrite pretty_N_go_step by done. apply IH; [by apply N.div_lt|].
    cbn [memAscii]. rewrite Hs, orb_false_r. apply bool_decide_eq_false.
    unfold pretty_N_char. by repeat case_match.
Qed.

Lemma pretty_Z_no_dollar (n : Z) : memAscii "$" (pretty n) = false.
Proof.
  assert (∀ x : N, memAscii "$" (pretty x) = false) as HN.
  { intros x. unfold pretty, pretty_N. case_decide; [done|].
    by apply pretty_N_go_no_dollar. }
  destruct n as [|x|x]; [done|apply (HN (Npos x))|].
  change (pretty (Z.neg x)) with ("-" +:+ pretty (Npos x)).
  rewrite memAscii_app. by rewrite (HN (Npos x)).
Qed.

Section expansion.
Context (exprRun : string → gmap string Value → option Value).
Context (layout : Layout).

Lemma instancesFor_fmap {A} (create : A → result ResourceInstance)
    (made : A → ResourceInstance) (xs : list A) :
  (∀ x, x ∈ xs → create x = Ok (made x)) →
  instancesFor create xs = Ok (made <$> xs).
Proof.
  induction xs as [|x xs IH]; intros H; simpl; [done|].
  rewrite H by by left. simpl. rewrite IH; [done|]. intros y Hy. apply H. by right.
Qed.

Definition named (r : Resource) (name : string) : ResourceInstance :=
  {| iID := Kind r +:+ "." +:+ name; iKind := Kind r; iName := name;
     iProperties := Properties r; iDriftPolicy := DriftPolicy_ r;
     iDependsOn := DependsOn r |}.

Lemma createInstance_one (fuel : nat) (p : Parser) (r : Resource)
    (vars : gmap string Value) (c : ascii) (pre e post : string) (v : Value) :
  memAscii "$" (String c pre) = false →
  isSimpleVariable e = true →
  (vars ∪ variables p) !! e = Some v →
  memAscii "$" (Sprint v +:+ post) = false →
  Name r = String c pre +:+ "${" +:+ e +:+ "}" +:+ post →
  createInstance exprRun layout (S fuel) p r vars =
  Ok (named r (String c pre +:+ Sprint v +:+ post)).
Proof.
  intros Hpre Hsimple Hvar Hrest Hname.
  rewrite createInstance_eq. unfold instanceName. rewrite Hname.
  assert (Contains (String c pre +:+ "${" +:+ e +:+ "}" +:+ post) "${" = true) as ->.
  { unfold Contains.
    by rewrite (Index_app_absent "$" "{" (String c pre) (e +:+ "}" +:+ post) Hpre
                : Index (String c pre +:+ "${" +:+ e +:+ "}" +:+ post) "${" = _). }
  by rewrite (evaluateExpression_one exprRun fuel {| variables := vars ∪ variables p |}
                c pre e post v Hpre Hsimple Hvar Hrest).
Qed.

(** X19.  A name with one fragment in the middle of text.  When the name
    is a non-empty text without a dollar sign, then a fragment naming a
    bound simple variable, then text without a dollar sign, and the
    printed value holds no dollar sign either, [createInstance] (given
    fuel for one round) names the instance by the text with the printed
    value in place of the fragment, and builds its ID from that name. *)
Theorem createInstance_mixed_name (fuel : nat) (p : Parser) (r : Resource)
    (vars : gmap string Value) (c : ascii) (pre e post : string) (v : Value) :
  memAscii "$" (String c pre) = false →
  isSimpleVariable e = true →
  (vars ∪ variables p) !! e = Some v →
  memAscii "$" (Sprint v +:+ post) = false →
  Name r = String c pre +:+ "${" +:+ e +:+ "}" +:+ post →
  createInstance exprRun layout (S fuel) p r vars =
  Ok {| iID := Kind r +:+ "." +:+ String c pre +:+ Sprint v +:+ post;
        iKind := Kind r;
        iName := String c pre +:+ Sprint v +:+ post;
        iProperties := Properties r;
        iDriftPolicy := DriftPolicy_ r;
        iDependsOn := DependsOn r |}.
Proof. apply createInstance_one. Qed.

(** X20.  A literal count with a name that ends in the index fragment
    (after a non-empty text without a dollar sign) expands to one
    instance per index from 0 up to the count, named by the text followed
    by the index in decimal; the IDs of these instances are pairwise
    distinct. *)
Theorem expandResource_count_index (fuel : nat) (p : Parser) (r : Resource)
    (c : ascii) (pre : string) (n : Z) :
  memAscii "$" (String c pre) = false →
  Name r = String c pre +:+ "${index}" →
  Count r = Some (VInt n) →
  expandResource exprRun layout (S fuel) p r =
    Ok ((fun i : nat => named r (String c pre +:+ pretty (Z.of_nat i)))
        <$> seq 0 (Z.to_nat n)) ∧
  NoDup ((fun i : nat => Kind r +:+ "." +:+ String c pre +:+ pretty (Z.of_nat i))
         <$> seq 0 (Z.to_nat n)).
Proof.
  intros Hpre Hname Hcount. split.
  - unfold expandResource. rewrite Hcount. simpl.
    apply instancesFor_fmap. intros i _.
    rewrite (createInstance_one fuel p r {["index" := VInt (Z.of_nat i)]}
               c pre "index" "" (VInt (Z.of_nat i))); try done.
    + simpl. by rewrite append_nil_r.
    + apply lookup_union_Some_l. apply lookup_singleton_eq.
    + simpl. rewrite append_nil_r. apply pretty_Z_no_dollar.
  - apply NoDup_fmap_2_strong; [|apply NoDup_seq].
    intros i j _ _ H.
    apply append_inv_head, append_inv_head, append_inv_head in H.
    by apply (inj pretty), Nat2Z.inj in H.
Qed.

End expansion.

Lemma createInstance_mixed_name_witness :
  createInstance samples.noExpr samples.layout 1 samples.noVariables samples.s2Logs
    {["region" := VStr "us-east-1"]} =
  Ok {| iID := Kind samples.s2Logs +:+ "." +:+ "logs-" +:+ "us-east-1" +:+ "";
        iKind := Kind samples.s2Logs;
        iName := "logs-" +:+ "us-east-1" +:+ "";
        iProperties := Properties samples.s2Logs;
        iDriftPolicy := DriftPolicy_ samples.s2Logs;
        iDependsOn := DependsOn samples.s2Logs |}.
Proof.
  apply (createInstance_mixed_name samples.noExpr samples.layout 0
           samples.noVariables samples.s2Logs {["region" := VStr "us-east-1"]}
           "l" "ogs-" "region" "" (VStr "us-east-1")).
  - reflexivity.
  - reflexivity.
  - reflexivity.
  - reflexivity.
  - reflexivity.
Defined.

Lemma expandResource_count_index_witness :
  expandResource samples.noExpr samples.layout 1 samples.noVariables
    (samples.declaration "aws:ec2:instance" "web-${index}" (Some (VInt 3)) None) =
    Ok ((fun i : nat =>
           named (samples.declaration "aws:ec2:instance" "web-${index}"
                    (Some (VInt 3)) None)
                 ("web-" +:+ pretty (Z.of_nat i)))
        <$> seq 0 (Z.to_nat 3)) ∧
  NoDup ((fun i : nat =>
            "aws:ec2:instance" +:+ "." +:+ "web-" +:+ pretty (Z.of_nat i))
         <$> seq 0 (Z.to_nat 3)).
Proof.
  apply (expandResource_count_index samples.noExpr samples.layout 0
           samples.noVariables
           (samples.declaration "aws:ec2:instance" "web-${index}" (Some (VInt 3)) None)
           "w" "eb-" 3).
  - reflexivity.
  - reflexivity.
  - reflexivity.
Defined.

End expansion_more.

Module expansion_claims.
Import gostrings gofmt config parser gostrings_spec parser_spec mixed_spec
       expansion_spec expansion_more.

Definition withForEach (r : Resource) (forEach : option Value) : Resource :=
  {| Kind := Kind r; Name := Name r; Count := Count r; ForEach := forEach;
     Properties := Properties r; DriftPolicy_ := DriftPolicy_ r;
     DependsOn := DependsOn r |}.

Section expansion.
Context (exprRun : string → gmap string Value → option Value).
Context (layout : Layout).

Lemma substituteLoop_outcome (fuel : nat) (p : Parser) (input : string) :
  ∀ res,
    match substituteLoop exprRun fuel p input res with
    | Err e => e = errUnclosedExpression input
    | Panic => False
    | _ => True
    end.
Proof.
  induction fuel as [|fuel IH]; intros res; simpl;
    destruct (Index res "${") as [start|]; try done;
    destruct (Index (drop start res) "}") as [offset|]; try done.
  destruct (evaluateExpr_ok exprRun p (slice (start + 2) (offset + start) res))
    as [v ->].
  apply IH.
Qed.

(** X21.  The only error [evaluateExpression] ever returns is the
    unclosed-expression error for its input; it never panics, and the
    wrapper for a failed evaluation is never produced, because
    [evaluateExpr] never fails.  It does return that error, whatever the
    fuel, when no closing brace follows the first opening of a
    fragment. *)
Theorem evaluateExpression_errors (fuel : nat) (p : Parser) (input : string) :
  match evaluateExpression exprRun fuel p input with
  | Err e => e = errUnclosedExpression input
  | Panic => False
  | _ => True
  end ∧
  ∀ start, Index input "${" = Some start →
           Index (drop start input) "}" = None →
           evaluateExpression exprRun fuel p input =
           Err (errUnclosedExpression input).
Proof.
  split.
  - unfold evaluateExpression. destruct (negb _); [done|].
    destruct (_ && _).
    + by destruct (evaluateExpr_ok exprRun p (slice 2 (String.length input - 1) input))
        as [v ->].
    + apply substituteLoop_outcome.
  - intros start Hstart Hclose. unfold evaluateExpression, Contains.
    rewrite Hstart. simpl negb. cbv iota.
    assert (HasSuffix input "}" = false) as ->.
    { destruct (HasSuffix input "}") eqn:Hsuffix; [|done].
      apply Index_Some_length in Hstart. simpl in Hstart.
      apply (HasSuffix_drop "}" start) in Hsuffix; [|simpl; lia].
      apply HasSuffix_Index in Hsuffix as [m Hm]. congruence. }
    rewrite andb_false_r. simpl andb. cbv iota.
    destruct fuel; simpl; by rewrite Hstart, Hclose.
Qed.

Lemma Atoi_fragment (e : string) : Atoi ("${" +:+ e +:+ "}") = Err (errAtoi ("${" +:+ e +:+ "}")).
Proof. reflexivity. Qed.

(** X22.  A count given as a string is looked up as a variable, never
    read as a number: when the string is a simple identifier that names
    no variable (the decimal literal 3 written as a string, for one),
    expansion fails with the conversion error for the fragment built from
    it. *)
Theorem expandResource_count_unbound (fuel : nat) (p : Parser) (r : Resource)
    (v : string) :
  Count r = Some (VStr v) →
  isSimpleVariable v = true →
  variables p !! v = None →
  expandResource exprRun layout fuel p r =
  Err (errResolvingCount (errAtoi ("${" +:+ v +:+ "}"))).
Proof.
  intros Hcount Hsimple Hunbound. unfold expandResource. rewrite Hcount.
  unfold resolveCount, evaluateExpr. rewrite Hunbound, Hsimple.
  cbn [mbind result_bind bindR mret result_ret].
  rewrite Atoi_fragment. reflexivity.
Qed.

(** X23.  A for_each given as a string.  A string that is not one whole
    fragment is taken as the one item to iterate over: expansion creates
    a single instance with that string bound to region.  A whole fragment
    naming a simple variable that is not bound fails with the
    not-an-array error (it is not treated as an empty list). *)
Theorem expandResource_forEach_string (fuel : nat) (p : Parser) (r : Resource)
    (v : string) :
  Count r = None →
  ForEach r = Some (VStr v) →
  (HasPrefix v "${" && HasSuffix v "}" = false →
   expandResource exprRun layout fuel p r =
   (instance ← createInstance exprRun layout fuel p r {["region" := VStr v]};
    Ok [instance])) ∧
  (∀ e, v = "${" +:+ e +:+ "}" → isSimpleVariable e = true →
        variables p !! e = None →
        expandResource exprRun layout fuel p r =
        Err (errResolvingForEach errForEachExpressionNotArray)).
Proof.
  intros Hcount HforEach. unfold expandResource. rewrite Hcount, HforEach.
  unfold resolveForEach. split.
  - intros ->. simpl.
    by destruct (createInstance exprRun layout fuel p r {["region" := VStr v]}).
  - intros e -> Hsimple Hunbound.
    rewrite (HasPrefix_app "${" (e +:+ "}")), HasSuffix_fragment. simpl andb.
    cbv iota. rewrite slice_fragment. unfold evaluateExpr.
    by rewrite Hunbound, Hsimple.
Qed.

Lemma instancesFor_ext {A} (f g : A → result ResourceInstance) (xs : list A) :
  (∀ x, f x = g x) → instancesFor f xs = instancesFor g xs.
Proof.
  intros H. induction xs as [|x xs IH]; simpl; [done|]. by rewrite H, IH.
Qed.

(** When a count is set, the for_each of the declaration plays no part
    in the expansion. *)
Lemma expandResource_count_precedence (fuel : nat) (p : Parser) (r : Resource)
    (count : Value) (forEach : option Value) :
  Count r = Some count →
  expandResource exprRun layout fuel p (withForEach r forEach) =
  expandResource exprRun layout fuel p (withForEach r None).
Proof.
  intros Hcount. unfold expandResource. simpl. rewrite Hcount.
  destruct (wrapErr errResolvingCount (resolveCount exprRun p count)) as [n| | |];
    try done.
  simpl. apply instancesFor_ext. intros i.
  by rewrite !createInstance_eq.
Qed.

(** X24.  A name that is one whole fragment is replaced only by a string:
    when the fragment names a simple variable bound to a value that is not
    a string (the index of a count, an item that is a map), the instance
    keeps the fragment itself as its name and in its ID. *)
Theorem createInstance_name_not_string (fuel : nat) (p : Parser) (r : Resource)
    (vars : gmap string Value) (e : string) (v : Value) :
  Name r = "${" +:+ e +:+ "}" →
  isSimpleVariable e = true →
  (vars ∪ variables p) !! e = Some v →
  (∀ s, v ≠ VStr s) →
  createInstance exprRun layout fuel p r vars =
  Ok {| iID := Kind r +:+ "." +:+ "${" +:+ e +:+ "}"; iKind := Kind r;
        iName := "${" +:+ e +:+ "}"; iProperties := Properties r;
        iDriftPolicy := DriftPolicy_ r; iDependsOn := DependsOn r |}.
Proof.
  intros Hname Hsimple Hvar Hnot.
  rewrite createInstance_eq. unfold instanceName, evaluateExpression. rewrite Hname.
  rewrite (Contains_prefix "${" (e +:+ "}")). simpl negb. cbv iota.
  rewrite (HasPrefix_app "${" (e +:+ "}")), HasSuffix_fragment.
  rewrite (CountOpen_fragment e " +-*/()[]{}=<>!&|?:")
    by (reflexivity || by apply negb_true_iff).
  rewrite bool_decide_eq_true_2 by done. simpl andb. cbv iota.
  rewrite slice_fragment. unfold evaluateExpr. cbn [variables]. rewrite Hvar.
  destruct v as [ | | | |s| | | | ]; try done. by destruct (Hnot s).
Qed.

End expansion.

Lemma expandResource_count_unbound_witness :
  expandResource samples.noExpr samples.layout 0 samples.noVariables
    (samples.declaration "aws:ec2:instance" "web" (Some (VStr "3")) None) =
  Err (errResolvingCount (errAtoi ("${" +:+ "3" +:+ "}"))).
Proof.
  apply (expandResource_count_unbound samples.noExpr samples.layout 0
           samples.noVariables
           (samples.declaration "aws:ec2:instance" "web" (Some (VStr "3")) None) "3").
  - reflexivity.
  - reflexivity.
  - reflexivity.
Defined.

Lemma expandResource_forEach_string_witness :
  expandResource samples.noExpr samples.layout 1 samples.noVariables
    (samples.declaration "aws:s3:bucket" "logs-${region}" None
       (Some (VStr "us-east-1"))) =
  (instance ←
     createInstance samples.noExpr samples.layout 1 samples.noVariables
       (samples.declaration "aws:s3:bucket" "logs-${region}" None
          (Some (VStr "us-east-1")))
       {["region" := VStr "us-east-1"]};
   Ok [instance]).
Proof.
  apply (expandResource_forEach_string samples.noExpr samples.layout 1
           samples.noVariables
           (samples.declaration "aws:s3:bucket" "logs-${region}" None
              (Some (VStr "us-east-1"))) "us-east-1").
  - reflexivity.
  - reflexivity.
  - reflexivity.
Defined.

Lemma createInstance_name_not_string_witness :
  createInstance samples.noExpr samples.layout 0 samples.noVariables
    (samples.declaration "aws:ec2:instance" "${index}" (Some (VInt 2)) None)
    {["index" := VInt 0]} =
  Ok {| iID := "aws:ec2:instance" +:+ "." +:+ "${" +:+ "index" +:+ "}";
        iKind := "aws:ec2:instance";
        iName := "${" +:+ "index" +:+ "}";
        iProperties := {[ "versioning" := VBool true ]};
        iDriftPolicy := None; iDependsOn := [] |}.
Proof.
  apply (createInstance_name_not_string samples.noExpr samples.layout 0
           samples.noVariables
           (samples.declaration "aws:ec2:instance" "${index}" (Some (VInt 2)) None)
           {["index" := VInt 0]} "index" (VInt 0)).
  - reflexivity.
  - reflexivity.
  - reflexivity.
  - intros s. discriminate.
Defined.

End expansion_claims.

(** ** The policy engine, continued *)

Module policy_more.
Import config policy policy_spec.

(** The severity [AddRule] stores. *)
Definition storedSeverity (rule : PolicyRule) : string :=
  if bool_decide (rSeverity rule = "") then "warning" else rSeverity rule.

Lemma withSeverity_same (rule : PolicyRule) :
  withSeverity rule (rSeverity rule) = rule.
Proof. by destruct rule. Qed.

Lemma existsb_severity (s : string) :
  existsb (fun severity => bool_decide (s = severity)) ["error"; "warning"; "info"]
  = true ↔ s ∈ ["error"; "warning"; "info"].
Proof.
  rewrite existsb_exists. split.
  - intros (x & Hin%list_elem_of_In & ->%bool_decide_eq_true). done.
  - intros Hin. exists s. split; [by apply list_elem_of_In|].
    by apply bool_decide_eq_true.
Qed.

(** X25.  [AddRule] accepts a rule exactly when its name and its
    condition are non-empty and its severity is empty, error, warning or
    info.  It then appends the rule, with an empty severity replaced by
    warning, so every rule it stores has one of the three severities. *)
Theorem AddRule_accepts (e : PolicyEngine) (rule : PolicyRule) :
  ((∃ e', AddRule e rule = Ok e') ↔
   rName rule ≠ "" ∧ rCondition rule ≠ "" ∧
   rSeverity rule ∈ [""; "error"; "warning"; "info"]) ∧
  (∀ e', AddRule e rule = Ok e' →
     rules e' = (rules e ++ [withSeverity rule (storedSeverity rule)])%list ∧
     storedSeverity rule ∈ ["error"; "warning"; "info"]).
Proof.
  unfold AddRule, storedSeverity.
  destruct (decide (rName rule = "")) as [Hname|Hname].
  { rewrite (bool_decide_eq_true_2 _ Hname). split; [|done].
    split; [by intros [? ?]|]. by intros [? _]. }
  rewrite (bool_decide_eq_false_2 _ Hname).
  destruct (decide (rCondition rule = "")) as [Hcond|Hcond].
  { rewrite (bool_decide_eq_true_2 _ Hcond). split; [|done].
    split; [by intros [? ?]|]. by intros (_ & ? & _). }
  rewrite (bool_decide_eq_false_2 _ Hcond).
  destruct (decide (rSeverity rule = "")) as [Hsev|Hsev].
  - rewrite (bool_decide_eq_true_2 _ Hsev). simpl. split.
    + split; [intros _|by eexists]. rewrite Hsev.
      split; [done|]. split; [done|]. by left.
    + intros e' [= <-]. split; [done|]. right. by left.
  - rewrite (bool_decide_eq_false_2 _ Hsev).
    destruct (existsb _ _) eqn:Hvalid.
    + apply existsb_severity in Hvalid. split.
      * split; [intros _|by eexists]. split; [done|]. split; [done|]. by right.
      * intros e' [= <-]. by rewrite withSeverity_same.
    + split; [|done]. split; [by intros [? ?]|].
      intros (_ & _ & [?|Hin]%elem_of_cons); [done|].
      apply existsb_severity in Hin. congruence.
Qed.

Lemma evaluateRules_shape (rs : list PolicyRule) (instance : ResourceInstance) :
  ∃ violations,
    evaluateRules rs instance = Ok violations ∧
    Forall (fun v =>
              vResourceID v = iID instance ∧ vResourceKind v = iKind instance ∧
              vSeverity v = rSeverity (vRule v) ∧
              vMessage v = rMessage (vRule v) ∧
              vMetadata v = rMetadata (vRule v) ∧
              evaluateRule (vRule v) instance = Ok true) violations ∧
    vRule <$> violations `sublist_of` rs.
Proof.
  induction rs as [|rule rest (violations & IH & Hall & Hsub)]; simpl.
  - exists []. split; [done|]. split; [constructor|]. constructor.
  - destruct (evaluateRule_ok rule instance) as [violated Hrule].
    rewrite Hrule, IH. simpl. eexists. split; [done|].
    destruct violated.
    + split; [by constructor|]. rewrite fmap_cons. by apply sublist_skip.
    + split; [done|]. by apply sublist_cons.
Qed.

(** [EvaluateResource] never fails; its violations follow the order of
    the rules, at most one per rule, and each carries the instance's ID
    and kind and the severity, message and metadata of its rule. *)
Lemma EvaluateResource_violations (e : PolicyEngine) (instance : ResourceInstance) :
  ∃ violations,
    EvaluateResource e instance = Ok violations ∧
    Forall (fun v =>
              vResourceID v = iID instance ∧ vResourceKind v = iKind instance ∧
              vSeverity v = rSeverity (vRule v) ∧
              vMessage v = rMessage (vRule v) ∧
              vMetadata v = rMetadata (vRule v) ∧
              evaluateRule (vRule v) instance = Ok true) violations ∧
    vRule <$> violations `sublist_of` rules e.
Proof. apply evaluateRules_shape. Qed.

Lemma groupBy_snoc (key : PolicyViolation → string)
    (violations : list PolicyViolation) (violation : PolicyViolation) :
  groupBy key (violations ++ [violation]) =
  <[key violation :=
      (default [] (groupBy key violations !! key violation) ++ [violation])%list]>
    (groupBy key violations).
Proof. unfold groupBy. by rewrite foldl_app. Qed.

Lemma groupBy_lookup (key : PolicyViolation → string)
    (violations : list PolicyViolation) (k : string) :
  groupBy key violations !! k =
  match List.filter (fun v => bool_decide (key v = k)) violations with
  | [] => None
  | group => Some group
  end.
Proof.
  induction violations as [|violation violations IH] using rev_ind; [done|].
  rewrite groupBy_snoc, List.filter_app. simpl.
  destruct (decide (key violation = k)) as [<-|Hne].
  - rewrite lookup_insert_eq, IH, bool_decide_eq_true_2 by done.
    by destruct (List.filter _ violations).
  - rewrite lookup_insert_ne, IH, bool_decide_eq_false_2 by done.
    by rewrite app_nil_r.
Qed.

(** X26.  Grouping loses nothing and keeps the order: the group
    [GetViolationsBySeverity] (or [GetViolationsByResource]) holds under a
    key is the list of the violations with that severity (or resource ID)
    in their original order, and a key without violations has no group.
    So [HasErrors] holds exactly when there is a group under error. *)
Theorem GetViolations_groups (violations : list PolicyViolation) :
  (∀ severity,
     GetViolationsBySeverity violations !! severity =
     match List.filter (fun v => bool_decide (vSeverity v = severity)) violations with
     | [] => None
     | group => Some group
     end) ∧
  (∀ resourceID,
     GetViolationsByResource violations !! resourceID =
     match List.filter (fun v => bool_decide (vResourceID v = resourceID)) violations with
     | [] => None
     | group => Some group
     end) ∧
  (HasErrors violations = true ↔
   is_Some (GetViolationsBySeverity violations !! "error")).
Proof.
  split; [intros; apply groupBy_lookup|]. split; [intros; apply groupBy_lookup|].
  unfold GetViolationsBySeverity. rewrite groupBy_lookup, HasErrors_iff.
  rewrite Exists_exists. split.
  - intros (v & Hin & Hv).
    assert (In v (List.filter (fun v => bool_decide (vSeverity v = "error")) violations))
      as Hf.
    { apply filter_In. split; [by apply list_elem_of_In|].
      by apply bool_decide_eq_true. }
    destruct (List.filter _ violations); [done|by eexists].
  - destruct (List.filter _ violations) as [|v group] eqn:Hf; [by intros [? ?]|].
    intros _. assert (In v (v :: group)) as Hin by by left.
    rewrite <- Hf in Hin. apply filter_In in Hin as [Hin Hv].
    exists v. split; [by apply list_elem_of_In|]. by apply bool_decide_eq_true in Hv.
Qed.

(** The three built-in rules on an instance. *)
Definition lacksVersioning (instance : ResourceInstance) : bool :=
  bool_decide (iKind instance = "aws:s3:bucket") &&
  match iProperties instance !! "versioning" with
  | Some (VBool true) => false
  | _ => true
  end.

Definition isLarge (instance : ResourceInstance) : bool :=
  bool_decide (iKind instance = "aws:ec2:instance") &&
  match iProperties instance !! "instance_type" with
  | Some (VStr instanceType) => bool_decide (instanceType = "t3.large")
  | _ => false
  end.

Definition lacksEnvironmentTag (instance : ResourceInstance) : bool :=
  match iProperties instance !! "tags" with
  | Some (VMap tags) => bool_decide (tags !! "Environment" = None)
  | _ => true
  end.

(** No built-in condition mentions a placeholder, so the replacements
    leave it as it is. *)
Lemma builtin_condition (rule : PolicyRule) (kind name : string) :
  rule ∈ builtinRules →
  ReplaceAll (ReplaceAll (rCondition rule) "${resource.kind}" kind)
             "${resource.name}" name = rCondition rule.
Proof.
  unfold builtinRules. intros Hin.
  repeat (apply elem_of_cons in Hin as [->|Hin]; [reflexivity|]).
  by apply elem_of_nil in Hin.
Qed.

Lemma evaluateRule_builtin (instance : ResourceInstance) :
  (fun rule => evaluateRule rule instance) <$> builtinRules =
  [Ok (lacksVersioning instance); Ok (isLarge instance);
   Ok (lacksEnvironmentTag instance)].
Proof.
  assert (∀ rule, rule ∈ builtinRules →
            evaluateRule rule instance =
            (let condition := rCondition rule in
             if gostrings.Contains condition
                  "resource.kind == 'aws:s3:bucket' && !properties.versioning"
             then Ok (lacksVersioning instance)
             else if gostrings.Contains condition
                  "resource.kind == 'aws:ec2:instance' && properties.instance_type == 't3.large'"
             then Ok (isLarge instance)
             else if gostrings.Contains condition "!tags.Environment"
             then Ok (lacksEnvironmentTag instance)
             else Ok false)) as Hrule.
  { intros rule Hin. unfold evaluateRule. rewrite builtin_condition by done.
    unfold lacksVersioning, isLarge, lacksEnvironmentTag. cbv zeta.
    repeat match goal with
           | |- context [if ?b then _ else _] => destruct b
           | |- context [match ?x with _ => _ end] => destruct x
           end; reflexivity. }
  unfold builtinRules at 1. cbn [fmap list_fmap].
  rewrite !Hrule by (unfold builtinRules; repeat constructor).
  reflexivity.
Qed.

(** The names of the built-in rules an instance violates, in rule order. *)
Definition builtinViolated (instance : ResourceInstance) : list string :=
  ((if lacksVersioning instance then ["s3-versioning-enabled"] else []) ++
   (if isLarge instance then ["no-large-instances-in-dev"] else []) ++
   (if lacksEnvironmentTag instance
    then ["resources-must-have-environment-tag"] else []))%list.

Lemma evaluateRules_builtin (instance : ResourceInstance) :
  ∃ violations,
    evaluateRules builtinRules instance = Ok violations ∧
    (fun v => rName (vRule v)) <$> violations = builtinViolated instance ∧
    (HasErrors violations = isLarge instance).
Proof.
  pose proof (evaluateRule_builtin instance) as H.
  unfold builtinRules in H. cbn [fmap list_fmap] in H.
  injection H as H1 H2 H3.
  unfold builtinRules. cbn [evaluateRules]. rewrite H1, H2, H3.
  unfold builtinViolated.
  destruct (lacksVersioning instance), (isLarge instance),
    (lacksEnvironmentTag instance); eexists; (split; [reflexivity|]);
    split; reflexivity.
Qed.

Lemma builtin_violations_aux (instance : ResourceInstance) :
  ∃ violations,
    EvaluateResource {| rules := builtinRules |} instance = Ok violations ∧
    (HasErrors violations = true ↔
     iKind instance = "aws:ec2:instance" ∧
     iProperties instance !! "instance_type" = Some (VStr "t3.large")).
Proof.
  destruct (evaluateRules_builtin instance) as (violations & Hev & Hnames & Herr).
  exists violations. split; [done|]. rewrite Herr.
  unfold isLarge. rewrite andb_true_iff, bool_decide_eq_true.
  destruct (iProperties instance !! "instance_type") as [[ | | | |t| | | | ]|];
    try (split; [by intros [_ ?]|by intros [_ ?]]).
  rewrite bool_decide_eq_true. split; intros [? ?]; split; congruence.
Qed.

Lemma HasErrors_app (v1 v2 : list PolicyViolation) :
  HasErrors (v1 ++ v2) = HasErrors v1 || HasErrors v2.
Proof.
  induction v1 as [|v v1 IH]; simpl; [done|]. by case_bool_decide.
Qed.

Lemma evaluateAll_builtin (instances : list ResourceInstance) :
  ∃ violations,
    cmd.evaluateAll {| rules := builtinRules |} instances = Ok violations ∧
    (HasErrors violations = true ↔
     Exists (fun instance =>
               iKind instance = "aws:ec2:instance" ∧
               iProperties instance !! "instance_type" = Some (VStr "t3.large"))
            instances).
Proof.
  induction instances as [|instance rest (violations & Hrest & Hiff)].
  - exists []. split; [done|]. split; [done|]. by intros ?%Exists_nil.
  - destruct (builtin_violations_aux instance) as (vs & Hev & Herr).
    exists (vs ++ violations)%list. split.
    + cbn [cmd.evaluateAll]. rewrite Hev. simpl. by rewrite Hrest.
    + rewrite HasErrors_app, orb_true_iff, Exists_cons, Herr, Hiff. done.
Qed.

(** X27.  The built-in policies, as bootstrap applies them.  On one
    instance they never fail, and the rules violated are, in rule order:
    s3-versioning-enabled for an S3 bucket whose versioning property is
    not the boolean true, no-large-instances-in-dev for an EC2 instance
    whose instance_type is the string t3.large, and
    resources-must-have-environment-tag for any instance without an
    Environment key in a tags map.  Over all instances, the violations
    contain an error, which is what stops bootstrap, exactly when some
    instance is such an EC2 instance. *)
Theorem builtin_policy_gate :
  (∀ instance,
     ∃ violations,
       EvaluateResource {| rules := builtinRules |} instance = Ok violations ∧
       (fun v => rName (vRule v)) <$> violations = builtinViolated instance) ∧
  (∀ instances,
     ∃ engine violations,
       LoadBuiltinPolicies NewPolicyEngine = Ok engine ∧
       cmd.evaluateAll engine instances = Ok violations ∧
       (HasErrors violations = true ↔
        Exists (fun instance =>
                  iKind instance = "aws:ec2:instance" ∧
                  iProperties instance !! "instance_type" = Some (VStr "t3.large"))
               instances)).
Proof.
  split.
  - intros instance.
    destruct (evaluateRules_builtin instance) as (violations & Hev & Hnames & _).
    by exists violations.
  - intros instances.
    destruct (evaluateAll_builtin instances) as (violations & Hev & Hiff).
    by exists {| rules := builtinRules |}, violations.
Qed.

End policy_more.

(** ** Bootstrap: providers, validation, modules *)

Module bootstrap_more.
Import config providers cloud cmd cloud_spec drift_trace cmd_spec.

Section bootstrap.
Context {World : Type}.
Context (exprRun : string → gmap string Value → option Value).
Context (layout : parser.Layout).
Context (awsProvider : providers.Provider World).
Context (statLocal : string → option error).
Context (fuel : nat).

(** A module entry the bootstrap loop accepts. *)
Definition loadable (entry : string * config.Module) : Prop :=
  entry.1 ≠ "" ∧ Source entry.2 ≠ "" ∧
  (gostrings.HasPrefix (Source entry.2) "./" = true ∨
   gostrings.HasPrefix (Source entry.2) "/" = true) ∧
  statLocal (Source entry.2) = None.

Lemma loadModules_step (moduleName : string) (moduleConfig : config.Module)
    (rest : list (string * config.Module))
    (moduleRegistry : gmap string modules.Module) (loaded : nat) :
  (loadable (moduleName, moduleConfig) ∧
   ∃ moduleRegistry',
     loadModules statLocal ((moduleName, moduleConfig) :: rest) moduleRegistry loaded =
     loadModules statLocal rest moduleRegistry' (S loaded)) ∨
  (¬ loadable (moduleName, moduleConfig) ∧
   ∃ e, loadModules statLocal ((moduleName, moduleConfig) :: rest) moduleRegistry loaded =
        (Some e, loaded) ∧
        ((∃ cause, e = errInvalidModule moduleName cause) ∨
         (∃ cause, e = errLoadModule moduleName cause))).
Proof.
  unfold loadable. cbn [loadModules fst snd].
  unfold modules.Validate, modules.Load, modules.RegisterModule.
  cbn [modules.mName modules.mSource].
  destruct (decide (moduleName = "")) as [Hname|Hname].
  { rewrite (bool_decide_eq_true_2 _ Hname). right. split; [by intros [? _]|].
    eexists. split; [done|]. left. by eexists. }
  rewrite (bool_decide_eq_false_2 _ Hname).
  destruct (decide (Source moduleConfig = "")) as [Hsrc|Hsrc].
  { rewrite (bool_decide_eq_true_2 _ Hsrc). right. split; [by intros (_ & ? & _)|].
    eexists. split; [done|]. left. by eexists. }
  rewrite (bool_decide_eq_false_2 _ Hsrc).
  destruct (gostrings.HasPrefix (Source moduleConfig) "./") eqn:Hdot;
    destruct (gostrings.HasPrefix (Source moduleConfig) "/") eqn:Hslash; simpl.
  4: { right. split; [by intros (_ & _ & [?|?] & _)|].
       eexists. split; [done|]. right. by eexists. }
  all: destruct (statLocal (Source moduleConfig)) as [e|] eqn:Hstat;
    [right; split; [by intros (_ & _ & _ & ?)|];
     eexists; split; [done|]; right; by eexists
    |left; split; [repeat split; auto|by eexists]].
Qed.

(** X28.  The module loop of bootstrap counts what it loaded.  A module
    entry is accepted when its name and its source are non-empty, the
    source starts with ./ or / and the path is found.  The loop returns
    no error exactly when every entry is accepted, and has then counted
    all of them; otherwise it stops at the first entry that is not
    accepted, has counted the entries before it, and returns an
    invalid-module or load error for that entry (never a registration
    error). *)
Theorem loadModules_counts (ms : list (string * config.Module)) :
  ∀ (moduleRegistry : gmap string modules.Module) (loaded : nat),
    match loadModules statLocal ms moduleRegistry loaded with
    | (None, n) => n = (loaded + length ms)%nat ∧ Forall loadable ms
    | (Some e, n) =>
        ∃ good bad rest,
          ms = (good ++ bad :: rest)%list ∧ n = (loaded + length good)%nat ∧
          Forall loadable good ∧ ¬ loadable bad ∧
          ((∃ cause, e = errInvalidModule bad.1 cause) ∨
           (∃ cause, e = errLoadModule bad.1 cause))
    end.
Proof.
  induction ms as [|[moduleName moduleConfig] rest IH]; intros moduleRegistry loaded.
  - simpl. split; [lia|constructor].
  - destruct (loadModules_step moduleName moduleConfig rest moduleRegistry loaded)
      as [[Hok [registry' ->]]|[Hbad (e & -> & He)]].
    + specialize (IH registry' (S loaded)).
      destruct (loadModules statLocal rest registry' (S loaded)) as [[e|] n].
      * destruct IH as (good & bad & rest' & -> & -> & Hgood & Hbad & He).
        exists ((moduleName, moduleConfig) :: good), bad, rest'.
        split; [done|]. split; [simpl; lia|]. split; [by constructor|done].
      * destruct IH as [-> Hall]. split; [simpl; lia|by constructor].
    + exists [], (moduleName, moduleConfig), rest.
      split; [done|]. split; [simpl; lia|]. split; [constructor|done].
Qed.

Lemma validateInstances_validated
    (registry : gmap string (providers.Provider World))
    (instances : list ResourceInstance) :
  ∀ c c' : Cloud World,
    validateInstances registry instances c = (None, c') →
    calls c' = (calls c ++ (CallValidateResource <$> instances))%list ∧
    world c' = world c ∧
    Forall (fun instance =>
              ∃ provider,
                registry !! extractProviderName (iKind instance) = Some provider ∧
                ValidateResource provider instance = None) instances.
Proof.
  induction instances as [|instance rest IH]; intros c c'; simpl.
  - intros [= <-]. rewrite app_nil_r. done.
  - destruct (registry !! _) as [provider|] eqn:Hp; [|done].
    unfold doValidateResource.
    destruct (ValidateResource provider instance) eqn:Hv; [done|].
    intros Hrest. destruct (IH _ _ Hrest) as (Hcalls & Hworld & Hall).
    simpl in *. split; [by rewrite Hcalls, <- app_assoc|]. split; [done|].
    constructor; [by exists provider|done].
Qed.

(** X29.  When [validateConfiguration] succeeds, every provider of the
    configuration is registered, the resources expanded, and each
    instance was validated once, in order, by a registered provider
    that accepted it; the calls added are these validations and the
    world is the one it started from. *)
Theorem validateConfiguration_validated (cfg : Config)
    (registry : gmap string (providers.Provider World)) (p : parser.Parser)
    (c c' : Cloud World) :
  validateConfiguration exprRun layout fuel cfg registry p c = (Ok (), c') →
  Forall (fun entry => is_Some (registry !! entry.1)) (Providers cfg) ∧
  ∃ instances,
    parser.ExpandResources exprRun layout fuel p (Resources cfg) = Ok instances ∧
    calls c' = (calls c ++ (CallValidateResource <$> instances))%list ∧
    world c' = world c ∧
    Forall (fun instance =>
              ∃ provider,
                registry !! extractProviderName (iKind instance) = Some provider ∧
                ValidateResource provider instance = None) instances.
Proof.
  unfold validateConfiguration.
  destruct (find _ (Providers cfg)) as [entry|] eqn:Hfind; [done|].
  destruct (parser.ExpandResources exprRun layout fuel p (Resources cfg))
    as [instances| | |]; simpl; try done.
  destruct (validateInstances registry instances c) as [[e|] c1] eqn:Hval; [done|].
  intros [= <-]. split.
  - apply Forall_forall. intros entry Hin%list_elem_of_In.
    pose proof (find_none _ _ Hfind entry Hin) as Hnot. simpl in Hnot.
    apply bool_decide_eq_false in Hnot.
    by destruct (registry !! entry.1); [eexists|].
  - exists instances. split; [done|]. by apply validateInstances_validated.
Qed.

(** X30.  Only the provider named aws is supported: when the
    initialization loop shared by the commands succeeds, every provider
    entry is named aws, each was initialized once, in order, and recorded
    as installed, and the registry gained the AWS adapter under aws (and
    nothing else). *)
Theorem initializeProviders_supported (ps : list (string * config.Provider)) :
  ∀ (registry registry' : gmap string (providers.Provider World))
    (installed installed' : list string) (c c' : Cloud World),
    initializeProviders awsProvider ps registry installed c =
      (Ok registry', installed', c') →
    Forall (fun entry => entry.1 = "aws") ps ∧
    installed' = (installed ++ ps.*1)%list ∧
    calls c' = (calls c ++ (CallInitialize <$> ps.*1))%list ∧
    registry' = (if ps is [] then registry else <["aws" := awsProvider]> registry).
Proof.
  induction ps as [|[providerName providerConfig] rest IH];
    intros registry registry' installed installed' c c'; simpl.
  - intros [= <- <- <-]. by rewrite !app_nil_r.
  - case_bool_decide as Hname; [|done]. subst providerName.
    pose proof (doInitialize_calls "aws" awsProvider
                  (<["profile" := VStr (Profile providerConfig)]>
                     {["region" := VStr (Region providerConfig)]}) c) as Hcalls.
    destruct (doInitialize _ _ _ c) as [[e|] c1]; [done|]. simpl in Hcalls.
    intros Hrest. destruct (IH _ _ _ _ _ _ Hrest) as (Hall & -> & Hc & Hreg).
    split; [by constructor|]. split; [by rewrite <- app_assoc|].
    split; [by rewrite Hc, Hcalls, <- app_assoc|].
    rewrite Hreg. destruct rest; [done|]. by rewrite insert_insert_eq.
Qed.

End bootstrap.

Lemma validateConfiguration_validated_witness :
  ∃ c',
    validateConfiguration samples.noExpr samples.layout 0
      (samples.s6Config [samples.s6Bucket]) {["aws" := samples.memProvider []]}
      samples.noVariables samples.emptyCloud = (Ok (), c') ∧
    Forall (fun entry =>
              is_Some (({["aws" := samples.memProvider []]}
                        : gmap string (providers.Provider samples.Memory)) !! entry.1))
           (Providers (samples.s6Config [samples.s6Bucket])).
Proof.
  eexists. split; [vm_compute; reflexivity|].
  eapply proj1.
  eapply (validateConfiguration_validated samples.noExpr samples.layout 0
            (samples.s6Config [samples.s6Bucket])
            {["aws" := samples.memProvider []]} samples.noVariables
            samples.emptyCloud).
  vm_compute. reflexivity.
Defined.

Lemma initializeProviders_supported_witness :
  ∃ registry' installed' c',
    initializeProviders (samples.memProvider [])
      (Providers samples.chainConfig) ∅ [] samples.emptyCloud =
      (Ok registry', installed', c') ∧
    Forall (fun entry => entry.1 = "aws") (Providers samples.chainConfig).
Proof.
  eexists _, _, _. split; [vm_compute; reflexivity|].
  eapply proj1.
  eapply (initializeProviders_supported (samples.memProvider [])
            (Providers samples.chainConfig) ∅ _ [] _ samples.emptyCloud).
  vm_compute. reflexivity.
Defined.

End bootstrap_more.
